(** * smooth-squircle: the path generator and the DOM binder, verified

    A shallow embedding of [src/core/squircle-path.ts] (the path generator,
    its derived renderers and the capability queries) and of [src/core/dom.ts]
    (the vanilla-JavaScript binder), with the properties the specification
    states about them; and of the React hook and component
    ([src/react/useSquircle.ts], [src/react/Squircle.tsx]) and the custom
    element ([src/web-component/index.ts]), with properties of the code
    beyond the specification: inputs outside the expected range, the
    alphabet and shape of the emitted strings, the overlay's life cycle,
    fallback mode, teardown and registration.

    JavaScript numbers are IEEE 754 binary64 values: they are embedded as
    Rocq's primitive floats, whose [+], [-], [*] and [/] are the same
    round-to-nearest-even operations, and printed by an executable
    Number::toString.  Strings are [String.string].  The DOM is a state of
    nodes, listeners and observers, threaded through a state monad with
    exceptions.

    The definitions come first ([JS], [URI], [SquirclePath], [ExactGeometry],
    [Host], [Dom], [OrderDefs], [Text], [BinderDefs], [ReactSquircle],
    [CustomElement], [Registration]), the properties after them
    ([FloatFacts], [Checks],
    [Reference], [Generator], [Capability], [Binder], then [FloatOrder],
    [Clamp], [Saturation], [TextFacts], [PathText], [Markup],
    [ReferenceFacts], [Styles], [Turns], [BinderMore], [PassFacts],
    [ReactFacts], [CustomElementFacts], [RegistrationFacts]). *)

From Stdlib Require Import ZArith Bool List String Ascii Lia.
From Stdlib Require Import Floats.
Import ListNotations.

Local Open Scope string_scope.

(** ** JavaScript numbers *)

Module JS.

Abbreviation number := float (only parsing).

(** [x === y] on two numbers: IEEE equality ([NaN] differs from itself,
    [-0] equals [+0]). *)
Definition strict_eq (x y : number) : bool := PrimFloat.eqb x y.

(** [x > y]. *)
Definition gt (x y : number) : bool := PrimFloat.ltb y x.

Definition is_neg_zero (x : number) : bool :=
  match Prim2SF x with
  | S754_zero true => true
  | _ => false
  end.

Definition is_pos_zero (x : number) : bool :=
  match Prim2SF x with
  | S754_zero false => true
  | _ => false
  end.

(** [Number.isFinite(x)]: neither [NaN] nor an infinity. *)
Definition isFinite (x : number) : bool :=
  match Prim2SF x with
  | S754_zero _ | S754_finite _ _ _ => true
  | _ => false
  end.

(** [+0], a positive finite number or [+Infinity]. *)
Definition sf_nonneg (x : spec_float) : bool :=
  match x with
  | S754_zero false | S754_finite false _ _ | S754_infinity false => true
  | _ => false
  end.

Definition is_nonneg (x : number) : bool := sf_nonneg (Prim2SF x).

(** [Math.min(...)], ECMAScript 21.3.2.25: start from [+Infinity]; a [NaN]
    argument makes the result [NaN]; [-0] is below [+0]. *)
Fixpoint Math_min_from (lowest : number) (args : list number) : number :=
  match args with
  | [] => lowest
  | x :: rest =>
      if PrimFloat.is_nan x then nan
      else
        let lowest1 :=
          if is_neg_zero x && is_pos_zero lowest then x else lowest in
        let lowest2 :=
          if PrimFloat.ltb x lowest1 then x else lowest1 in
        Math_min_from lowest2 rest
  end.

Definition Math_min (args : list number) : number :=
  Math_min_from infinity args.

(** *** Number::toString (radix 10), ECMAScript 6.1.6.1.20

    For a finite non-zero [x = m * 2^e] the digits are the shortest decimal
    [s * 10^(n-k)] (with [k] digits) that rounds back to [x], the closest
    to [x] when several have that length. *)

Definition digit_char (d : Z) : ascii := ascii_of_nat (48 + Z.to_nat d).

Fixpoint digits_of_fuel (fuel : nat) (n : Z) (acc : string) : string :=
  match fuel with
  | O => acc
  | S fuel' =>
      let acc' := String (digit_char (n mod 10)) acc in
      if (n <? 10)%Z then acc' else digits_of_fuel fuel' (n / 10) acc'
  end.

(** Decimal digits of a non-negative integer. *)
Definition digits_of (n : Z) : string :=
  digits_of_fuel (S (Z.to_nat (Z.log2 n))) n "".

Fixpoint zeros (n : nat) : string :=
  match n with
  | O => ""
  | S n' => String "0" (zeros n')
  end.

Definition substring_from (n : nat) (s : string) : string :=
  substring n (length s - n) s.

Section Shortest.
(** The value is [m * 2^e], a valid binary64 mantissa and exponent. *)
Variables (m : positive) (e : Z).

(** Everything is measured in units of [2^(e-2)]: the value is [4m], the
    upper rounding boundary [4m+2], the lower one [4m-2], or [4m-1] when
    [m] is the smallest normal mantissa (the float below is closer). *)
Definition unit_exp : Z := e - 2.
Definition v_units : Z := 4 * Zpos m.
Definition hi_units : Z := 4 * Zpos m + 2.
Definition lo_units : Z :=
  if (Pos.eqb m 4503599627370496 && (-1074 <? e)%Z)%bool
  then 4 * Zpos m - 1 else 4 * Zpos m - 2.
Definition boundary_ok : bool := Z.even (Zpos m).

(** First guess of [n] with [10^(n-1) <= m*2^e < 10^n], right up to one. *)
Definition n_estimate : Z :=
  ((Zpos (digits2_pos m) + e) * 30103) / 100000 + 1.

Definition q_min : Z := n_estimate - 2 - 17.
Definition q_neg : Z := Z.max (- q_min) 0.
Definition e_neg : Z := Z.max (- unit_exp) 0.

(** Common integer scale: a decimal [s * 10^q] and a binary [u * 2^unit_exp]. *)
Definition scale_dec (s q : Z) : Z := s * 10 ^ (q + q_neg) * 2 ^ e_neg.
Definition scale_bin (u : Z) : Z := u * 2 ^ (unit_exp + e_neg) * 10 ^ q_neg.

Definition in_interval (s q : Z) : bool :=
  let x := scale_dec s q in
  let lo := scale_bin lo_units in
  let hi := scale_bin hi_units in
  (((lo <? x)%Z || (boundary_ok && (lo =? x)%Z))
   && ((x <? hi)%Z || (boundary_ok && (x =? hi)%Z)))%bool.

Definition distance (s q : Z) : Z :=
  Z.abs (scale_dec s q - scale_bin v_units).

(** The [k]-digit decimals next to the value, for the nearby exponents. *)
Definition candidates (k : Z) : list (Z * Z) :=
  flat_map
    (fun n : Z =>
       let q := (n - k)%Z in
       let f := (scale_bin v_units / scale_dec 1 q)%Z in
       filter
         (fun '(s, q) =>
            ((10 ^ (k - 1) <=? s)%Z && (s <? 10 ^ k)%Z && in_interval s q)%bool)
         [(f, q); ((f + 1)%Z, q)])
    [n_estimate - 2; n_estimate - 1; n_estimate; n_estimate + 1; n_estimate + 2]%Z.

Definition closer (a b : Z * Z) : Z * Z :=
  let da := distance (fst a) (snd a) in
  let db := distance (fst b) (snd b) in
  if (da <? db)%Z then a
  else if (db <? da)%Z then b
  else if Z.even (fst a) then a else b.

Definition best (l : list (Z * Z)) : option (Z * Z) :=
  match l with
  | [] => None
  | c :: rest => Some (fold_left closer rest c)
  end.

Fixpoint first_length (ks : list Z) : option (Z * Z * Z) :=
  match ks with
  | [] => None
  | k :: ks' =>
      match best (candidates k) with
      | Some (s, q) => Some (s, k, (q + k)%Z)
      | None => first_length ks'
      end
  end.

(** [(s, k, n)] of the specification's step 5.  Seventeen digits identify
    any binary64 value, so the search always ends with [Some]. *)
Definition shortest : Z * Z * Z :=
  match first_length [1; 2; 3; 4; 5; 6; 7; 8; 9; 10; 11; 12; 13; 14; 15; 16; 17]%Z with
  | Some r => r
  | None => (0, 1, 1)%Z
  end.
End Shortest.

(** Steps 6 to 10: lay the digits out. *)
Definition layout (s k n : Z) : string :=
  let ds := digits_of s in
  if ((k <=? n)%Z && (n <=? 21)%Z)%bool then
    ds ++ zeros (Z.to_nat (n - k))
  else if ((0 <? n)%Z && (n <=? 21)%Z)%bool then
    substring 0 (Z.to_nat n) ds ++ "." ++ substring_from (Z.to_nat n) ds
  else if ((-6 <? n)%Z && (n <=? 0)%Z)%bool then
    "0." ++ zeros (Z.to_nat (- n)) ++ ds
  else
    let ex := (n - 1)%Z in
    let sign := if (ex <? 0)%Z then "-" else "+" in
    let mant :=
      if (k =? 1)%Z then ds
      else substring 0 1 ds ++ "." ++ substring_from 1 ds in
    mant ++ "e" ++ sign ++ digits_of (Z.abs ex).

Definition sign_prefix (s : bool) : string := if s then "-" else "".

(** The string a template literal substitutes for a number. *)
Definition toString (x : number) : string :=
  match Prim2SF x with
  | S754_nan => "NaN"
  | S754_zero _ => "0"
  | S754_infinity s => sign_prefix s ++ "Infinity"
  | S754_finite s m e =>
      let '(d, k, n) := shortest m e in
      sign_prefix s ++ layout d k n
  end.

End JS.

(** ** Percent-encoding: [encodeURIComponent] and [decodeURIComponent]

    ECMAScript 19.2.6.  A character of a [string] stands for the code unit of
    the same number (U+0000 to U+00FF): below 128 it is one UTF-8 octet, from
    128 on it is two. *)

Module URI.
Local Open Scope N_scope.

Definition hex_digit (n : N) : ascii :=
  if n <? 10 then ascii_of_N (48 + n) else ascii_of_N (55 + n).

(** [%XX], in upper-case hexadecimal. *)
Definition percent (octet : N) : string :=
  String "%" (String (hex_digit (octet / 16)) (String (hex_digit (octet mod 16)) EmptyString)).

Definition is_alpha (c : N) : bool :=
  ((65 <=? c) && (c <=? 90)) || ((97 <=? c) && (c <=? 122)).

Definition is_digit (c : N) : bool := (48 <=? c) && (c <=? 57).

(** The marks [- _ . ! ~ * ' ( )] of [uriUnescaped]. *)
Definition is_mark (c : N) : bool :=
  existsb (N.eqb c) [45; 95; 46; 33; 126; 42; 39; 40; 41].

Definition unreserved (a : ascii) : bool :=
  let c := N_of_ascii a in is_alpha c || is_digit c || is_mark c.

Definition encode_char (a : ascii) : string :=
  let c := N_of_ascii a in
  if unreserved a then String a EmptyString
  else if c <? 128 then percent c
  else (percent (192 + c / 64) ++ percent (128 + c mod 64))%string.

Fixpoint encodeURIComponent (s : string) : string :=
  match s with
  | EmptyString => EmptyString
  | String a rest => (encode_char a ++ encodeURIComponent rest)%string
  end.

Definition hex_value (a : ascii) : option N :=
  let c := N_of_ascii a in
  if is_digit c then Some (c - 48)
  else if (65 <=? c) && (c <=? 70) then Some (c - 55)
  else if (97 <=? c) && (c <=? 102) then Some (c - 87)
  else None.

Definition octet_of (h l : ascii) : option N :=
  match hex_value h, hex_value l with
  | Some x, Some y => Some (16 * x + y)
  | _, _ => None
  end.

Definition is_percent (a : ascii) : bool := N.eqb (N_of_ascii a) 37.

(** [None] stands for the [URIError] of a malformed escape, and for a
    decoded character above U+00FF, which a [string] cannot hold. *)
Fixpoint decodeURIComponent (s : string) : option string :=
  match s with
  | EmptyString => Some EmptyString
  | String a rest =>
      if is_percent a then
        match rest with
        | String h (String l rest1) =>
            match octet_of h l with
            | None => None
            | Some b =>
                if b <? 128 then
                  option_map (String (ascii_of_N b)) (decodeURIComponent rest1)
                else if (194 <=? b) && (b <=? 195) then
                  match rest1 with
                  | String p (String h2 (String l2 rest2)) =>
                      if is_percent p then
                        match octet_of h2 l2 with
                        | Some b2 =>
                            if (128 <=? b2) && (b2 <? 192) then
                              option_map
                                (String (ascii_of_N ((b - 192) * 64 + (b2 - 128))))
                                (decodeURIComponent rest2)
                            else None
                        | None => None
                        end
                      else None
                  | _ => None
                  end
                else None
            end
        | _ => None
        end
      else option_map (String a) (decodeURIComponent rest)
  end.

(** A payload made of unreserved characters and [%XX] escapes only. *)
Definition is_hex (a : ascii) : bool :=
  match hex_value a with Some _ => true | None => false end.

Fixpoint percent_encoded (s : string) : bool :=
  match s with
  | EmptyString => true
  | String a rest =>
      if is_percent a then
        match rest with
        | String h (String l rest1) => is_hex h && is_hex l && percent_encoded rest1
        | _ => false
        end
      else unreserved a && percent_encoded rest
  end.

(** RFC 2397: [data:<mediatype>[;base64],<data>].  The header is what
    stands before the first comma. *)
Fixpoint header_and_payload (uri : string) : option (string * string) :=
  match uri with
  | EmptyString => None
  | String a rest =>
      if N.eqb (N_of_ascii a) 44 then Some (EmptyString, rest)
      else
        match header_and_payload rest with
        | Some (header, payload) => Some (String a header, payload)
        | None => None
        end
  end.

End URI.

(** ** The path generator ([src/core/squircle-path.ts]) *)

Module SquirclePath.
Import JS.
Local Open Scope float_scope.

Definition vec : Type := number * number.

(** One cubic segment of the table: two control points and the target. *)
Definition segment : Type := vec * vec * vec.

(** The decimal literals denote, as in JavaScript, the nearest binary64
    value. *)
#[warnings="-inexact-float"]
Definition squircleBezierApproximation : list segment :=
  [ ((0.3, 0), (0.473, 0), (0.619, 0.039));
    ((0.804, 0.088), (0.912, 0.196), (0.961, 0.381));
    ((1, 0.527), (1, 0.7), (1, 1)) ].

Definition vecAdd (v1 v2 : vec) : vec :=
  (fst v1 + fst v2, snd v1 + snd v2).

Definition vecMul (v : vec) (k : number) : vec :=
  (fst v * k, snd v * k).

(** [k % 4] is the remainder that takes the sign of [k]. *)
Definition rotBy90 (v : vec) (k : Z) : vec :=
  let '(x, y) := v in
  match Z.rem k 4 with
  | 0%Z => (x, y)
  | 1%Z => (y, - x)
  | 2%Z => (- x, - y)
  | 3%Z => (- y, x)
  | _ => (x, y)
  end.

Record SquirclePathOptions : Type := {
  width : number;
  height : number;
  radius : number
}.

(** The two call shapes the overload signatures admit. *)
Inductive Args : Type :=
| Named (options : SquirclePathOptions)
| Positional (width height radius : number).

(** Body of one [for (const [cA, cB, target] of squircleBezierApproximation)]
    loop: append the segment placed at [start] under quarter-turn [k]. *)
Definition corner_step (start : vec) (k : Z) (clampedRadius : number)
    (path : string) (seg : segment) : string :=
  let '(cA, cB, target) := seg in
  let cA2 := vecAdd start (vecMul (rotBy90 cA k) clampedRadius) in
  let cB2 := vecAdd start (vecMul (rotBy90 cB k) clampedRadius) in
  let t2 := vecAdd start (vecMul (rotBy90 target k) clampedRadius) in
  (path ++ " C " ++ toString (fst cA2) ++ " " ++ toString (snd cA2)
        ++ ", " ++ toString (fst cB2) ++ " " ++ toString (snd cB2)
        ++ ", " ++ toString (fst t2) ++ " " ++ toString (snd t2))%string.

Definition normalize (args : Args) : number * number * number :=
  match args with
  | Named options => (width options, height options, radius options)
  | Positional width height radius => (width, height, radius)
  end.

Definition getSquirclePath (args : Args) : string :=
  let '(w, h, r) := normalize args in
  if strict_eq w 0 || strict_eq h 0 then ""%string
  else
    let clampedRadius := Math_min [r; w / 2; h / 2] in
    let left := 0 in
    let top := 0 in
    let right := w in
    let bottom := h in
    let path :=
      ("M " ++ toString (left + clampedRadius) ++ " " ++ toString top)%string in
    (* Top Right corner *)
    let startTR := (right - clampedRadius, top) in
    let path :=
      (path ++ " L " ++ toString (fst startTR) ++ " " ++ toString (snd startTR))%string in
    let path :=
      fold_left (corner_step startTR 0 clampedRadius) squircleBezierApproximation path in
    (* Bottom Right corner *)
    let startBR := (right, bottom - clampedRadius) in
    let path :=
      (path ++ " L " ++ toString (fst startBR) ++ " " ++ toString (snd startBR))%string in
    let path :=
      fold_left (corner_step startBR 3 clampedRadius) squircleBezierApproximation path in
    (* Bottom Left corner *)
    let startBL := (left + clampedRadius, bottom) in
    let path :=
      (path ++ " L " ++ toString (fst startBL) ++ " " ++ toString (snd startBL))%string in
    let path :=
      fold_left (corner_step startBL 2 clampedRadius) squircleBezierApproximation path in
    (* Top Left corner *)
    let startTL := (left, top + clampedRadius) in
    let path :=
      (path ++ " L " ++ toString (fst startTL) ++ " " ++ toString (snd startTL))%string in
    let path :=
      fold_left (corner_step startTL 1 clampedRadius) squircleBezierApproximation path in
    (path ++ " Z")%string.

(** The double-quote character (code 34), which delimits attribute values. *)
Definition dq : string := String (ascii_of_nat 34) EmptyString.

Definition getSquircleSVG (width height radius : number) : string :=
  let path := getSquirclePath (Positional width height radius) in
  ("<svg xmlns=" ++ dq ++ "http://www.w3.org/2000/svg" ++ dq
    ++ " width=" ++ dq ++ toString width ++ dq
    ++ " height=" ++ dq ++ toString height ++ dq
    ++ "><path d=" ++ dq ++ path ++ dq
    ++ " fill=" ++ dq ++ "black" ++ dq ++ " /></svg>")%string.

Definition getSquircleDataUri (width height radius : number) : string :=
  let svg := getSquircleSVG width height radius in
  ("data:image/svg+xml," ++ URI.encodeURIComponent svg)%string.

(** The markup of a document whose path data is empty. *)
Definition empty_document (w h : number) : string :=
  ("<svg xmlns=" ++ dq ++ "http://www.w3.org/2000/svg" ++ dq
    ++ " width=" ++ dq ++ toString w ++ dq
    ++ " height=" ++ dq ++ toString h ++ dq
    ++ "><path d=" ++ dq ++ dq
    ++ " fill=" ++ dq ++ "black" ++ dq ++ " /></svg>")%string.

(** *** The contour as a sequence of draw commands

    The specification's view of the string: one move-to, four groups of a
    line-to and three cubic curves, and a close. *)

Inductive command : Type :=
| MoveTo (p : vec)
| LineTo (p : vec)
| CurveTo (c1 c2 p : vec)
| ClosePath.

Definition render_point (p : vec) : string :=
  (toString (fst p) ++ " " ++ toString (snd p))%string.

Definition render_command (c : command) : string :=
  match c with
  | MoveTo p => ("M " ++ render_point p)%string
  | LineTo p => (" L " ++ render_point p)%string
  | CurveTo c1 c2 p =>
      (" C " ++ render_point c1 ++ ", " ++ render_point c2 ++ ", " ++ render_point p)%string
  | ClosePath => " Z"%string
  end.

Fixpoint render (cs : list command) : string :=
  match cs with
  | [] => EmptyString
  | c :: rest => (render_command c ++ render rest)%string
  end.

(** A table vector, turned by [k] quarter-turns, scaled by [r] and moved to
    [anchor]. *)
Definition place (anchor : vec) (k : Z) (r : number) (v : vec) : vec :=
  vecAdd anchor (vecMul (rotBy90 v k) r).

(** The straight edge to [anchor] and the three curves of the corner that
    starts there. *)
Definition corner_group (anchor : vec) (k : Z) (r : number) : list command :=
  LineTo anchor
    :: map (fun '(cA, cB, target) =>
              CurveTo (place anchor k r cA) (place anchor k r cB) (place anchor k r target))
           squircleBezierApproximation.

Definition contour (w h radius : number) : list command :=
  let r := Math_min [radius; w / 2; h / 2] in
  MoveTo (0 + r, 0)
    :: corner_group (w - r, 0) 0 r
    ++ corner_group (w, h - r) 3 r
    ++ corner_group (0 + r, h) 2 r
    ++ corner_group (0, 0 + r) 1 r
    ++ [ClosePath].

(** The string begins with a move-to at [(x, y)]. *)
Definition starts_at (path : string) (x y : number) : Prop :=
  exists rest, path = ("M " ++ toString x ++ " " ++ toString y ++ rest)%string.

End SquirclePath.

(** ** Emitted coordinates in exact arithmetic

    What it means for the coordinates of one corner to be the image of
    those of another under quarter-turns and a translation, when the
    coordinates are read as the real numbers they denote. *)

Module ExactGeometry.
Import JS SquirclePath.
Local Open Scope float_scope.

(** The real number a finite binary64 value denotes, counted in units of
    [2^-1074]: an integer, since no finite value has a finer binary digit.
    [NaN] and the infinities denote none. *)
Definition exact (x : number) : option Z :=
  match Prim2SF x with
  | S754_zero _ => Some 0%Z
  | S754_finite s m e =>
      Some ((if s then -1 else 1) * Zpos m * 2 ^ (e + 1074))%Z
  | _ => None
  end.

Definition exact_point (p : vec) : option (Z * Z) :=
  match exact (fst p), exact (snd p) with
  | Some x, Some y => Some (x, y)
  | _, _ => None
  end.

(** [k] quarter-turns and a translation of a point, in exact arithmetic. *)
Definition quarter_turns (k : Z) (p : Z * Z) : Z * Z :=
  let '(x, y) := p in
  match (k mod 4)%Z with
  | 1%Z => (y, - x)%Z
  | 2%Z => (- x, - y)%Z
  | 3%Z => (- y, x)%Z
  | _ => (x, y)
  end.

Definition translate (t p : Z * Z) : Z * Z :=
  (fst p + fst t, snd p + snd t)%Z.

(** The nine vectors of the table. *)
Definition table_vectors : list vec :=
  flat_map (fun '(cA, cB, target) => [cA; cB; target]) squircleBezierApproximation.

(** The anchor of the corner with quarter-turn index [k]: top right for 0,
    bottom right for 3, bottom left for 2, top left for 1. *)
Definition anchor (w h r : number) (k : Z) : vec :=
  match k with
  | 3%Z => (w, h - r)
  | 2%Z => (0 + r, h)
  | 1%Z => (0, 0 + r)
  | _ => (w - r, 0)
  end.

(** The coordinates the corner with index [k] emits for a table vector. *)
Definition emitted (w h radius : number) (k : Z) (v : vec) : vec :=
  let r := Math_min [radius; w / 2; h / 2] in
  place (anchor w h r k) k r v.

(** The coordinates that corner [k] emits are those of corner [j] under
    [k - j] quarter-turns and one translation, exactly. *)
Definition exact_images (w h radius : number) (j k : Z) : Prop :=
  exists t : Z * Z,
    forall v, In v table_vectors ->
      exact_point (emitted w h radius k v)
      = option_map (fun p => translate t (quarter_turns (k - j) p))
          (exact_point (emitted w h radius j v)).

End ExactGeometry.

(** ** Exceptions and the host environment *)

Module Host.

Inductive error : Type :=
| ReferenceError
| NotFoundError
| HostError (message : string).

(** What evaluating an expression gives: a value, or a thrown exception. *)
Inductive outcome (A : Type) : Type :=
| Return (a : A)
| Throw (e : error).

Arguments Return {A} a.
Arguments Throw {A} e.

(** [try { body } catch { handler }] *)
Definition try_catch {A : Type} (body : outcome A) (handler : outcome A) : outcome A :=
  match body with
  | Return a => Return a
  | Throw _ => handler
  end.

(** The [CSS] namespace object: [supports] may be missing, and a present
    one may throw instead of answering. *)
Record CSSNamespace : Type := {
  supports : option (string -> string -> outcome bool)
}.

(** The globals the library looks at: [typeof window], [typeof CSS] and
    [typeof ResizeObserver]. *)
Record Env : Type := {
  has_window : bool;
  CSS : option CSSNamespace;
  has_ResizeObserver : bool
}.

(** The feature string ['path("M0 0")']. *)
Definition path_feature : string :=
  ("path(" ++ SquirclePath.dq ++ "M0 0" ++ SquirclePath.dq ++ ")")%string.

Definition supportsClipPath (env : Env) : outcome bool :=
  if negb (has_window env) then Return false
  else
    match CSS env with
    | None => Return false
    | Some css =>
        match supports css with
        | None => Return false
        | Some css_supports =>
            try_catch (css_supports "clip-path" path_feature) (Return false)
        end
    end.

Definition hasResizeObserver (env : Env) : bool :=
  has_window env && has_ResizeObserver env.

End Host.

(** ** The binder ([src/core/dom.ts]) over a small DOM *)

Module Dom.
Import JS Host.

Definition node := nat.
Definition observer := nat.
Definition listener := nat.

(** The inline style properties the binder writes; [None] is unset. *)
Record Style : Type := {
  position : option string;
  clipPath : option string;
  WebkitClipPath : option string;
  borderRadius : option string;
  overflow : option string;
  border : option string;
  cssText : option string
}.

Definition no_style : Style :=
  {| position := None; clipPath := None; WebkitClipPath := None;
     borderRadius := None; overflow := None; border := None; cssText := None |}.

Record Node : Type := {
  offsetWidth : number;
  offsetHeight : number;
  style : Style;
  parentNode : option node;
  attributes : list (string * string);
  innerHTML : string
}.

(** The document: nodes by identity with their parent pointers, the
    [resize] listeners of the window and the targets of each
    [ResizeObserver]. *)
Record World : Type := {
  nodes : node -> Node;
  next_node : node;
  resize_listeners : list listener;
  observed : observer -> list node;
  next_observer : observer;
  next_listener : listener
}.

(** *** A state monad with exceptions: the state survives a throw. *)

Definition M (A : Type) : Type := World -> outcome A * World.

Definition ret {A : Type} (a : A) : M A := fun w => (Return a, w).

Definition throw {A : Type} (e : error) : M A := fun w => (Throw e, w).

Definition bind {A B : Type} (m : M A) (k : A -> M B) : M B :=
  fun w =>
    match m w with
    | (Return a, w1) => k a w1
    | (Throw e, w1) => (Throw e, w1)
    end.

Definition lift {A : Type} (o : outcome A) : M A := fun w => (o, w).

Definition get : M World := fun w => (Return w, w).

Definition modify (f : World -> World) : M unit := fun w => (Return tt, f w).

Notation "x <- m ;; k" := (bind m (fun x => k))
  (at level 61, m at next level, right associativity).
Notation "m ;;; k" := (bind m (fun _ => k))
  (at level 61, right associativity).

(** [m], run from [w], returns a value and leaves a state that satisfy
    [Q]: it does not throw. *)
Definition returns {A : Type} (m : M A) (w : World) (Q : A -> World -> Prop) : Prop :=
  exists a w1, m w = (Return a, w1) /\ Q a w1.

(** *** State updates *)

Definition update {A : Type} (f : nat -> A) (i : nat) (a : A) : nat -> A :=
  fun j => if Nat.eqb j i then a else f j.

Definition put_node (w : World) (n : node) (d : Node) : World :=
  {| nodes := update (nodes w) n d;
     next_node := next_node w;
     resize_listeners := resize_listeners w;
     observed := observed w;
     next_observer := next_observer w;
     next_listener := next_listener w |}.

Definition put_listeners (w : World) (ls : list listener) : World :=
  {| nodes := nodes w;
     next_node := next_node w;
     resize_listeners := ls;
     observed := observed w;
     next_observer := next_observer w;
     next_listener := next_listener w |}.

Definition put_observed (w : World) (o : observer) (targets : list node) : World :=
  {| nodes := nodes w;
     next_node := next_node w;
     resize_listeners := resize_listeners w;
     observed := update (observed w) o targets;
     next_observer := next_observer w;
     next_listener := next_listener w |}.

Definition blank_node : Node :=
  {| offsetWidth := 0; offsetHeight := 0; style := no_style;
     parentNode := None; attributes := []; innerHTML := EmptyString |}.

Definition alloc_node (w : World) : World :=
  {| nodes := update (nodes w) (next_node w) blank_node;
     next_node := S (next_node w);
     resize_listeners := resize_listeners w;
     observed := observed w;
     next_observer := next_observer w;
     next_listener := next_listener w |}.

Definition alloc_observer (w : World) : World :=
  {| nodes := nodes w;
     next_node := next_node w;
     resize_listeners := resize_listeners w;
     observed := update (observed w) (next_observer w) [];
     next_observer := S (next_observer w);
     next_listener := next_listener w |}.

Definition alloc_listener (w : World) : World :=
  {| nodes := nodes w;
     next_node := next_node w;
     resize_listeners := resize_listeners w;
     observed := observed w;
     next_observer := next_observer w;
     next_listener := S (next_listener w) |}.

(** Two states that no observation tells apart. *)
Definition same_world (w1 w2 : World) : Prop :=
  (forall n, nodes w1 n = nodes w2 n)
  /\ next_node w1 = next_node w2
  /\ resize_listeners w1 = resize_listeners w2
  /\ (forall o, observed w1 o = observed w2 o)
  /\ next_observer w1 = next_observer w2
  /\ next_listener w1 = next_listener w2.

(** *** DOM primitives *)

Definition set_node (n : node) (f : Node -> Node) : M unit :=
  modify (fun w => put_node w n (f (nodes w n))).

Definition set_style (n : node) (f : Style -> Style) : M unit :=
  set_node n (fun d =>
    {| offsetWidth := offsetWidth d; offsetHeight := offsetHeight d;
       style := f (style d); parentNode := parentNode d;
       attributes := attributes d; innerHTML := innerHTML d |}).

Definition set_parent (n : node) (p : option node) : M unit :=
  set_node n (fun d =>
    {| offsetWidth := offsetWidth d; offsetHeight := offsetHeight d;
       style := style d; parentNode := p;
       attributes := attributes d; innerHTML := innerHTML d |}).

Definition setAttribute (n : node) (name value : string) : M unit :=
  set_node n (fun d =>
    {| offsetWidth := offsetWidth d; offsetHeight := offsetHeight d;
       style := style d; parentNode := parentNode d;
       attributes := (name, value) :: attributes d; innerHTML := innerHTML d |}).

Definition set_innerHTML (n : node) (markup : string) : M unit :=
  set_node n (fun d =>
    {| offsetWidth := offsetWidth d; offsetHeight := offsetHeight d;
       style := style d; parentNode := parentNode d;
       attributes := attributes d; innerHTML := markup |}).

(** [document.createElementNS]: a fresh detached node. *)
Definition createElementNS (env : Env) : M node :=
  if has_window env then fun w => (Return (next_node w), alloc_node w)
  else throw ReferenceError.

(** [parent.appendChild(child)] *)
Definition appendChild (parent child : node) : M unit :=
  set_parent child (Some parent).

(** [parent.removeChild(child)] throws unless [child] is a child of
    [parent]. *)
Definition removeChild (parent child : node) : M unit :=
  w <- get ;;
  match parentNode (nodes w child) with
  | Some p =>
      if Nat.eqb p parent then set_parent child None
      else throw NotFoundError
  | None => throw NotFoundError
  end.

(** [window.addEventListener('resize', l)]: a listener is registered once. *)
Definition addResizeListener (env : Env) (l : listener) : M unit :=
  if has_window env then
    modify (fun w =>
      put_listeners w
        (if existsb (Nat.eqb l) (resize_listeners w) then resize_listeners w
         else (resize_listeners w ++ [l])%list))
  else throw ReferenceError.

(** [window.removeEventListener('resize', l)] *)
Definition removeResizeListener (env : Env) (l : listener) : M unit :=
  if has_window env then
    modify (fun w =>
      put_listeners w (filter (fun l' => negb (Nat.eqb l l')) (resize_listeners w)))
  else throw ReferenceError.

(** [new ResizeObserver(callback)] *)
Definition newResizeObserver : M observer :=
  fun w => (Return (next_observer w), alloc_observer w).

Definition observe (o : observer) (target : node) : M unit :=
  modify (fun w => put_observed w o (observed w o ++ [target])%list).

Definition disconnect (o : observer) : M unit :=
  modify (fun w => put_observed w o []).

(** A fresh function object, for the identity of a listener. *)
Definition newClosure : M listener :=
  fun w => (Return (next_listener w), alloc_listener w).

(** *** Style assignments *)

Definition with_position (v : string) (s : Style) : Style :=
  {| position := Some v; clipPath := clipPath s; WebkitClipPath := WebkitClipPath s;
     borderRadius := borderRadius s; overflow := overflow s; border := border s;
     cssText := cssText s |}.

Definition with_clipPath (v : string) (s : Style) : Style :=
  {| position := position s; clipPath := Some v; WebkitClipPath := WebkitClipPath s;
     borderRadius := borderRadius s; overflow := overflow s; border := border s;
     cssText := cssText s |}.

Definition with_WebkitClipPath (v : string) (s : Style) : Style :=
  {| position := position s; clipPath := clipPath s; WebkitClipPath := Some v;
     borderRadius := borderRadius s; overflow := overflow s; border := border s;
     cssText := cssText s |}.

Definition with_borderRadius (v : string) (s : Style) : Style :=
  {| position := position s; clipPath := clipPath s; WebkitClipPath := WebkitClipPath s;
     borderRadius := Some v; overflow := overflow s; border := border s;
     cssText := cssText s |}.

Definition with_overflow (v : string) (s : Style) : Style :=
  {| position := position s; clipPath := clipPath s; WebkitClipPath := WebkitClipPath s;
     borderRadius := borderRadius s; overflow := Some v; border := border s;
     cssText := cssText s |}.

Definition with_border (v : string) (s : Style) : Style :=
  {| position := position s; clipPath := clipPath s; WebkitClipPath := WebkitClipPath s;
     borderRadius := borderRadius s; overflow := overflow s; border := Some v;
     cssText := cssText s |}.

Definition with_cssText (v : string) (s : Style) : Style :=
  {| position := position s; clipPath := clipPath s; WebkitClipPath := WebkitClipPath s;
     borderRadius := borderRadius s; overflow := overflow s; border := border s;
     cssText := Some v |}.

(** *** [createSquircleStyles] and [applySquircle] *)

Record ApplySquircleOptions : Type := {
  radius : number;
  borderWidth : option number;
  borderColor : option string
}.

Record SquircleStyles : Type := {
  ss_position : string;
  ss_clipPath : option string;
  ss_WebkitClipPath : option string;
  ss_borderRadius : option string;
  ss_overflow : option string
}.

(** [`path('${pathData}')`] *)
Definition css_path (pathData : string) : string :=
  ("path('" ++ pathData ++ "')")%string.

Definition createSquircleStyles (env : Env) (width height : number)
    (options : ApplySquircleOptions) : outcome SquircleStyles :=
  let radius := radius options in
  match supportsClipPath env with
  | Throw e => Throw e
  | Return isSupported =>
      if isSupported && gt width 0 && gt height 0 then
        let pathData :=
          SquirclePath.getSquirclePath (SquirclePath.Positional width height radius) in
        Return
          {| ss_position := "relative";
             ss_clipPath := Some (css_path pathData);
             ss_WebkitClipPath := Some (css_path pathData);
             ss_borderRadius := None;
             ss_overflow := None |}
      else
        (* Fallback *)
        Return
          {| ss_position := "relative";
             ss_clipPath := None;
             ss_WebkitClipPath := None;
             ss_borderRadius := Some (toString radius ++ "px")%string;
             ss_overflow := Some "hidden" |}
  end.

(** The variables one call of [applySquircle] closes over; [svgOverlay] is
    the one its [updateStyles] assigns. *)
Record Session : Type := {
  element : node;
  s_radius : number;
  s_borderWidth : number;
  s_borderColor : string;
  isSupported : bool;
  svgOverlay : option node;
  s_observer : option observer;
  s_updateStyles : listener
}.

Definition with_svgOverlay (o : option node) (s : Session) : Session :=
  {| element := element s; s_radius := s_radius s; s_borderWidth := s_borderWidth s;
     s_borderColor := s_borderColor s; isSupported := isSupported s;
     svgOverlay := o; s_observer := s_observer s;
     s_updateStyles := s_updateStyles s |}.

Definition with_observer (o : option observer) (s : Session) : Session :=
  {| element := element s; s_radius := s_radius s; s_borderWidth := s_borderWidth s;
     s_borderColor := s_borderColor s; isSupported := isSupported s;
     svgOverlay := svgOverlay s; s_observer := o;
     s_updateStyles := s_updateStyles s |}.

Definition nl : string := String (ascii_of_nat 10) EmptyString.

Fixpoint spaces (n : nat) : string :=
  match n with
  | O => EmptyString
  | S n' => String " " (spaces n')
  end.

Local Open Scope float_scope.

(** The template literal assigned to [svgOverlay.style.cssText]. *)
Definition overlay_cssText (borderWidth : number) : string :=
  (nl ++ spaces 24 ++ "position: absolute;"
   ++ nl ++ spaces 24 ++ "top: " ++ toString ((- borderWidth) / 2) ++ "px;"
   ++ nl ++ spaces 24 ++ "left: " ++ toString ((- borderWidth) / 2) ++ "px;"
   ++ nl ++ spaces 24 ++ "width: calc(100% + " ++ toString borderWidth ++ "px);"
   ++ nl ++ spaces 24 ++ "height: calc(100% + " ++ toString borderWidth ++ "px);"
   ++ nl ++ spaces 24 ++ "pointer-events: none;"
   ++ nl ++ spaces 24 ++ "z-index: 10;"
   ++ nl ++ spaces 20)%string.

(** The template literal assigned to [svgOverlay.innerHTML]. *)
Definition overlay_markup (pathData borderColor : string) (borderWidth : number)
    : string :=
  let dq := SquirclePath.dq in
  (nl ++ spaces 20 ++ "<path "
   ++ nl ++ spaces 24 ++ "d=" ++ dq ++ pathData ++ dq ++ " "
   ++ nl ++ spaces 24 ++ "fill=" ++ dq ++ "none" ++ dq ++ " "
   ++ nl ++ spaces 24 ++ "stroke=" ++ dq ++ borderColor ++ dq ++ " "
   ++ nl ++ spaces 24 ++ "stroke-width=" ++ dq ++ toString (borderWidth * 2) ++ dq
   ++ nl ++ spaces 24 ++ "vector-effect=" ++ dq ++ "non-scaling-stroke" ++ dq
   ++ nl ++ spaces 24 ++ "style=" ++ dq ++ "transform: translate("
   ++ toString (borderWidth / 2) ++ "px, " ++ toString (borderWidth / 2) ++ "px)" ++ dq
   ++ nl ++ spaces 20 ++ "/>"
   ++ nl ++ spaces 16)%string.

(** The closure [updateStyles]; it returns the session because it may
    assign [svgOverlay]. *)
Definition updateStyles (env : Env) (s : Session) : M Session :=
  w <- get ;;
  let offsetWidth := offsetWidth (nodes w (element s)) in
  let offsetHeight := offsetHeight (nodes w (element s)) in
  if strict_eq offsetWidth 0 || strict_eq offsetHeight 0 then ret s
  else if isSupported s then
    let pathData :=
      SquirclePath.getSquirclePath
        (SquirclePath.Positional offsetWidth offsetHeight (s_radius s)) in
    set_style (element s) (with_position "relative") ;;;
    set_style (element s) (with_clipPath (css_path pathData)) ;;;
    set_style (element s) (with_WebkitClipPath (css_path pathData)) ;;;
    (* Handle border with SVG overlay *)
    if gt (s_borderWidth s) 0 then
      overlay <-
        match svgOverlay s with
        | None =>
            o <- createElementNS env ;;
            setAttribute o "aria-hidden" "true" ;;;
            set_style o (with_cssText (overlay_cssText (s_borderWidth s))) ;;;
            appendChild (element s) o ;;;
            ret o
        | Some o => ret o
        end ;;
      set_innerHTML overlay
        (overlay_markup pathData (s_borderColor s) (s_borderWidth s)) ;;;
      ret (with_svgOverlay (Some overlay) s)
    else ret s
  else
    (* Fallback *)
    set_style (element s) (with_position "relative") ;;;
    set_style (element s) (with_borderRadius (toString (s_radius s) ++ "px")%string) ;;;
    set_style (element s) (with_overflow "hidden") ;;;
    if gt (s_borderWidth s) 0 then
      set_style (element s)
        (with_border (toString (s_borderWidth s) ++ "px solid " ++ s_borderColor s)%string) ;;;
      ret s
    else ret s.

Definition default {A : Type} (d : A) (o : option A) : A :=
  match o with
  | Some a => a
  | None => d
  end.

(** The closure [applySquircle] returns. *)
Definition cleanup (env : Env) (s : Session) : M unit :=
  match s_observer s with
  | Some o => disconnect o
  | None => ret tt
  end ;;;
  removeResizeListener env (s_updateStyles s) ;;;
  match svgOverlay s with
  | Some overlay =>
      w <- get ;;
      match parentNode (nodes w overlay) with
      | Some parent => removeChild parent overlay
      | None => ret tt
      end
  | None => ret tt
  end.

(** [applySquircle(element, options)]: the session stands for the cleanup
    closure it returns, which is [cleanup] of that session. *)
Definition applySquircle (env : Env) (element : node)
    (options : ApplySquircleOptions) : M Session :=
  let radius := radius options in
  let borderWidth := default 0 (borderWidth options) in
  let borderColor := default "currentColor"%string (borderColor options) in
  isSupported <- lift (supportsClipPath env) ;;
  updateStyles_id <- newClosure ;;
  let s :=
    {| element := element; s_radius := radius; s_borderWidth := borderWidth;
       s_borderColor := borderColor; isSupported := isSupported;
       svgOverlay := None; s_observer := None;
       s_updateStyles := updateStyles_id |} in
  (* Initial update *)
  s <- updateStyles env s ;;
  (* Setup resize observer *)
  obs <-
    (if hasResizeObserver env then
       o <- newResizeObserver ;;
       observe o element ;;;
       ret (Some o)
     else ret None) ;;
  (* Also listen to window resize as fallback *)
  addResizeListener env updateStyles_id ;;;
  ret (with_observer obs s).

(** *** The custom element's [disconnectedCallback]
    ([src/web-component/index.ts]) *)

Record ElementState : Type := {
  wc_observer : option observer;
  wc_handleResize : listener
}.

Definition disconnectedCallback (env : Env) (this : ElementState) : M unit :=
  match wc_observer this with
  | Some o => disconnect o
  | None => ret tt
  end ;;;
  removeResizeListener env (wc_handleResize this).

(** *** Vocabulary of the properties *)

(** The contour for the size the element has in [w]. *)
Definition path_at (w : World) (el : node) (r : number) : string :=
  SquirclePath.getSquirclePath
    (SquirclePath.Positional (offsetWidth (nodes w el)) (offsetHeight (nodes w el)) r).

(** What a state looks like once [cleanup] has run on it: the listener is
    not registered, the observer has no target, the overlay has no parent. *)
Definition torn_down (s : Session) (w : World) : Prop :=
  ~ In (s_updateStyles s) (resize_listeners w)
  /\ (forall o, s_observer s = Some o -> observed w o = [])
  /\ (forall n, svgOverlay s = Some n -> parentNode (nodes w n) = None).

(** A window with [CSS.supports] and [ResizeObserver], as the test setup
    mocks it. *)
Definition modern_env : Env :=
  {| has_window := true;
     CSS := Some {| supports := Some (fun _ _ => Return true) |};
     has_ResizeObserver := true |}.

(** A document with one attached element of the given size. *)
Definition one_element (width height : number) : World :=
  {| nodes := fun _ =>
       {| offsetWidth := width; offsetHeight := height; style := no_style;
          parentNode := None; attributes := []; innerHTML := EmptyString |};
     next_node := 1%nat;
     resize_listeners := [];
     observed := fun _ => [];
     next_observer := 0%nat;
     next_listener := 0%nat |}.

Definition plain_options (r : number) : ApplySquircleOptions :=
  {| radius := r; borderWidth := None; borderColor := None |}.

(** The outcome of a bind on a surface that has no size yet, and the
    session it returns. *)
Definition zero_size_bind : outcome Session * World :=
  applySquircle modern_env 0%nat (plain_options 20) (one_element 0 0).

Definition zero_size_session : Session :=
  {| element := 0%nat; s_radius := 20; s_borderWidth := 0;
     s_borderColor := "currentColor"; isSupported := true;
     svgOverlay := None; s_observer := Some 0%nat; s_updateStyles := 0%nat |}.

End Dom.

(** ** An order on binary64 values, for the clamp *)

Module OrderDefs.
Import JS.

(** A rank under which binary64 order is the order of integer triples:
    the class and sign first, then the exponent, then the mantissa. *)
Definition key (x : spec_float) : Z * Z * Z :=
  match x with
  | S754_infinity true => (-2, 0, 0)%Z
  | S754_finite true m e => (-1, - e, - Zpos m)%Z
  | S754_zero _ => (0, 0, 0)%Z
  | S754_nan => (0, 0, 0)%Z
  | S754_finite false m e => (1, e, Zpos m)%Z
  | S754_infinity false => (2, 0, 0)%Z
  end.

Definition key_lt (k1 k2 : Z * Z * Z) : Prop :=
  let '(a1, b1, c1) := k1 in
  let '(a2, b2, c2) := k2 in
  (a1 < a2 \/ (a1 = a2 /\ (b1 < b2 \/ (b1 = b2 /\ c1 < c2))))%Z.

Definition key_le (k1 k2 : Z * Z * Z) : Prop := key_lt k1 k2 \/ k1 = k2.

Definition rank (x : number) : Z * Z * Z := key (Prim2SF x).

Definition not_nan (x : number) : bool := negb (PrimFloat.is_nan x).

End OrderDefs.

(** ** The alphabet of the emitted strings *)

Module Text.

Fixpoint all_chars (P : ascii -> bool) (s : string) : bool :=
  match s with
  | EmptyString => true
  | String a rest => P a && all_chars P rest
  end.

Fixpoint count_char (c : ascii) (s : string) : nat :=
  match s with
  | EmptyString => O
  | String a rest => (if Ascii.eqb a c then 1 else 0) + count_char c rest
  end.

Definition is_one_of (chars : string) (a : ascii) : bool :=
  existsb (Ascii.eqb a) (list_ascii_of_string chars).

(** The characters [String(x)] is made of, for any number [x]. *)
Definition number_char : ascii -> bool := is_one_of "0123456789.-+eNaInfity".

(** The characters of path data: the four command letters, the two
    separators and those of numbers. *)
Definition path_char : ascii -> bool := is_one_of "MLCZ ,0123456789.-+eNaInfity".

End Text.

(** ** The state a bind leaves, and example sessions *)

Module BinderDefs.
Import JS Host Dom.

(** The session [applySquircle] starts from, before its first pass. *)
Definition initial_session (env_supported : bool) (el : node)
    (opts : ApplySquircleOptions) (w : World) : Session :=
  {| element := el; s_radius := radius opts;
     s_borderWidth := default 0%float (borderWidth opts);
     s_borderColor := default "currentColor" (borderColor opts);
     isSupported := env_supported;
     svgOverlay := None; s_observer := None;
     s_updateStyles := next_listener w |}.

(** [ls] with [l] registered, as [addEventListener] leaves it. *)
Definition with_listener (l : listener) (ls : list listener) : list listener :=
  if existsb (Nat.eqb l) ls then ls else (ls ++ [l])%list.

(** The state after the registrations that end [applySquircle], from the
    state [w1] its first pass left. *)
Definition registered (env : Env) (el : node) (l : listener) (w1 : World) : World :=
  if hasResizeObserver env then
    let w2 := put_observed (alloc_observer w1) (next_observer w1) [el] in
    put_listeners w2 (with_listener l (resize_listeners w1))
  else put_listeners w1 (with_listener l (resize_listeners w1)).

Definition registered_observer (env : Env) (w1 : World) : option observer :=
  if hasResizeObserver env then Some (next_observer w1) else None.

(** The components of the state a pass never writes. *)
Definition same_registrations (w w1 : World) : Prop :=
  resize_listeners w1 = resize_listeners w
  /\ (forall o, observed w1 o = observed w o)
  /\ next_observer w1 = next_observer w
  /\ next_listener w1 = next_listener w.

(** Options with a border. *)
Definition bordered_options (r bw : number) (color : string) : ApplySquircleOptions :=
  {| radius := r; borderWidth := Some bw; borderColor := Some color |}.

(** The session of a bind with a two-pixel border in precise mode. *)
Definition bordered_session : Session :=
  {| element := 0%nat; s_radius := 20; s_borderWidth := 2;
     s_borderColor := "red"; isSupported := true;
     svgOverlay := None; s_observer := None; s_updateStyles := 0%nat |}.

(** A browser without [CSS.supports] and without [ResizeObserver]. *)
Definition legacy_env : Env :=
  {| has_window := true; CSS := None; has_ResizeObserver := false |}.

(** A server-side runtime: no [window] at all. *)
Definition headless_env : Env :=
  {| has_window := false; CSS := None; has_ResizeObserver := false |}.

End BinderDefs.

(** ** The React hook and component ([src/react/useSquircle.ts],
    [src/react/Squircle.tsx])

    The bodies of the closures, as functions of what they read: the
    measuring pass [updatePath] maps the hook's state to the state its
    [set...] calls produce, and the memoized [style] and the component's
    render are functions of that state. *)

Module ReactSquircle.
Import JS SquirclePath.
Local Open Scope float_scope.

Record ResponsiveRadius : Type := {
  mobile : number;
  desktop : number
}.

(** [number | ResponsiveRadius] *)
Inductive RadiusProp : Type :=
| Fixed (radius : number)
| Responsive (radius : ResponsiveRadius).

Definition DEFAULT_RADIUS : ResponsiveRadius := {| mobile := 30; desktop := 40 |}.
Definition DEFAULT_MOBILE_BREAKPOINT : number := 769.

Record UseSquircleOptions : Type := {
  o_radius : option RadiusProp;
  o_mobileBreakpoint : option number
}.

(** The [useState] cells of one hook instance that the styles depend on
    ([isHydrated] only feeds [suppressHydrationWarning]). *)
Record HookState : Type := {
  pathData : string;
  currentRadius : number
}.

(** What [updatePath] reads: the size of [containerRef.current], if the ref
    is set, and [window.innerWidth]. *)
Record Measure : Type := {
  current : option (number * number);
  innerWidth : number
}.

Record CSSProperties : Type := {
  position : option string;
  zIndex : option number;
  clipPath : option string;
  WebkitClipPath : option string;
  borderRadius : option string;
  overflow : option string;
  border : option string
}.

Definition radius_of (options : UseSquircleOptions) : RadiusProp :=
  Dom.default (Responsive DEFAULT_RADIUS) (o_radius options).

Definition mobileBreakpoint_of (options : UseSquircleOptions) : number :=
  Dom.default DEFAULT_MOBILE_BREAKPOINT (o_mobileBreakpoint options).

(** The initial values of the state cells. *)
Definition initial_state (options : UseSquircleOptions) : HookState :=
  {| pathData := "";
     currentRadius :=
       match radius_of options with
       | Fixed radius => radius
       | Responsive radius => desktop radius
       end |}.

(** [x <= y] *)
Definition le (x y : number) : bool := PrimFloat.leb x y.

Definition updatePath (options : UseSquircleOptions) (m : Measure)
    (st : HookState) : HookState :=
  match current m with
  | None => st
  | Some (offsetWidth, offsetHeight) =>
      (* Skip if element has no dimensions yet *)
      if strict_eq offsetWidth 0 || strict_eq offsetHeight 0 then st
      else
        let resolvedRadius :=
          match radius_of options with
          | Fixed radius => radius
          | Responsive radius =>
              if le (innerWidth m) (mobileBreakpoint_of options)
              then mobile radius
              else desktop radius
          end in
        {| pathData :=
             getSquirclePath (Positional offsetWidth offsetHeight resolvedRadius);
           currentRadius := resolvedRadius |}
  end.

(** A string in a condition: the empty string is falsy. *)
Definition truthy_string (s : string) : bool := negb (String.eqb s "").

Definition baseStyle : CSSProperties :=
  {| position := Some "relative"%string; zIndex := Some 1;
     clipPath := None; WebkitClipPath := None; borderRadius := None;
     overflow := None; border := None |}.

(** The memoized [style]. *)
Definition style (isSupported : bool) (st : HookState) : CSSProperties :=
  if isSupported && truthy_string (pathData st) then
    {| position := position baseStyle; zIndex := zIndex baseStyle;
       clipPath := Some (Dom.css_path (pathData st));
       WebkitClipPath := Some (Dom.css_path (pathData st));
       borderRadius := None; overflow := None; border := None |}
  else
    (* Fallback *)
    {| position := position baseStyle; zIndex := zIndex baseStyle;
       clipPath := None; WebkitClipPath := None;
       borderRadius := Some (toString (currentRadius st) ++ "px")%string;
       overflow := Some "hidden"%string; border := None |}.

(** [{ ...a, ...b }] on the properties the component handles. *)
Definition or_else {A : Type} (later earlier : option A) : option A :=
  match later with
  | Some v => Some v
  | None => earlier
  end.

Definition spread (a b : CSSProperties) : CSSProperties :=
  {| position := or_else (position b) (position a);
     zIndex := or_else (zIndex b) (zIndex a);
     clipPath := or_else (clipPath b) (clipPath a);
     WebkitClipPath := or_else (WebkitClipPath b) (WebkitClipPath a);
     borderRadius := or_else (borderRadius b) (borderRadius a);
     overflow := or_else (overflow b) (overflow a);
     border := or_else (border b) (border a) |}.

Definition with_border (v : string) (s : CSSProperties) : CSSProperties :=
  {| position := position s; zIndex := zIndex s; clipPath := clipPath s;
     WebkitClipPath := WebkitClipPath s; borderRadius := borderRadius s;
     overflow := overflow s; border := Some v |}.

Record SquircleProps : Type := {
  p_radius : option RadiusProp;
  p_borderWidth : option number;
  p_borderColor : option string;
  p_style : CSSProperties;
  p_mobileBreakpoint : option number
}.

(** The [svg] child and its [path]. *)
Record Overlay : Type := {
  ov_top : number;
  ov_left : number;
  ov_width : string;
  ov_height : string;
  ov_d : string;
  ov_stroke : string;
  ov_strokeWidth : number;
  ov_transform : string
}.

Record Rendered : Type := {
  r_style : CSSProperties;
  r_overlay : option Overlay
}.

(** The options the component hands to the hook. *)
Definition hook_options (props : SquircleProps) : UseSquircleOptions :=
  {| o_radius := Some (Dom.default (Responsive {| mobile := 30; desktop := 40 |})
                         (p_radius props));
     o_mobileBreakpoint := Some (Dom.default 769 (p_mobileBreakpoint props)) |}.

(** One render of [Squircle], given what its [useSquircle] call returned. *)
Definition Squircle (props : SquircleProps) (isSupported : bool)
    (st : HookState) : Rendered :=
  let borderWidth := Dom.default 0 (p_borderWidth props) in
  let borderColor := Dom.default "currentColor"%string (p_borderColor props) in
  let userStyle := p_style props in
  (* Combine user styles with squircle styles *)
  let combinedStyle := spread (style isSupported st) userStyle in
  (* For fallback mode, apply CSS border *)
  let shouldUseClipPath := isSupported && truthy_string (pathData st) in
  let combinedStyle :=
    if negb shouldUseClipPath && gt borderWidth 0
    then with_border (toString borderWidth ++ "px solid " ++ borderColor) combinedStyle
    else combinedStyle in
  {| r_style := combinedStyle;
     r_overlay :=
       if shouldUseClipPath && gt borderWidth 0 then
         Some {| ov_top := (- borderWidth) / 2;
                 ov_left := (- borderWidth) / 2;
                 ov_width := ("calc(100% + " ++ toString borderWidth ++ "px)")%string;
                 ov_height := ("calc(100% + " ++ toString borderWidth ++ "px)")%string;
                 ov_d := pathData st;
                 ov_stroke := borderColor;
                 ov_strokeWidth := borderWidth * 2;
                 ov_transform :=
                   ("translate(" ++ toString (borderWidth / 2) ++ "px, "
                     ++ toString (borderWidth / 2) ++ "px)")%string |}
       else None |}.

End ReactSquircle.

(** ** The custom element ([src/web-component/index.ts]) *)

Module CustomElement.
Import JS Host Dom.
Local Open Scope float_scope.

(** *** Truthiness and attribute lookup *)

(** [ToBoolean] of a number: [0], [-0] and [NaN] are falsy. *)
Definition truthy (x : number) : bool :=
  negb (strict_eq x 0 || PrimFloat.is_nan x).

(** [x || d] on numbers. *)
Definition number_or (x d : number) : number :=
  if truthy x then x else d.

(** [x || d] on a string that may be [null]. *)
Definition string_or (x : option string) (d : string) : string :=
  match x with
  | Some s => if String.eqb s "" then d else s
  | None => d
  end.

(** [getAttribute]: the value set last, or [null]. *)
Fixpoint getAttribute (attrs : list (string * string)) (name : string)
    : option string :=
  match attrs with
  | [] => None
  | (n, v) :: rest => if String.eqb n name then Some v else getAttribute rest name
  end.

(** *** The page: the document and what else the element writes on its
    overlay (class list and four more inline style properties) *)

Record Extra : Type := {
  classList : list string;
  top : option string;
  left : option string;
  width : option string;
  height : option string
}.

Definition no_extra : Extra :=
  {| classList := []; top := None; left := None; width := None; height := None |}.

Record Page : Type := {
  document : World;
  extras : node -> Extra
}.

Definition P (A : Type) : Type := Page -> outcome A * Page.

Definition pret {A : Type} (a : A) : P A := fun p => (Return a, p).

Definition pbind {A B : Type} (m : P A) (k : A -> P B) : P B :=
  fun p =>
    match m p with
    | (Return a, p1) => k a p1
    | (Throw e, p1) => (Throw e, p1)
    end.

Notation "x <~ m ;; k" := (pbind m (fun x => k))
  (at level 61, m at next level, right associativity).
Notation "m ;;~ k" := (pbind m (fun _ => k))
  (at level 61, right associativity).

(** A step on the document alone. *)
Definition dom {A : Type} (m : M A) : P A :=
  fun p =>
    match m (document p) with
    | (r, w) => (r, {| document := w; extras := extras p |})
    end.

Definition read {A : Type} (f : Page -> A) : P A := fun p => (Return (f p), p).

Definition put_extra (p : Page) (n : node) (x : Extra) : Page :=
  {| document := document p; extras := update (extras p) n x |}.

Definition set_extra (n : node) (f : Extra -> Extra) : P unit :=
  fun p => (Return tt, put_extra p n (f (extras p n))).

Definition preturns {A : Type} (m : P A) (p : Page) (Q : A -> Page -> Prop) : Prop :=
  exists a p1, m p = (Return a, p1) /\ Q a p1.

Definition pthrows {A : Type} (m : P A) (p : Page) (e : error) (Q : Page -> Prop) : Prop :=
  exists p1, m p = (Throw e, p1) /\ Q p1.

(** [classList.add(c)] *)
Definition add_class (c : string) (x : Extra) : Extra :=
  {| classList :=
       if existsb (String.eqb c) (classList x) then classList x
       else (classList x ++ [c])%list;
     top := top x; left := left x; width := width x; height := height x |}.

Definition with_top (v : string) (x : Extra) : Extra :=
  {| classList := classList x; top := Some v; left := left x;
     width := width x; height := height x |}.

Definition with_left (v : string) (x : Extra) : Extra :=
  {| classList := classList x; top := top x; left := Some v;
     width := width x; height := height x |}.

Definition with_width (v : string) (x : Extra) : Extra :=
  {| classList := classList x; top := top x; left := left x;
     width := Some v; height := height x |}.

Definition with_height (v : string) (x : Extra) : Extra :=
  {| classList := classList x; top := top x; left := left x;
     width := width x; height := Some v |}.

(** [document.createElementNS]: the fresh node has no class and no inline
    style. *)
Definition createElementNS (env : Env) : P node :=
  o <~ dom (Dom.createElementNS env) ;;
  set_extra o (fun _ => no_extra) ;;~
  pret o.

(** [attachShadow({ mode: 'open' })]: a fresh root without a parent. *)
Definition attachShadow : M node :=
  fun w => (Return (next_node w), alloc_node w).

(** Assigning [innerHTML] replaces the children: the nodes whose parent
    was [n] have none afterwards. *)
Definition orphan (n : node) (d : Node) : Node :=
  match parentNode d with
  | Some p =>
      if Nat.eqb p n then
        {| offsetWidth := offsetWidth d; offsetHeight := offsetHeight d;
           style := style d; parentNode := None;
           attributes := attributes d; innerHTML := innerHTML d |}
      else d
  | None => d
  end.

Definition without_children (w : World) (n : node) : World :=
  {| nodes := fun m => orphan n (nodes w m);
     next_node := next_node w;
     resize_listeners := resize_listeners w;
     observed := observed w;
     next_observer := next_observer w;
     next_listener := next_listener w |}.

Definition replace_innerHTML (n : node) (markup : string) : M unit :=
  modify (fun w => without_children w n) ;;;
  set_innerHTML n markup.

(** *** The element *)

Record SmoothSquircleElement : Type := {
  self : node;
  shadowRoot : option node;
  ce_observer : option observer;
  ce_svgOverlay : option node;
  ce_isSupported : bool;
  handleResize : listener
}.

Definition with_overlay (o : option node) (this : SmoothSquircleElement)
    : SmoothSquircleElement :=
  {| self := self this; shadowRoot := shadowRoot this;
     ce_observer := ce_observer this; ce_svgOverlay := o;
     ce_isSupported := ce_isSupported this; handleResize := handleResize this |}.

Definition with_ce_observer (o : option observer) (this : SmoothSquircleElement)
    : SmoothSquircleElement :=
  {| self := self this; shadowRoot := shadowRoot this;
     ce_observer := o; ce_svgOverlay := ce_svgOverlay this;
     ce_isSupported := ce_isSupported this; handleResize := handleResize this |}.

(** The two channels [disconnectedCallback] closes. *)
Definition channels (this : SmoothSquircleElement) : ElementState :=
  {| wc_observer := ce_observer this; wc_handleResize := handleResize this |}.

(** The template literal [render] assigns to the shadow root. *)
Definition shadow_markup : string :=
  let dq := SquirclePath.dq in
  (nl ++ spaces 12 ++ "<style>"
   ++ nl ++ spaces 16 ++ ":host {"
   ++ nl ++ spaces 20 ++ "display: block;"
   ++ nl ++ spaces 20 ++ "position: relative;"
   ++ nl ++ spaces 16 ++ "}"
   ++ nl ++ spaces 16 ++ ".content {"
   ++ nl ++ spaces 20 ++ "width: 100%;"
   ++ nl ++ spaces 20 ++ "height: 100%;"
   ++ nl ++ spaces 16 ++ "}"
   ++ nl ++ spaces 16 ++ ".border-overlay {"
   ++ nl ++ spaces 20 ++ "position: absolute;"
   ++ nl ++ spaces 20 ++ "pointer-events: none;"
   ++ nl ++ spaces 20 ++ "z-index: 10;"
   ++ nl ++ spaces 16 ++ "}"
   ++ nl ++ spaces 12 ++ "</style>"
   ++ nl ++ spaces 12 ++ "<div class=" ++ dq ++ "content" ++ dq ++ ">"
   ++ nl ++ spaces 16 ++ "<slot></slot>"
   ++ nl ++ spaces 12 ++ "</div>"
   ++ nl ++ spaces 8)%string.

(** The template literal [updateBorderOverlay] assigns to the overlay. *)
Definition border_markup (pathData borderColor : string) (borderWidth bw : number)
    : string :=
  let dq := SquirclePath.dq in
  (nl ++ spaces 12 ++ "<path "
   ++ nl ++ spaces 16 ++ "d=" ++ dq ++ pathData ++ dq ++ " "
   ++ nl ++ spaces 16 ++ "fill=" ++ dq ++ "none" ++ dq ++ " "
   ++ nl ++ spaces 16 ++ "stroke=" ++ dq ++ borderColor ++ dq ++ " "
   ++ nl ++ spaces 16 ++ "stroke-width=" ++ dq ++ toString (borderWidth * 2) ++ dq
   ++ nl ++ spaces 16 ++ "vector-effect=" ++ dq ++ "non-scaling-stroke" ++ dq
   ++ nl ++ spaces 16 ++ "style=" ++ dq ++ "transform: translate("
   ++ toString (bw / 2) ++ "px, " ++ toString (bw / 2) ++ "px)" ++ dq
   ++ nl ++ spaces 12 ++ "/>"
   ++ nl ++ spaces 8)%string.

Section Element.

(** [Number(s)] on a string, a builtin of the host. *)
Variable StringToNumber : string -> number.

(** [Number(v)] on an attribute value: [Number(null)] is [0]. *)
Definition Number (v : option string) : number :=
  match v with
  | Some s => StringToNumber s
  | None => 0
  end.

(** The three getters, on the element's attributes. *)
Definition radius_of (attrs : list (string * string)) : number :=
  number_or (Number (getAttribute attrs "radius")) 20.

Definition borderWidth_of (attrs : list (string * string)) : number :=
  number_or (Number (getAttribute attrs "border-width")) 0.

Definition borderColor_of (attrs : list (string * string)) : string :=
  string_or (getAttribute attrs "border-color") "currentColor".

Definition get_radius (this : SmoothSquircleElement) : P number :=
  read (fun p => radius_of (attributes (nodes (document p) (self this)))).

Definition get_borderWidth (this : SmoothSquircleElement) : P number :=
  read (fun p => borderWidth_of (attributes (nodes (document p) (self this)))).

Definition get_borderColor (this : SmoothSquircleElement) : P string :=
  read (fun p => borderColor_of (attributes (nodes (document p) (self this)))).

Definition constructor (env : Env) (element : node) : P SmoothSquircleElement :=
  handleResize <~ dom newClosure ;;
  isSupported <~ dom (lift (supportsClipPath env)) ;;
  root <~ dom attachShadow ;;
  pret {| self := element; shadowRoot := Some root; ce_observer := None;
          ce_svgOverlay := None; ce_isSupported := isSupported;
          handleResize := handleResize |}.

Definition render (this : SmoothSquircleElement) : P unit :=
  match shadowRoot this with
  | None => pret tt
  | Some root => dom (replace_innerHTML root shadow_markup)
  end.

Definition updateBorderOverlay (env : Env) (this : SmoothSquircleElement)
    (pathData : string) : P SmoothSquircleElement :=
  match shadowRoot this with
  | None => pret this
  | Some root =>
      overlay <~
        match ce_svgOverlay this with
        | None =>
            o <~ createElementNS env ;;
            set_extra o (add_class "border-overlay") ;;~
            dom (setAttribute o "aria-hidden" "true") ;;~
            dom (appendChild root o) ;;~
            pret o
        | Some o => pret o
        end ;;
      (* Adjust SVG size to account for border width *)
      bw <~ get_borderWidth this ;;
      set_extra overlay (with_top (toString ((- bw) / 2) ++ "px")) ;;~
      set_extra overlay (with_left (toString ((- bw) / 2) ++ "px")) ;;~
      set_extra overlay (with_width ("calc(100% + " ++ toString bw ++ "px)")) ;;~
      set_extra overlay (with_height ("calc(100% + " ++ toString bw ++ "px)")) ;;~
      borderColor <~ get_borderColor this ;;
      borderWidth <~ get_borderWidth this ;;
      dom (replace_innerHTML overlay (border_markup pathData borderColor borderWidth bw)) ;;~
      pret (with_overlay (Some overlay) this)
  end.

Definition removeBorderOverlay (this : SmoothSquircleElement)
    : P SmoothSquircleElement :=
  match ce_svgOverlay this, shadowRoot this with
  | Some overlay, Some root =>
      dom (removeChild root overlay) ;;~
      pret (with_overlay None this)
  | _, _ => pret this
  end.

Definition is_some {A : Type} (o : option A) : bool :=
  match o with
  | Some _ => true
  | None => false
  end.

Definition updateSquircle (env : Env) (this : SmoothSquircleElement)
    : P SmoothSquircleElement :=
  p <~ read (fun p => p) ;;
  let offsetWidth := offsetWidth (nodes (document p) (self this)) in
  let offsetHeight := offsetHeight (nodes (document p) (self this)) in
  if strict_eq offsetWidth 0 || strict_eq offsetHeight 0 then pret this
  else if ce_isSupported this then
    radius <~ get_radius this ;;
    let pathData :=
      SquirclePath.getSquirclePath
        (SquirclePath.Positional offsetWidth offsetHeight radius) in
    dom (set_style (self this) (with_clipPath (css_path pathData))) ;;~
    dom (set_style (self this) (with_WebkitClipPath (css_path pathData))) ;;~
    (* Handle border *)
    borderWidth <~ get_borderWidth this ;;
    if gt borderWidth 0 && is_some (shadowRoot this)
    then updateBorderOverlay env this pathData
    else removeBorderOverlay this
  else
    (* Fallback mode *)
    radius <~ get_radius this ;;
    dom (set_style (self this) (with_borderRadius (toString radius ++ "px"))) ;;~
    dom (set_style (self this) (with_overflow "hidden")) ;;~
    borderWidth <~ get_borderWidth this ;;
    if gt borderWidth 0 then
      borderWidth <~ get_borderWidth this ;;
      borderColor <~ get_borderColor this ;;
      dom (set_style (self this)
             (with_border (toString borderWidth ++ "px solid " ++ borderColor))) ;;~
      pret this
    else pret this.

Definition connectedCallback (env : Env) (this : SmoothSquircleElement)
    : P SmoothSquircleElement :=
  render this ;;~
  this <~ updateSquircle env this ;;
  (* Setup resize observer *)
  obs <~
    (if hasResizeObserver env then
       o <~ dom newResizeObserver ;;
       dom (observe o (self this)) ;;~
       pret (Some o)
     else pret (ce_observer this)) ;;
  dom (addResizeListener env (handleResize this)) ;;~
  pret (with_ce_observer obs this).

Definition disconnectedCallback (env : Env) (this : SmoothSquircleElement)
    : P unit :=
  dom (Dom.disconnectedCallback env (channels this)).

(** [oldValue !== newValue] on values that may be [null]. *)
Definition differ (a b : option string) : bool :=
  match a, b with
  | Some x, Some y => negb (String.eqb x y)
  | None, None => false
  | _, _ => true
  end.

Definition attributeChangedCallback (env : Env) (this : SmoothSquircleElement)
    (oldValue newValue : option string) : P SmoothSquircleElement :=
  if differ oldValue newValue then updateSquircle env this
  else pret this.

(** [handleResize] *)
Definition on_resize (env : Env) (this : SmoothSquircleElement)
    : P SmoothSquircleElement :=
  updateSquircle env this.

(** The contour for the element's size and its radius attribute, and an
    element that has a size. *)
Definition contour_of (w : World) (el : node) : string :=
  SquirclePath.getSquirclePath
    (SquirclePath.Positional (offsetWidth (nodes w el)) (offsetHeight (nodes w el))
       (radius_of (attributes (nodes w el)))).

Definition sized (w : World) (el : node) : Prop :=
  strict_eq (offsetWidth (nodes w el)) 0 || strict_eq (offsetHeight (nodes w el)) 0 = false.

End Element.

(** A conversion for examples: unsigned decimal integers, and [NaN] for
    every other string but the empty one. *)
Fixpoint digits_value (s : string) (acc : Z) : option Z :=
  match s with
  | EmptyString => Some acc
  | String c rest =>
      let d := (Z.of_nat (nat_of_ascii c) - 48)%Z in
      if ((0 <=? d) && (d <=? 9))%Z then digits_value rest (10 * acc + d)%Z
      else None
  end.

Definition decimal_to_number (s : string) : number :=
  match digits_value s 0 with
  | Some z => PrimFloat.of_uint63 (Uint63.of_Z z)
  | None => nan
  end.

(** An element of 100 by 100 pixels with a radius and a border width, before
    its constructor runs; the element once constructed; and the page after
    its first connection. *)
Definition example_page : Page :=
  {| document :=
       {| nodes := fun n =>
            match n with
            | O => {| offsetWidth := 100; offsetHeight := 100; style := no_style;
                      parentNode := None;
                      attributes := [("border-width", "2"); ("radius", "20")]%string;
                      innerHTML := EmptyString |}
            | S _ => blank_node
            end;
          next_node := 1%nat;
          resize_listeners := [];
          observed := fun _ => [];
          next_observer := 0%nat;
          next_listener := 0%nat |};
     extras := fun _ => no_extra |}.

Definition example_element : SmoothSquircleElement :=
  {| self := 0%nat; shadowRoot := Some 1%nat; ce_observer := None;
     ce_svgOverlay := None; ce_isSupported := true; handleResize := 0%nat |}.

Definition constructed_page : Page :=
  snd (constructor modern_env 0%nat example_page).

Definition connected_page : Page :=
  snd (connectedCallback decimal_to_number modern_env example_element constructed_page).

End CustomElement.

(** ** Registration of the custom element ([src/web-component/index.ts])

    [customElements] as the list of its definitions, each a tag name with
    the identity of its constructor.  [define] follows the HTML standard:
    it throws a [SyntaxError] for a name that is not a valid custom element
    name, and a [NotSupportedError] for a name or a constructor that the
    registry already has. *)

Module Registration.
Import Host.

Definition constructor_id := nat.

Definition CustomElementRegistry : Type := list (string * constructor_id).

(** The class this module registers. *)
Definition SmoothSquircleElement : constructor_id := 0%nat.

(** [customElements.get(name)] *)
Fixpoint get (registry : CustomElementRegistry) (name : string)
    : option constructor_id :=
  match registry with
  | [] => None
  | (n, c) :: rest => if String.eqb n name then Some c else get rest name
  end.

Definition has_constructor (registry : CustomElementRegistry) (c : constructor_id)
    : bool :=
  existsb (fun d => Nat.eqb (snd d) c) registry.

Definition is_some {A : Type} (o : option A) : bool :=
  match o with
  | Some _ => true
  | None => false
  end.

Section Names.

(** Whether a string is a valid custom element name, as the host decides. *)
Variable valid_name : string -> bool.

(** [customElements.define(name, constructor)] *)
Definition define (registry : CustomElementRegistry) (name : string)
    (c : constructor_id) : outcome unit * CustomElementRegistry :=
  if negb (valid_name name) then (Throw (HostError "SyntaxError"), registry)
  else if is_some (get registry name) then
    (Throw (HostError "NotSupportedError"), registry)
  else if has_constructor registry c then
    (Throw (HostError "NotSupportedError"), registry)
  else (Return tt, (registry ++ [(name, c)])%list).

(** [registerSmoothSquircle(tagName = 'smooth-squircle')], where
    [customElements] may not exist. *)
Definition registerSmoothSquircle (tagName : option string)
    (customElements : option CustomElementRegistry)
    : outcome unit * option CustomElementRegistry :=
  let tagName := Dom.default "smooth-squircle" tagName in
  match customElements with
  | None => (Return tt, None)
  | Some registry =>
      if negb (is_some (get registry tagName)) then
        match define registry tagName SmoothSquircleElement with
        | (r, registry') => (r, Some registry')
        end
      else (Return tt, Some registry)
  end.

(** The microtask the module queues when it is loaded. *)
Definition auto_register (env : Env) (customElements : option CustomElementRegistry)
    : outcome unit * option CustomElementRegistry :=
  match customElements with
  | Some registry =>
      if has_window env then
        if negb (is_some (get registry "smooth-squircle")) then
          registerSmoothSquircle None customElements
        else (Return tt, customElements)
      else (Return tt, customElements)
  | None => (Return tt, customElements)
  end.

End Names.

(** A stand-in for the host's check in examples: a name with a hyphen. *)
Definition has_hyphen (name : string) : bool :=
  existsb (Ascii.eqb "-") (list_ascii_of_string name).

End Registration.

(** * Properties *)

(** ** Facts about binary64 arithmetic *)

Module FloatFacts.
Import JS.
Local Open Scope float_scope.

Lemma Prim2SF_zero : Prim2SF 0 = S754_zero false.
Proof. reflexivity. Qed.

(** A number above zero is not [=== 0]. *)
Lemma gt_zero_not_eq (x : number) :
  gt x 0 = true -> strict_eq x 0 = false.
Proof.
  unfold gt, strict_eq.
  rewrite ltb_spec, eqb_spec, Prim2SF_zero.
  destruct (Prim2SF x) as [s | s | | s m e]; cbn; try discriminate;
    destruct s; cbn; congruence.
Qed.

Lemma Prim2SF_one : Prim2SF 1 = S754_finite false 4503599627370496 (-52).
Proof. reflexivity. Qed.

Lemma Prim2SF_two : Prim2SF 2 = S754_finite false 4503599627370496 (-51).
Proof. reflexivity. Qed.

Lemma Prim2SF_infinity : Prim2SF infinity = S754_infinity false.
Proof. reflexivity. Qed.

Lemma SFopp_involutive (x : spec_float) : SFopp (SFopp x) = x.
Proof. destruct x as [s | s | | s m e]; cbn; now rewrite ?negb_involutive. Qed.

Lemma opp_involutive (x : number) : - - x = x.
Proof.
  apply Prim2SF_inj. rewrite !opp_spec. apply SFopp_involutive.
Qed.

Lemma binary_round_aux_opp (s : bool) (m e : Z) (l : location) :
  binary_round_aux prec emax (negb s) m e l
  = SFopp (binary_round_aux prec emax s m e l).
Proof.
  unfold binary_round_aux.
  destruct (shr_fexp prec emax m e l) as [mrs' e'].
  destruct (shr_fexp prec emax _ e' loc_Exact) as [mrs'' e''].
  destruct (shr_m mrs'') as [| p | p]; try reflexivity.
  destruct (Z.leb e'' _); reflexivity.
Qed.

Lemma SFmul_opp_l (x y : spec_float) :
  SFmul prec emax (SFopp x) y = SFopp (SFmul prec emax x y).
Proof.
  destruct x as [sx | sx | | sx mx ex], y as [sy | sy | | sy my ey]; cbn [SFopp SFmul];
    try reflexivity; try (now destruct sx, sy).
  replace (xorb (negb sx) sy) with (negb (xorb sx sy)) by now destruct sx, sy.
  apply binary_round_aux_opp.
Qed.

Lemma mul_opp_l (x y : number) : (- x) * y = - (x * y).
Proof.
  apply Prim2SF_inj. rewrite opp_spec, !mul_spec, opp_spec. apply SFmul_opp_l.
Qed.

(** Multiplying a valid mantissa by [2^52] and dividing the unit by as
    much rounds back to the same number. *)
Lemma binary_round_aux_shift52 (s : bool) (m : positive) (e : Z) :
  bounded prec emax m e = true ->
  binary_round_aux prec emax s (Zpos (4503599627370496 * m)) (-52 + e) loc_Exact
  = S754_finite s m e.
Proof.
  unfold bounded, canonical_mantissa. intros Hb.
  apply andb_prop in Hb. destruct Hb as [Hcanon Hle].
  apply Z.eqb_eq in Hcanon.
  unfold binary_round_aux, shr_fexp.
  cbn [Pos.mul Zdigits2 digits2_pos shr_record_of_loc].
  rewrite !Pos2Z.inj_succ.
  replace (Z.succ _ + (-52 + e))%Z with (Zpos (digits2_pos m) + e)%Z by lia.
  rewrite Hcanon.
  replace (e - (-52 + e))%Z with 52%Z by lia.
  cbn [shr iter_pos shr_1 orb shr_m loc_of_shr_record round_nearest_even].
  replace (-52 + e + 52)%Z with e by lia.
  cbn [Zdigits2]. rewrite Hcanon, Z.sub_diag.
  cbn [shr shr_m]. rewrite Hle. reflexivity.
Qed.

Lemma SFmul_one_l (y : spec_float) :
  valid_binary y = true ->
  SFmul prec emax (S754_finite false 4503599627370496 (-52)) y = y.
Proof.
  destruct y as [sy | sy | | sy my ey]; cbn [SFmul xorb]; try reflexivity.
  cbn [SpecFloat.valid_binary]. apply binary_round_aux_shift52.
Qed.

Lemma one_mul (x : number) : 1 * x = x.
Proof.
  apply Prim2SF_inj. rewrite mul_spec, Prim2SF_one.
  apply SFmul_one_l, Prim2SF_valid.
Qed.

(** [0 + x] is [x], except that [0 + -0] is [+0]. *)
Lemma zero_plus (x : number) :
  Prim2SF (0 + x)
  = match Prim2SF x with
    | S754_zero _ => S754_zero false
    | y => y
    end.
Proof.
  rewrite add_spec, Prim2SF_zero.
  destruct (Prim2SF x) as [s | s | | s m e]; try reflexivity.
  now destruct s.
Qed.

Lemma toString_zero_plus (x : number) : toString (0 + x) = toString x.
Proof.
  unfold toString. rewrite zero_plus.
  destruct (Prim2SF x) as [s | s | | s m e]; reflexivity.
Qed.

Lemma SFadd_opp_self (s : bool) (m : positive) (e : Z) :
  SFadd prec emax (S754_finite s m e) (S754_finite (negb s) m e) = S754_zero false.
Proof.
  cbn [SFadd]. rewrite Z.min_id. unfold shl_align. rewrite Z.sub_diag.
  cbn [fst]. destruct s; cbn [cond_Zopp negb].
  - rewrite Z.add_opp_diag_l. reflexivity.
  - rewrite Z.add_opp_diag_r. reflexivity.
Qed.

(** For a finite [x], [(0 + x) + (-1) * x] is [+0]. *)
Lemma zero_plus_minus_self (x : number) :
  isFinite x = true -> (0 + x) + (- (1)) * x = 0.
Proof.
  unfold isFinite. intros Hfin.
  rewrite mul_opp_l, one_mul.
  apply Prim2SF_inj. rewrite add_spec, zero_plus, opp_spec, Prim2SF_zero.
  destruct (Prim2SF x) as [s | s | | s m e]; try discriminate.
  - now destruct s.
  - cbn [SFopp]. apply SFadd_opp_self.
Qed.

(** *** Halving a positive number *)

Lemma iter_pos_invariant {A : Type} (P : A -> Prop) (f : A -> A) :
  (forall x, P x -> P (f x)) ->
  forall (n : positive) (x : A), P x -> P (iter_pos f n x).
Proof.
  intros Hf. induction n as [n IH | n IH |]; intros x Hx; cbn [iter_pos]; auto.
Qed.

Lemma shr_1_nonneg (mrs : shr_record) :
  (0 <= shr_m mrs)%Z -> (0 <= shr_m (shr_1 mrs))%Z.
Proof.
  destruct mrs as [m r s]. cbn [shr_m shr_1].
  destruct m as [| [p | p |] | [p | p |]]; cbn [shr_m]; lia.
Qed.

Lemma shr_fexp_nonneg (m e : Z) (l : location) :
  (0 <= m)%Z -> (0 <= shr_m (fst (shr_fexp prec emax m e l)))%Z.
Proof.
  intros Hm. unfold shr_fexp, shr.
  assert (Hrec : (0 <= shr_m (shr_record_of_loc m l))%Z).
  { destruct l as [| []]; exact Hm. }
  destruct (fexp prec emax (Zdigits2 m + e) - e)%Z as [| p | p]; cbn [fst];
    try exact Hrec.
  apply (iter_pos_invariant (fun mrs => (0 <= shr_m mrs)%Z)); [| exact Hrec].
  apply shr_1_nonneg.
Qed.

Lemma round_nearest_even_nonneg (m : Z) (l : location) :
  (0 <= m)%Z -> (0 <= round_nearest_even m l)%Z.
Proof.
  intros Hm. destruct l as [| []]; cbn [round_nearest_even]; try lia.
  destruct (Z.even m); lia.
Qed.

Lemma binary_round_aux_nonneg (m e : Z) (l : location) :
  (0 <= m)%Z -> sf_nonneg (binary_round_aux prec emax false m e l) = true.
Proof.
  intros Hm. unfold binary_round_aux.
  pose proof (shr_fexp_nonneg m e l Hm) as H1.
  destruct (shr_fexp prec emax m e l) as [mrs' e']. cbn [fst] in H1.
  pose proof (shr_fexp_nonneg _ e' loc_Exact
                (round_nearest_even_nonneg _ (loc_of_shr_record mrs') H1)) as H2.
  destruct (shr_fexp prec emax _ e' loc_Exact) as [mrs'' e'']. cbn [fst] in H2.
  destruct (shr_m mrs'') as [| p | p]; [reflexivity | | lia].
  destruct (Z.leb e'' _); reflexivity.
Qed.

Lemma SFdiv_core_binary_nonneg (m1 m2 : positive) (e1 e2 : Z) :
  (0 <= fst (fst (SFdiv_core_binary prec emax (Zpos m1) e1 (Zpos m2) e2)))%Z.
Proof.
  unfold SFdiv_core_binary.
  set (s := (e1 - e2 - _)%Z).
  set (m' := match s with Zpos _ => Z.shiftl (Zpos m1) s | Z0 => Zpos m1 | Zneg _ => 0%Z end).
  assert (Hm' : (0 <= m')%Z).
  { subst m'. destruct s; try lia. apply Z.shiftl_nonneg. lia. }
  pose proof (Z.div_pos m' (Zpos m2) Hm' (Pos2Z.is_pos m2)) as Hq.
  unfold Z.div in Hq.
  destruct (Z.div_eucl m' (Zpos m2)) as [q r]. exact Hq.
Qed.

Lemma gt_zero_positive (x : number) :
  gt x 0 = true ->
  Prim2SF x = S754_infinity false
  \/ exists m e, Prim2SF x = S754_finite false m e.
Proof.
  unfold gt. rewrite ltb_spec, Prim2SF_zero.
  destruct (Prim2SF x) as [s | s | | s m e]; cbn; try discriminate;
    destruct s; try discriminate; eauto.
Qed.

(** Half of a number above zero is [+0], positive or [+Infinity]: never
    [NaN], never negative. *)
Lemma half_nonneg (x : number) : gt x 0 = true -> is_nonneg (x / 2) = true.
Proof.
  intros Hx. unfold is_nonneg. rewrite div_spec, Prim2SF_two.
  destruct (gt_zero_positive x Hx) as [-> | (m & e & ->)]; [reflexivity |].
  cbn [SF64div SFdiv xorb]. unfold SF64div, SFdiv.
  pose proof (SFdiv_core_binary_nonneg m 4503599627370496 e (-51)) as Hq.
  destruct (SFdiv_core_binary _ _ _ _ _ _) as [[mz ez] lz]. cbn [fst] in Hq.
  apply binary_round_aux_nonneg. exact Hq.
Qed.

(** *** The clamp *)

Lemma nonneg_not_nan (x : number) : is_nonneg x = true -> PrimFloat.is_nan x = false.
Proof.
  unfold is_nonneg, PrimFloat.is_nan. rewrite eqb_spec.
  destruct (Prim2SF x) as [s | s | | s m e]; cbn; try discriminate;
    destruct s; try discriminate; try reflexivity.
  intros _. unfold SFeqb, SFcompare.
  now rewrite Z.compare_refl, Pos.compare_cont_refl.
Qed.

Lemma finite_not_nan (x : number) : isFinite x = true -> PrimFloat.is_nan x = false.
Proof.
  unfold isFinite, PrimFloat.is_nan. rewrite eqb_spec.
  destruct (Prim2SF x) as [s | s | | s m e]; cbn; try discriminate;
    destruct s; try reflexivity; intros _; unfold SFeqb, SFcompare;
    now rewrite Z.compare_refl, Pos.compare_cont_refl.
Qed.

Lemma nonneg_not_neg_zero (x : number) : is_nonneg x = true -> is_neg_zero x = false.
Proof.
  unfold is_nonneg, is_neg_zero.
  destruct (Prim2SF x) as [[|] | s | | s m e]; cbn; congruence.
Qed.

Lemma nonneg_below_finite (x y : number) :
  is_nonneg x = true -> PrimFloat.ltb x y = true -> isFinite x = true.
Proof.
  unfold is_nonneg, isFinite. rewrite ltb_spec.
  destruct (Prim2SF x) as [s | s | | s m e]; cbn; try reflexivity; try discriminate.
  destruct s; [discriminate |]. intros _.
  destruct (Prim2SF y) as [s' | s' | | s' m' e']; cbn; try discriminate.
  now destruct s'.
Qed.

Lemma finite_below_infinity (x : number) :
  isFinite x = true -> PrimFloat.ltb x infinity = true.
Proof.
  unfold isFinite. rewrite ltb_spec, Prim2SF_infinity.
  destruct (Prim2SF x) as [s | s | | s m e]; cbn; try discriminate; reflexivity.
Qed.

Lemma Math_min_from_cons (lowest x : number) (rest : list number) :
  Math_min_from lowest (x :: rest)
  = if PrimFloat.is_nan x then nan
    else
      Math_min_from
        (if PrimFloat.ltb x (if is_neg_zero x && is_pos_zero lowest then x else lowest)
         then x
         else if is_neg_zero x && is_pos_zero lowest then x else lowest)
        rest.
Proof. reflexivity. Qed.

Lemma Math_min_from_finite (args : list number) :
  forall lowest,
    isFinite lowest = true ->
    forallb is_nonneg args = true ->
    isFinite (Math_min_from lowest args) = true.
Proof.
  induction args as [| x rest IH]; intros lowest Hlow Hargs.
  - exact Hlow.
  - rewrite Math_min_from_cons. cbn [forallb] in Hargs. apply andb_prop in Hargs. destruct Hargs as [Hx Hrest].
    rewrite (nonneg_not_nan x Hx), (nonneg_not_neg_zero x Hx). cbn [andb].
    destruct (PrimFloat.ltb x lowest) eqn:Hlt; apply IH; auto.
    eapply nonneg_below_finite; eassumption.
Qed.

(** The effective radius is finite when the requested radius is and the
    width and height are above zero. *)
Lemma clamp_finite (radius w h : number) :
  isFinite radius = true -> gt w 0 = true -> gt h 0 = true ->
  isFinite (Math_min [radius; w / 2; h / 2]) = true.
Proof.
  intros Hr Hw Hh. unfold Math_min. rewrite Math_min_from_cons.
  rewrite (finite_not_nan radius Hr).
  replace (is_pos_zero infinity) with false by reflexivity.
  rewrite andb_false_r, (finite_below_infinity radius Hr).
  apply Math_min_from_finite; [exact Hr |].
  cbn [forallb]. now rewrite !half_nonneg.
Qed.

End FloatFacts.

(** ** The generator on the inputs of the test suite *)

Module Checks.
Import JS SquirclePath.
Local Open Scope float_scope.

(** [String(x)] on a few numbers. *)
#[warnings="-inexact-float"]
Example toString_samples :
  map toString [20; 0.5; 0.1 + 0.2; 0.473 * 20; 1e21; 0.000001; 0.0000001; -2.5; 0 / 0]
  = ["20"; "0.5"; "0.30000000000000004"; "9.459999999999999"; "1e+21";
     "0.000001"; "1e-7"; "-2.5"; "NaN"]%string.
Proof. vm_compute. reflexivity. Qed.

(** [getSquirclePath(100, 100, 20)], digit for digit. *)
Example path_100_100_20 :
  getSquirclePath (Positional 100 100 20)
  = ("M 20 0"
     ++ " L 80 0"
     ++ " C 86 0, 89.46 0, 92.38 0.78"
     ++ " C 96.08 1.7599999999999998, 98.24000000000001 3.92, 99.22 7.62"
     ++ " C 100 10.540000000000001, 100 14, 100 20"
     ++ " L 100 80"
     ++ " C 100 86, 100 89.46, 99.22 92.38"
     ++ " C 98.24 96.08, 96.08 98.24000000000001, 92.38 99.22"
     ++ " C 89.46 100, 86 100, 80 100"
     ++ " L 20 100"
     ++ " C 14 100, 10.540000000000001 100, 7.620000000000001 99.22"
     ++ " C 3.919999999999998 98.24, 1.759999999999998 96.08, 0.7800000000000011 92.38"
     ++ " C 0 89.46, 0 86, 0 80"
     ++ " L 0 20"
     ++ " C 0 14, 0 10.540000000000001, 0.78 7.620000000000001"
     ++ " C 1.7599999999999998 3.919999999999998, 3.92 1.759999999999998, 7.62 0.7800000000000011"
     ++ " C 10.540000000000001 0, 14 0, 20 0"
     ++ " Z")%string.
Proof. vm_compute. reflexivity. Qed.

(** The test suite's distinctness check. *)
Example different_dimensions_different_paths :
  getSquirclePath (Positional 100 100 20) <> getSquirclePath (Positional 200 100 20).
Proof. vm_compute. discriminate. Qed.

(** The test suite's check that the reference is URL-encoded. *)
Example data_uri_is_percent_encoded :
  prefix "data:image/svg+xml,%3Csvg" (getSquircleDataUri 100 100 20) = true.
Proof. vm_compute. reflexivity. Qed.

End Checks.

(** ** The data reference decodes to the vector document *)

Module Reference.
Import JS SquirclePath URI.

Lemma decode_encode_char (a : ascii) (rest : string) :
  decodeURIComponent (encode_char a ++ rest)
  = option_map (String a) (decodeURIComponent rest).
Proof.
  destruct a as [[|] [|] [|] [|] [|] [|] [|] [|]]; reflexivity.
Qed.

Lemma percent_encoded_encode_char (a : ascii) (rest : string) :
  percent_encoded (encode_char a ++ rest) = percent_encoded rest.
Proof.
  destruct a as [[|] [|] [|] [|] [|] [|] [|] [|]]; reflexivity.
Qed.

(** Decoding undoes encoding, on every string. *)
Lemma decode_encode (s : string) :
  decodeURIComponent (encodeURIComponent s) = Some s.
Proof.
  induction s as [| a s IH]; cbn [encodeURIComponent].
  - reflexivity.
  - rewrite decode_encode_char, IH. reflexivity.
Qed.

Lemma encode_percent_encoded (s : string) :
  percent_encoded (encodeURIComponent s) = true.
Proof.
  induction s as [| a s IH]; cbn [encodeURIComponent].
  - reflexivity.
  - rewrite percent_encoded_encode_char. exact IH.
Qed.

(** C7. The embeddable reference is [data:image/svg+xml,] followed by a
    payload: the header carries no base64 marker, the payload consists of
    unreserved characters and [%XX] escapes, and decoding the payload
    gives back the vector document of the same inputs. *)
Theorem data_reference_decodes_to_document (w h r : number) :
  let svg := getSquircleSVG w h r in
  let payload := encodeURIComponent svg in
  getSquircleDataUri w h r = ("data:image/svg+xml," ++ payload)%string
  /\ header_and_payload (getSquircleDataUri w h r)
     = Some ("data:image/svg+xml"%string, payload)
  /\ percent_encoded payload = true
  /\ decodeURIComponent payload = Some svg.
Proof.
  cbv zeta. repeat split.
  - apply encode_percent_encoded.
  - apply decode_encode.
Qed.

End Reference.

(** ** The degenerate case and the two call shapes *)

Module Generator.
Import JS SquirclePath FloatFacts.
Local Open Scope list_scope.
Local Open Scope float_scope.

Lemma getSquirclePath_zero (w h r : number) :
  strict_eq w 0 || strict_eq h 0 = true ->
  getSquirclePath (Positional w h r) = EmptyString.
Proof.
  intros Hzero. unfold getSquirclePath; cbn [normalize]. now rewrite Hzero.
Qed.

(** C3. When the width or the height is [=== 0], the generator returns
    exactly the empty string, for every radius and in both call shapes:
    nothing of a contour is emitted. *)
Theorem zero_dimension_gives_empty (w h r : number) :
  strict_eq w 0 || strict_eq h 0 = true ->
  getSquirclePath (Positional w h r) = EmptyString
  /\ getSquirclePath (Named {| width := w; height := h; radius := r |}) = EmptyString.
Proof.
  intros Hzero. split.
  - apply getSquirclePath_zero, Hzero.
  - unfold getSquirclePath; cbn [normalize width height radius].
    now rewrite Hzero.
Qed.

Lemma zero_dimension_gives_empty_witness :
  (strict_eq 0 0 || strict_eq 100 0 = true)
  /\ getSquirclePath (Positional 0 100 20) = EmptyString
  /\ getSquirclePath (Named {| width := 0; height := 100; radius := 20 |}) = EmptyString.
Proof.
  split; [reflexivity | apply (zero_dimension_gives_empty 0 100 20); reflexivity].
Defined.

(** C6. The positional call and the call with a record of the same three
    fields normalize to the same triple and return the same string. *)
Theorem positional_and_named_agree (w h r : number) :
  normalize (Positional w h r)
    = normalize (Named {| width := w; height := h; radius := r |})
  /\ getSquirclePath (Positional w h r)
    = getSquirclePath (Named {| width := w; height := h; radius := r |}).
Proof.
  split; reflexivity.
Qed.

(** C10. With a zero width or height only the generator's string is
    empty: the vector document is the full markup with the given
    dimensions and an empty path attribute, and the data reference is the
    percent-encoding of that document, which decodes back to it, so neither
    is empty. *)
Theorem zero_dimension_renderers (w h r : number) :
  strict_eq w 0 || strict_eq h 0 = true ->
  getSquirclePath (Positional w h r) = EmptyString
  /\ getSquircleSVG w h r = empty_document w h
  /\ getSquircleSVG w h r <> EmptyString
  /\ getSquircleDataUri w h r
     = ("data:image/svg+xml," ++ URI.encodeURIComponent (empty_document w h))%string
  /\ URI.decodeURIComponent (URI.encodeURIComponent (empty_document w h))
     = Some (empty_document w h)
  /\ getSquircleDataUri w h r <> EmptyString.
Proof.
  intros Hzero.
  pose proof (getSquirclePath_zero w h r Hzero) as Hpath.
  assert (Hsvg : getSquircleSVG w h r = empty_document w h).
  { unfold getSquircleSVG, empty_document. rewrite Hpath. reflexivity. }
  repeat split.
  - exact Hpath.
  - exact Hsvg.
  - rewrite Hsvg. discriminate.
  - unfold getSquircleDataUri. rewrite Hsvg. reflexivity.
  - apply Reference.decode_encode.
  - discriminate.
Qed.

Lemma zero_dimension_renderers_witness :
  getSquirclePath (Positional 0 100 20) = EmptyString
  /\ getSquircleSVG 0 100 20 = empty_document 0 100
  /\ getSquircleSVG 0 100 20 <> EmptyString
  /\ getSquircleDataUri 0 100 20
     = ("data:image/svg+xml," ++ URI.encodeURIComponent (empty_document 0 100))%string
  /\ URI.decodeURIComponent (URI.encodeURIComponent (empty_document 0 100))
     = Some (empty_document 0 100)
  /\ getSquircleDataUri 0 100 20 <> EmptyString.
Proof.
  apply (zero_dimension_renderers 0 100 20). reflexivity.
Defined.

(** ** The contour behind the string *)

Lemma append_assoc (a b c : string) : ((a ++ b) ++ c = a ++ (b ++ c))%string.
Proof. induction a as [| x a IH]; cbn; [reflexivity | now rewrite IH]. Qed.

Lemma render_app (a b : list command) :
  render (a ++ b) = (render a ++ render b)%string.
Proof.
  induction a as [| c a IH]; cbn [app render]; [reflexivity |].
  now rewrite IH, append_assoc.
Qed.

Lemma getSquirclePath_renders_contour (w h radius : number) :
  strict_eq w 0 || strict_eq h 0 = false ->
  getSquirclePath (Positional w h radius) = render (contour w h radius).
Proof.
  intros Hnz. unfold getSquirclePath, contour. cbn [normalize]. rewrite Hnz.
  set (r := Math_min [radius; w / 2; h / 2]).
  unfold corner_group, squircleBezierApproximation.
  cbv zeta.
  cbn [fold_left map app corner_step render render_command].
  unfold render_point, place.
  cbn [fst snd].
  rewrite !append_assoc.
  cbn [String.append].
  reflexivity.
Qed.

(** C2, as stated: for every width, height and radius the string starts
    at [(r, 0)].  It fails when the width is zero: the string is empty. *)
Lemma start_fails_on_zero_width :
  ~ starts_at (getSquirclePath (Positional 0 100 20))
      (Math_min [20; 0 / 2; 100 / 2]) 0.
Proof.
  intros [rest H]. vm_compute in H. discriminate H.
Qed.

(** C2, amended.  For every width and height that are not [=== 0] and
    every radius, the effective radius is [r = Math.min(radius, width/2,
    height/2)] and the contour starts with a move-to at [(r, 0)]: the
    string is the rendering of the contour, whose first command is the
    move-to to [(0 + r, 0)], printed as [r] and [0].  In particular
    [generate(40, 100, 50)] and [generate(40, 100, 20)] are both clamped
    to [20] and both begin with [M 20 0]. *)
Theorem contour_starts_at_clamped_radius (w h radius : number) :
  strict_eq w 0 || strict_eq h 0 = false ->
  let r := Math_min [radius; w / 2; h / 2] in
  getSquirclePath (Positional w h radius) = render (contour w h radius)
  /\ hd_error (contour w h radius) = Some (MoveTo (0 + r, 0))
  /\ starts_at (getSquirclePath (Positional w h radius)) r 0
  /\ Math_min [50; 40 / 2; 100 / 2] = 20
  /\ Math_min [20; 40 / 2; 100 / 2] = 20
  /\ prefix "M 20 0 " (getSquirclePath (Positional 40 100 50)) = true
  /\ prefix "M 20 0 " (getSquirclePath (Positional 40 100 20)) = true.
Proof.
  intros Hnz r.
  pose proof (getSquirclePath_renders_contour w h radius Hnz) as Hrender.
  split; [exact Hrender |].
  split; [reflexivity |].
  split.
  - unfold starts_at. rewrite Hrender. unfold contour. fold r.
    cbn [render render_command].
    unfold render_point at 1. cbn [fst snd].
    rewrite toString_zero_plus, !append_assoc.
    eexists. reflexivity.
  - repeat split; vm_compute; reflexivity.
Qed.

Lemma contour_starts_at_clamped_radius_witness :
  getSquirclePath (Positional 40 100 50) = render (contour 40 100 50)
  /\ hd_error (contour 40 100 50)
     = Some (MoveTo (0 + Math_min [50; 40 / 2; 100 / 2], 0))
  /\ starts_at (getSquirclePath (Positional 40 100 50))
       (Math_min [50; 40 / 2; 100 / 2]) 0
  /\ Math_min [50; 40 / 2; 100 / 2] = 20
  /\ Math_min [20; 40 / 2; 100 / 2] = 20
  /\ prefix "M 20 0 " (getSquirclePath (Positional 40 100 50)) = true
  /\ prefix "M 20 0 " (getSquirclePath (Positional 40 100 20)) = true.
Proof.
  apply (contour_starts_at_clamped_radius 40 100 50). reflexivity.
Defined.

(** Quarter-turns commute with scaling, and compose by adding indices. *)
Lemma rotBy90_vecMul (v : vec) (k : Z) (r : number) :
  rotBy90 (vecMul v r) k = vecMul (rotBy90 v k) r.
Proof.
  destruct v as [x y]. unfold rotBy90, vecMul.
  destruct (Z.rem k 4) as [| [[| |] | [| |] |] | p]; cbn [fst snd];
    rewrite ?mul_opp_l; reflexivity.
Qed.

Lemma rotBy90_compose (v : vec) (j k : Z) :
  In j [0; 1; 2; 3]%Z -> In k [0; 1; 2; 3]%Z ->
  rotBy90 (rotBy90 v j) ((k - j) mod 4) = rotBy90 v k.
Proof.
  destruct v as [x y]. cbn [In].
  intros [<- | [<- | [<- | [<- | []]]]] [<- | [<- | [<- | [<- | []]]]];
    cbn; rewrite ?opp_involutive; reflexivity.
Qed.

Import ExactGeometry.

(** C4, as stated, fails on the emitted coordinates.  For a box of 100 by
    100 and radius 20 the top right corner emits [92.38 0.78] for the third
    table vector and the bottom left corner emits [7.620000000000001 99.22],
    where the half-turn that takes anchor [(80, 0)] to anchor [(20, 100)]
    gives [(7.62, 99.22)]; and in exact arithmetic no translation at all
    takes the half-turned top right coordinates onto the bottom left
    ones. *)
Lemma emitted_corners_are_not_exact_images :
  getSquirclePath (Positional 100 100 20)
  = render (MoveTo (20, 0)
              :: corner_group (80, 0) 0 20
              ++ corner_group (100, 80) 3 20
              ++ corner_group (20, 100) 2 20
              ++ corner_group (0, 20) 1 20
              ++ [ClosePath])
  /\ render_point (emitted 100 100 20 0 (nth 2 table_vectors (0, 0)))
     = "92.38 0.78"%string
  /\ render_point (emitted 100 100 20 2 (nth 2 table_vectors (0, 0)))
     = "7.620000000000001 99.22"%string
  /\ ~ exact_images 100 100 20 0 2.
Proof.
  split; [vm_compute; reflexivity |].
  split; [vm_compute; reflexivity |].
  split; [vm_compute; reflexivity |].
  intros [[tx ty] Himage].
  pose proof (Himage (nth 0 table_vectors (0, 0)) (or_introl eq_refl)) as H0.
  pose proof (Himage (nth 1 table_vectors (0, 0)) (or_intror (or_introl eq_refl)))
    as H1.
  change ((2 - 0))%Z with 2%Z in H0, H1.
  set (p0 := exact_point (emitted 100 100 20 0 _)) in H0.
  set (q0 := exact_point (emitted 100 100 20 2 _)) in H0.
  set (p1 := exact_point (emitted 100 100 20 0 _)) in H1.
  set (q1 := exact_point (emitted 100 100 20 2 _)) in H1.
  vm_compute in p0, q0, p1, q1. subst p0 q0 p1 q1.
  cbn [option_map quarter_turns translate fst snd] in H0, H1.
  change (2 mod 4)%Z with 2%Z in H0, H1. cbv iota in H0, H1.
  apply (f_equal (fun o => match o with Some (x, _) => x | None => 0%Z end))
    in H0, H1.
  unfold translate in H0, H1. cbn [fst snd] in H0, H1. lia.
Qed.

(** C4 (amended).  For a width and a height above zero the string is the
    rendering of the move-to, the four corner groups and the close.  The
    group of the corner with quarter-turn index [k] (0 top right, 3 bottom
    right, 2 bottom left, 1 top left) emits, for every vector [(x, y)] of
    the one table, the anchor plus the vector turned and then scaled by the
    effective radius [r], where [k] quarter-turns take [(x, y)] to
    [(x, y)], [(y, -x)], [(-x, -y)] and [(-y, x)].  Hence the offset any
    corner adds to its anchor is exactly the offset of any other corner
    turned by the difference of their indices; the emitted coordinates are
    the anchor plus that offset, each sum rounded to binary64. *)
Theorem corners_are_quarter_turns_of_one_table (w h radius : number) :
  gt w 0 = true -> gt h 0 = true ->
  let r := Math_min [radius; w / 2; h / 2] in
  getSquirclePath (Positional w h radius)
  = render (MoveTo (0 + r, 0)
              :: corner_group (w - r, 0) 0 r
              ++ corner_group (w, h - r) 3 r
              ++ corner_group (0 + r, h) 2 r
              ++ corner_group (0, 0 + r) 1 r
              ++ [ClosePath])
  /\ (forall anchor k,
        corner_group anchor k r
        = LineTo anchor
            :: map (fun '(cA, cB, target) =>
                      CurveTo (place anchor k r cA) (place anchor k r cB)
                        (place anchor k r target))
                 squircleBezierApproximation)
  /\ (forall ax ay x y,
        place (ax, ay) 0 r (x, y) = (ax + x * r, ay + y * r)
        /\ place (ax, ay) 1 r (x, y) = (ax + y * r, ay + (- x) * r)
        /\ place (ax, ay) 2 r (x, y) = (ax + (- x) * r, ay + (- y) * r)
        /\ place (ax, ay) 3 r (x, y) = (ax + (- y) * r, ay + x * r))
  /\ (forall x y,
        rotBy90 (x, y) 0 = (x, y)
        /\ rotBy90 (x, y) 1 = (y, - x)
        /\ rotBy90 (x, y) 2 = (- x, - y)
        /\ rotBy90 (x, y) 3 = (- y, x))
  /\ (forall v k,
        In k [0; 1; 2; 3]%Z ->
        vecMul (rotBy90 v k) r = rotBy90 (vecMul v r) k)
  /\ (forall v j k,
        In j [0; 1; 2; 3]%Z -> In k [0; 1; 2; 3]%Z ->
        vecMul (rotBy90 v k) r
        = rotBy90 (vecMul (rotBy90 v j) r) ((k - j) mod 4)).
Proof.
  intros Hw Hh r.
  split; [| split; [| split; [| split; [| split]]]].
  - apply getSquirclePath_renders_contour.
    now rewrite (gt_zero_not_eq w Hw), (gt_zero_not_eq h Hh).
  - reflexivity.
  - intros ax ay x y. repeat split.
  - intros x y. repeat split.
  - intros v k _. symmetry. apply rotBy90_vecMul.
  - intros v j k Hj Hk.
    rewrite rotBy90_vecMul, rotBy90_compose by assumption. reflexivity.
Qed.

Lemma corners_are_quarter_turns_of_one_table_witness :
  getSquirclePath (Positional 100 100 20)
  = render (MoveTo (0 + Math_min [20; 100 / 2; 100 / 2], 0)
              :: corner_group (100 - Math_min [20; 100 / 2; 100 / 2], 0) 0
                   (Math_min [20; 100 / 2; 100 / 2])
              ++ corner_group (100, 100 - Math_min [20; 100 / 2; 100 / 2]) 3
                   (Math_min [20; 100 / 2; 100 / 2])
              ++ corner_group (0 + Math_min [20; 100 / 2; 100 / 2], 100) 2
                   (Math_min [20; 100 / 2; 100 / 2])
              ++ corner_group (0, 0 + Math_min [20; 100 / 2; 100 / 2]) 1
                   (Math_min [20; 100 / 2; 100 / 2])
              ++ [ClosePath])
  /\ place (100, 80) 3 (Math_min [20; 100 / 2; 100 / 2]) (1, 1) = (80, 100).
Proof.
  destruct (corners_are_quarter_turns_of_one_table 100 100 20 eq_refl eq_refl)
    as (Hpath & _ & Hplace & _).
  split; [exact Hpath |].
  destruct (Hplace 100 80 1 1) as (_ & _ & _ & ->). reflexivity.
Defined.

(** C5. For a width and a height above zero and a radius that is not
    negative (and finite, as the inputs of the generator are), the contour
    is a closed loop: it is a move-to to the
    start point [(0 + r, 0)], printed [r 0], then edges and curves, then a
    last cubic curve whose end point is that same start point, then the
    close command; the string is its rendering, so it begins with [M] and
    ends with [Z]. *)
Theorem contour_is_closed (w h radius : number) :
  gt w 0 = true -> gt h 0 = true ->
  PrimFloat.leb 0 radius = true -> isFinite radius = true ->
  let r := Math_min [radius; w / 2; h / 2] in
  let start := (0 + r, 0) in
  exists (edges : list command) (cA cB : vec),
    contour w h radius = MoveTo start :: edges ++ [CurveTo cA cB start; ClosePath]
    /\ getSquirclePath (Positional w h radius) = render (contour w h radius)
    /\ getSquirclePath (Positional w h radius)
       = ("M " ++ toString r ++ " 0" ++ render edges
           ++ " C " ++ render_point cA ++ ", " ++ render_point cB
           ++ ", " ++ toString r ++ " 0" ++ " Z")%string.
Proof.
  intros Hw Hh Hr Hfin r start.
  assert (Hrfin : isFinite r = true) by (apply clamp_finite; assumption).
  assert (Hnz : strict_eq w 0 || strict_eq h 0 = false)
    by now rewrite (gt_zero_not_eq w Hw), (gt_zero_not_eq h Hh).
  pose proof (getSquirclePath_renders_contour w h radius Hnz) as Hrender.
  assert (Hlast : place (0, 0 + r) 1 r (1, 1) = start).
  { unfold place, rotBy90, vecMul, vecAdd. cbn [Z.rem Z.quotrem fst snd].
    change (Z.rem 1 4) with 1%Z. cbv iota. cbn [fst snd].
    rewrite one_mul, (zero_plus_minus_self r Hrfin). reflexivity. }
  assert (HTL : exists body cA cB,
             corner_group (0, 0 + r) 1 r
             = body ++ [CurveTo cA cB (place (0, 0 + r) 1 r (1, 1))]).
  { unfold corner_group. cbn [map squircleBezierApproximation].
    eexists [_; _; _], _, _. reflexivity. }
  destruct HTL as (body & cA & cB & HTL). rewrite Hlast in HTL.
  exists (corner_group (w - r, 0) 0 r
            ++ corner_group (w, h - r) 3 r
            ++ corner_group (0 + r, h) 2 r ++ body), cA, cB.
  assert (Hshape :
    contour w h radius
    = MoveTo start
        :: (corner_group (w - r, 0) 0 r
              ++ corner_group (w, h - r) 3 r
              ++ corner_group (0 + r, h) 2 r ++ body)
        ++ [CurveTo cA cB start; ClosePath]).
  { unfold contour. fold r. fold start. rewrite HTL.
    rewrite <- !app_assoc. reflexivity. }
  split; [exact Hshape |]. split; [exact Hrender |].
  rewrite Hrender, Hshape.
  cbn [render render_command]. rewrite render_app.
  cbn [render render_command].
  assert (Hstart : render_point start = (toString r ++ " 0")%string).
  { unfold start, render_point. cbn [fst snd]. now rewrite toString_zero_plus. }
  rewrite !Hstart, !append_assoc. reflexivity.
Qed.

Lemma contour_is_closed_witness :
  let r := Math_min [20; 100 / 2; 100 / 2] in
  let start := (0 + r, 0) in
  exists (edges : list command) (cA cB : vec),
    contour 100 100 20 = MoveTo start :: edges ++ [CurveTo cA cB start; ClosePath]
    /\ getSquirclePath (Positional 100 100 20) = render (contour 100 100 20)
    /\ getSquirclePath (Positional 100 100 20)
       = ("M " ++ toString r ++ " 0" ++ render edges
           ++ " C " ++ render_point cA ++ ", " ++ render_point cB
           ++ ", " ++ toString r ++ " 0" ++ " Z")%string.
Proof.
  apply (contour_is_closed 100 100 20); reflexivity.
Defined.

End Generator.

(** ** The capability query *)

Module Capability.
Import Host.

Lemma supportsClipPath_returns (env : Env) :
  exists b, supportsClipPath env = Return b.
Proof.
  unfold supportsClipPath.
  destruct (has_window env); cbn; [| now exists false].
  destruct (CSS env) as [css |]; [| now exists false].
  destruct (supports css) as [f |]; [| now exists false].
  destruct (f _ _) as [b | e]; cbn; [now exists b | now exists false].
Qed.

(** C8. The clip-contour capability query never throws.  It answers
    [false] without a window, without a [CSS] object, without a [supports]
    function, and when [supports] throws; it answers [true] only when the
    window and [supports] exist and [supports] itself answered [true]. *)
Theorem supportsClipPath_safe (env : Env) :
  (exists b, supportsClipPath env = Return b)
  /\ (has_window env = false -> supportsClipPath env = Return false)
  /\ (CSS env = None -> supportsClipPath env = Return false)
  /\ (forall css, CSS env = Some css -> supports css = None ->
        supportsClipPath env = Return false)
  /\ (forall css f e, CSS env = Some css -> supports css = Some f ->
        f "clip-path"%string path_feature = Throw e ->
        supportsClipPath env = Return false)
  /\ (supportsClipPath env = Return true ->
        has_window env = true
        /\ exists css f, CSS env = Some css /\ supports css = Some f
             /\ f "clip-path"%string path_feature = Return true).
Proof.
  split; [apply supportsClipPath_returns |].
  unfold supportsClipPath.
  repeat split.
  - intros ->. reflexivity.
  - intros ->. destruct (has_window env); reflexivity.
  - intros css -> ->. destruct (has_window env); reflexivity.
  - intros css f e -> -> ->. destruct (has_window env); reflexivity.
  - destruct (has_window env); cbn in *; [reflexivity | discriminate].
  - destruct (has_window env); cbn in *; [| discriminate].
    destruct (CSS env) as [css |]; [| discriminate].
    destruct (supports css) as [f |] eqn:Hf; [| discriminate].
    exists css, f. repeat split; try assumption.
    destruct (f _ _) as [[|] | e]; cbn in *; congruence.
Qed.

(** The query in a headless environment, and with a throwing primitive. *)
Example supportsClipPath_headless :
  supportsClipPath {| has_window := false; CSS := None; has_ResizeObserver := false |}
  = Return false.
Proof. reflexivity. Qed.

Example supportsClipPath_hostile :
  supportsClipPath
    {| has_window := true;
       CSS := Some {| supports := Some (fun _ _ => Throw (HostError "SyntaxError")) |};
       has_ResizeObserver := true |}
  = Return false.
Proof. reflexivity. Qed.

Lemma hasResizeObserver_headless (env : Env) :
  has_window env = false -> hasResizeObserver env = false.
Proof. unfold hasResizeObserver. intros ->. reflexivity. Qed.

End Capability.

(** ** The binder: one synchronization pass, bind and teardown *)

Module Binder.
Import JS Host Dom.
Local Open Scope float_scope.

(** *** Rules for [returns] *)

Lemma returns_ret {A : Type} (a : A) (w : World) (Q : A -> World -> Prop) :
  Q a w -> returns (ret a) w Q.
Proof. intros H. exists a, w. split; [reflexivity | exact H]. Qed.

Lemma returns_bind {A B : Type} (m : M A) (k : A -> M B) (w : World)
    (Q : B -> World -> Prop) :
  returns m w (fun a w1 => returns (k a) w1 Q) -> returns (bind m k) w Q.
Proof.
  intros (a & w1 & Hm & b & w2 & Hk & HQ).
  exists b, w2. unfold bind. rewrite Hm. split; assumption.
Qed.

Lemma returns_weaken {A : Type} (m : M A) (w : World) (P Q : A -> World -> Prop) :
  returns m w P -> (forall a w1, P a w1 -> Q a w1) -> returns m w Q.
Proof. intros (a & w1 & Hm & HP) HPQ. exists a, w1. split; auto. Qed.

Lemma returns_modify (f : World -> World) (w : World) (Q : unit -> World -> Prop) :
  Q tt (f w) -> returns (modify f) w Q.
Proof. intros H. exists tt, (f w). split; [reflexivity | exact H]. Qed.

Lemma returns_get (w : World) (Q : World -> World -> Prop) :
  Q w w -> returns get w Q.
Proof. intros H. exists w, w. split; [reflexivity | exact H]. Qed.

Lemma returns_lift {A : Type} (o : outcome A) (a : A) (w : World)
    (Q : A -> World -> Prop) :
  o = Return a -> Q a w -> returns (lift o) w Q.
Proof. intros -> H. exists a, w. split; [reflexivity | exact H]. Qed.

Lemma returns_set_node (n : node) (f : Node -> Node) (w : World)
    (Q : unit -> World -> Prop) :
  Q tt (put_node w n (f (nodes w n))) -> returns (set_node n f) w Q.
Proof. intros H. unfold set_node. apply returns_modify. exact H. Qed.

Lemma returns_createElementNS (env : Env) (w : World) (Q : node -> World -> Prop) :
  has_window env = true ->
  Q (next_node w) (alloc_node w) -> returns (createElementNS env) w Q.
Proof.
  intros Hw H. unfold createElementNS. rewrite Hw.
  exists (next_node w), (alloc_node w). split; [reflexivity | exact H].
Qed.

Lemma returns_newResizeObserver (w : World) (Q : observer -> World -> Prop) :
  Q (next_observer w) (alloc_observer w) -> returns newResizeObserver w Q.
Proof. intros H. exists (next_observer w), (alloc_observer w). split; [reflexivity | exact H]. Qed.

Lemma returns_newClosure (w : World) (Q : listener -> World -> Prop) :
  Q (next_listener w) (alloc_listener w) -> returns newClosure w Q.
Proof. intros H. exists (next_listener w), (alloc_listener w). split; [reflexivity | exact H]. Qed.

(** *** Reading a state after an update *)

Lemma update_same {A : Type} (f : nat -> A) (i : nat) (a : A) : update f i a i = a.
Proof. unfold update. now rewrite Nat.eqb_refl. Qed.

Lemma update_other {A : Type} (f : nat -> A) (i j : nat) (a : A) :
  j <> i -> update f i a j = f j.
Proof. unfold update. intros H. apply Nat.eqb_neq in H. now rewrite H. Qed.

Lemma nodes_put_same w n d : nodes (put_node w n d) n = d.
Proof. apply update_same. Qed.

Lemma nodes_put_other w n d m : m <> n -> nodes (put_node w n d) m = nodes w m.
Proof. apply update_other. Qed.

Lemma nodes_alloc_other w m : m <> next_node w -> nodes (alloc_node w) m = nodes w m.
Proof. apply update_other. Qed.

Lemma nodes_alloc_same w n : n = next_node w -> nodes (alloc_node w) n = blank_node.
Proof. intros ->. apply update_same. Qed.

Lemma next_node_put w n d : next_node (put_node w n d) = next_node w.
Proof. reflexivity. Qed.

Lemma next_node_alloc w : next_node (alloc_node w) = S (next_node w).
Proof. reflexivity. Qed.

Lemma nodes_put_listeners w ls n : nodes (put_listeners w ls) n = nodes w n.
Proof. reflexivity. Qed.

Lemma nodes_put_observed w o ts n : nodes (put_observed w o ts) n = nodes w n.
Proof. reflexivity. Qed.

Lemma nodes_alloc_observer w n : nodes (alloc_observer w) n = nodes w n.
Proof. reflexivity. Qed.

Lemma nodes_alloc_listener w n : nodes (alloc_listener w) n = nodes w n.
Proof. reflexivity. Qed.

Lemma next_node_alloc_listener w : next_node (alloc_listener w) = next_node w.
Proof. reflexivity. Qed.

Lemma resize_listeners_put_observed w o ts :
  resize_listeners (put_observed w o ts) = resize_listeners w.
Proof. reflexivity. Qed.

Create Rewrite HintDb dom.

#[local] Hint Rewrite nodes_put_same next_node_put next_node_alloc
  nodes_put_listeners nodes_put_observed nodes_alloc_observer nodes_alloc_listener
  next_node_alloc_listener resize_listeners_put_observed : dom.

Ltac look :=
  cbn beta;
  repeat first
    [ progress autorewrite with dom
    | rewrite nodes_put_other by (autorewrite with dom; lia)
    | rewrite nodes_alloc_other by (autorewrite with dom; lia)
    | rewrite nodes_alloc_same by (autorewrite with dom; reflexivity) ];
  cbn [offsetWidth offsetHeight style parentNode attributes innerHTML
       element s_radius s_borderWidth s_borderColor isSupported svgOverlay
       s_observer s_updateStyles with_svgOverlay with_observer].

Ltac step :=
  lazymatch goal with
  | |- returns (bind _ _) _ _ => apply returns_bind
  | |- returns (ret _) _ _ => apply returns_ret
  | |- returns get _ _ => apply returns_get
  | |- returns (set_node _ _) _ _ => apply returns_set_node
  | |- returns (set_style _ _) _ _ => unfold set_style at 1; apply returns_set_node
  | |- returns (set_parent _ _) _ _ => unfold set_parent at 1; apply returns_set_node
  | |- returns (setAttribute _ _ _) _ _ => unfold setAttribute at 1; apply returns_set_node
  | |- returns (set_innerHTML _ _) _ _ => unfold set_innerHTML at 1; apply returns_set_node
  | |- returns (appendChild _ _) _ _ =>
      unfold appendChild at 1, set_parent at 1; apply returns_set_node
  | |- returns (createElementNS _) _ _ => apply returns_createElementNS; [assumption |]
  | |- returns newResizeObserver _ _ => apply returns_newResizeObserver
  | |- returns newClosure _ _ => apply returns_newClosure
  | |- returns (observe _ _) _ _ => unfold observe at 1; apply returns_modify
  | |- returns (disconnect _) _ _ => unfold disconnect at 1; apply returns_modify
  | |- returns (modify _) _ _ => apply returns_modify
  end;
  look.

(** *** One synchronization pass *)

Lemma updateStyles_precise (env : Env) (s : Session) (w : World) :
  has_window env = true ->
  isSupported s = true ->
  svgOverlay s = None ->
  strict_eq (offsetWidth (nodes w (element s))) 0 = false ->
  strict_eq (offsetHeight (nodes w (element s))) 0 = false ->
  (element s < next_node w)%nat ->
  returns (updateStyles env s) w (fun s' w1 =>
    clipPath (style (nodes w1 (element s)))
      = Some (css_path (path_at w (element s) (s_radius s)))
    /\ WebkitClipPath (style (nodes w1 (element s)))
      = Some (css_path (path_at w (element s) (s_radius s)))
    /\ element s' = element s).
Proof.
  intros Hw Hs Hov Hx Hy Hlt. unfold path_at, updateStyles.
  rewrite Hov, Hs.
  do 2 step. rewrite Hx, Hy. cbn [orb].
  destruct (gt (s_borderWidth s) 0); repeat step; repeat split.
Qed.

Lemma updateStyles_fallback (env : Env) (s : Session) (w : World) :
  isSupported s = false ->
  strict_eq (offsetWidth (nodes w (element s))) 0 = false ->
  strict_eq (offsetHeight (nodes w (element s))) 0 = false ->
  returns (updateStyles env s) w (fun s' w1 =>
    borderRadius (style (nodes w1 (element s)))
      = Some (toString (s_radius s) ++ "px")%string
    /\ overflow (style (nodes w1 (element s))) = Some "hidden"%string
    /\ clipPath (style (nodes w1 (element s))) = clipPath (style (nodes w (element s)))
    /\ WebkitClipPath (style (nodes w1 (element s)))
       = WebkitClipPath (style (nodes w (element s)))
    /\ s' = s).
Proof.
  intros Hs Hx Hy. unfold updateStyles. rewrite Hs.
  do 2 step. rewrite Hx, Hy. cbn [orb].
  destruct (gt (s_borderWidth s) 0); repeat step; repeat split.
Qed.

(** A pass over a surface with a zero dimension changes nothing. *)
Lemma updateStyles_zero_size (env : Env) (s : Session) (w : World) :
  strict_eq (offsetWidth (nodes w (element s))) 0
    || strict_eq (offsetHeight (nodes w (element s))) 0 = true ->
  updateStyles env s w = (Return s, w).
Proof.
  intros Hz. unfold updateStyles, bind, get. rewrite Hz. reflexivity.
Qed.

(** *** Bind *)

Lemma applySquircle_returns (env : Env) (el : node) (opts : ApplySquircleOptions)
    (w : World) (b : bool) (P : Session -> World -> Prop) :
  has_window env = true ->
  supportsClipPath env = Return b ->
  (forall s0 : Session,
      element s0 = el -> s_radius s0 = radius opts -> isSupported s0 = b ->
      svgOverlay s0 = None ->
      returns (updateStyles env s0) (alloc_listener w)
        (fun s' w1 => forall w2, nodes w2 = nodes w1 ->
                                 forall o, P (with_observer o s') w2)) ->
  returns (applySquircle env el opts) w P.
Proof.
  intros Hw Hb Hpass. unfold applySquircle.
  step. eapply returns_lift; [exact Hb |].
  do 3 step.
  eapply returns_weaken; [apply Hpass; reflexivity |].
  cbn beta. intros s' w1 HP.
  unfold hasResizeObserver, addResizeListener. rewrite Hw. cbn [andb].
  destruct (has_ResizeObserver env); repeat step; apply HP; reflexivity.
Qed.

(** *** Teardown *)

Lemma filter_out_absent (l : listener) (ls : list listener) :
  ~ In l (filter (fun l' => negb (Nat.eqb l l')) ls).
Proof.
  rewrite filter_In. intros [_ H]. rewrite Nat.eqb_refl in H. discriminate.
Qed.

Lemma filter_out_noop (l : listener) (ls : list listener) :
  ~ In l ls -> filter (fun l' => negb (Nat.eqb l l')) ls = ls.
Proof.
  induction ls as [| x ls IH]; cbn; [reflexivity |].
  intros Hnot. destruct (Nat.eqb l x) eqn:E; cbn.
  - apply Nat.eqb_eq in E. subst. exfalso. apply Hnot. now left.
  - f_equal. apply IH. intros Hin. apply Hnot. now right.
Qed.

Lemma update_noop {A : Type} (f : nat -> A) (i j : nat) :
  update f i (f i) j = f j.
Proof.
  unfold update. destruct (Nat.eqb j i) eqn:E; [| reflexivity].
  apply Nat.eqb_eq in E. now subst.
Qed.

Ltac unfold_teardown :=
  cbv [bind ret disconnect modify get removeChild set_parent set_node throw];
  autorewrite with dom.

Ltac read_world :=
  cbn [nodes next_node resize_listeners observed next_observer next_listener
       put_observed put_listeners put_node].

Lemma cleanup_tears_down (env : Env) (s : Session) (w : World) :
  has_window env = true ->
  exists w1, cleanup env s w = (Return tt, w1) /\ torn_down s w1.
Proof.
  intros Hw. unfold cleanup, removeResizeListener, torn_down. rewrite Hw.
  destruct s as [el r bw bc sup ov ob l]; cbn [s_observer svgOverlay s_updateStyles].
  destruct ob as [o |], ov as [n |]; unfold_teardown;
    try (destruct (parentNode (nodes w n)) as [p |] eqn:Hp;
         cbv beta iota; autorewrite with dom; rewrite ?Hp; cbv beta iota;
         rewrite ?Nat.eqb_refl);
    (eexists; split; [reflexivity |]); read_world;
    repeat split;
    try apply filter_out_absent;
    try discriminate;
    try (intros o' [= <-]; apply update_same);
    try (intros n' [= <-]; rewrite ?update_same; try reflexivity; exact Hp).
Qed.

Lemma cleanup_again_is_noop (env : Env) (s : Session) (w : World) :
  has_window env = true ->
  torn_down s w ->
  exists w1, cleanup env s w = (Return tt, w1) /\ same_world w w1.
Proof.
  intros Hw (Hl & Ho & Hn). unfold cleanup, removeResizeListener. rewrite Hw.
  destruct s as [el r bw bc sup ov ob l];
    cbn [s_observer svgOverlay s_updateStyles] in *.
  assert (Hnone : match ov with
                  | Some n => parentNode (nodes w n) = None
                  | None => True
                  end).
  { destruct ov as [n |]; [apply Hn; reflexivity | exact I]. }
  destruct ob as [o |], ov as [n |]; unfold_teardown;
    rewrite ?Hnone; (eexists; split; [reflexivity |]);
    unfold same_world; read_world;
    rewrite (filter_out_noop l (resize_listeners w) Hl);
    repeat split; intros o';
    rewrite <- (Ho o eq_refl); symmetry; apply update_noop.
Qed.

(** C1. On a surface of a document (the window exists and the element is
    one of its nodes) whose width and height are above zero, bind applies,
    when the capability query answers [true], the clip region
    [path('...')] in the standard and in the prefixed property, its
    contour being the generator's output for the measured size and the
    radius of the options; when the query answers [false] it applies that
    radius in pixels as a plain border radius with hidden overflow and
    leaves both clip properties as they were, creating no overlay.
    [createSquircleStyles] returns the same two shapes of style. *)
Theorem bind_clips_or_falls_back (env : Env) (el : node)
    (opts : ApplySquircleOptions) (w : World) :
  let width := offsetWidth (nodes w el) in
  let height := offsetHeight (nodes w el) in
  let contour :=
    SquirclePath.getSquirclePath (SquirclePath.Positional width height (radius opts)) in
  has_window env = true ->
  (el < next_node w)%nat ->
  gt width 0 = true ->
  gt height 0 = true ->
  exists s w1,
    applySquircle env el opts w = (Return s, w1)
    /\ (supportsClipPath env = Return true ->
          clipPath (style (nodes w1 el)) = Some (css_path contour)
          /\ WebkitClipPath (style (nodes w1 el)) = Some (css_path contour)
          /\ createSquircleStyles env width height opts
             = Return {| ss_position := "relative";
                         ss_clipPath := Some (css_path contour);
                         ss_WebkitClipPath := Some (css_path contour);
                         ss_borderRadius := None;
                         ss_overflow := None |})
    /\ (supportsClipPath env = Return false ->
          borderRadius (style (nodes w1 el))
            = Some (toString (radius opts) ++ "px")%string
          /\ overflow (style (nodes w1 el)) = Some "hidden"%string
          /\ clipPath (style (nodes w1 el)) = clipPath (style (nodes w el))
          /\ WebkitClipPath (style (nodes w1 el)) = WebkitClipPath (style (nodes w el))
          /\ svgOverlay s = None
          /\ createSquircleStyles env width height opts
             = Return {| ss_position := "relative";
                         ss_clipPath := None;
                         ss_WebkitClipPath := None;
                         ss_borderRadius := Some (toString (radius opts) ++ "px")%string;
                         ss_overflow := Some "hidden"%string |}).
Proof.
  intros width height contour Hw Hlt Hx Hy.
  pose proof (FloatFacts.gt_zero_not_eq _ Hx) as Hx0.
  pose proof (FloatFacts.gt_zero_not_eq _ Hy) as Hy0.
  destruct (Capability.supportsClipPath_returns env) as [b Hb].
  apply (applySquircle_returns env el opts w b); [exact Hw | exact Hb |].
  intros s0 Hel Hr Hsup Hov.
  unfold createSquircleStyles. rewrite Hb. fold width height. rewrite Hx, Hy.
  destruct b.
  - eapply returns_weaken.
    + apply updateStyles_precise; try assumption;
        rewrite Hel; autorewrite with dom; assumption.
    + cbn beta. unfold path_at. rewrite Hel, Hr. autorewrite with dom.
      intros s' w1 (Hclip & Hwebkit & _) w2 Hnodes o.
      rewrite Hnodes. split; [| discriminate].
      intros _. repeat split; assumption.
  - eapply returns_weaken.
    + apply updateStyles_fallback; try assumption;
        rewrite Hel; autorewrite with dom; assumption.
    + cbn beta. rewrite Hel, Hr. autorewrite with dom.
      intros s' w1 (Hradius & Hflow & Hclip & Hwebkit & ->) w2 Hnodes o.
      rewrite Hnodes. split; [discriminate |].
      intros _. repeat split; assumption.
Qed.

Lemma applySquircle_needs_window (env : Env) (el : node)
    (opts : ApplySquircleOptions) (w w1 : World) (s : Session) :
  applySquircle env el opts w = (Return s, w1) -> has_window env = true.
Proof.
  destruct (has_window env) eqn:Hw; [reflexivity |].
  unfold applySquircle, supportsClipPath, hasResizeObserver, addResizeListener.
  rewrite Hw. cbn [negb andb].
  unfold bind at 1. cbn [lift].
  unfold bind at 1. cbn [newClosure].
  unfold bind at 1.
  destruct (updateStyles _ _ _) as [[s' | e] w']; [| discriminate].
  cbv [bind ret throw]. discriminate.
Qed.

(** C9. The closure a bind returned can be called at any later time,
    whatever overlay the passes in between have installed: it does not
    throw, it leaves the [resize] listener deregistered, the observer
    without targets and the overlay detached; called again it does not
    throw either and changes nothing. *)
Theorem teardown_is_idempotent (env : Env) (el : node)
    (opts : ApplySquircleOptions) (w0 w1 : World) (s : Session) :
  applySquircle env el opts w0 = (Return s, w1) ->
  forall (overlay : option node) (w : World),
    let s' := with_svgOverlay overlay s in
    exists w2,
      cleanup env s' w = (Return tt, w2)
      /\ torn_down s' w2
      /\ exists w3, cleanup env s' w2 = (Return tt, w3) /\ same_world w2 w3.
Proof.
  intros Hbind overlay w s'.
  pose proof (applySquircle_needs_window _ _ _ _ _ _ Hbind) as Hw.
  destruct (cleanup_tears_down env s' w Hw) as (w2 & Hrun & Hdown).
  exists w2. repeat split; try apply Hdown; try exact Hrun.
  apply cleanup_again_is_noop; assumption.
Qed.

(** The custom element's [disconnectedCallback] deregisters the same two
    channels and can be repeated; it leaves the overlay in the shadow
    root. *)
Lemma disconnectedCallback_idempotent (env : Env) (this : ElementState) (w : World) :
  has_window env = true ->
  exists w1,
    disconnectedCallback env this w = (Return tt, w1)
    /\ ~ In (wc_handleResize this) (resize_listeners w1)
    /\ (forall o, wc_observer this = Some o -> observed w1 o = [])
    /\ exists w2, disconnectedCallback env this w1 = (Return tt, w2) /\ same_world w1 w2.
Proof.
  intros Hw. unfold disconnectedCallback, removeResizeListener. rewrite Hw.
  destruct this as [[o |] l]; cbn [wc_observer wc_handleResize];
    unfold_teardown; (eexists; split; [reflexivity |]); read_world;
    (split; [apply filter_out_absent |]);
    (split; [try discriminate; try (intros o' [= <-]; apply update_same) |]);
    (eexists; split; [reflexivity |]); unfold same_world; read_world;
    rewrite (filter_out_noop l _ (filter_out_absent l (resize_listeners w)));
    repeat split; intros o'; unfold update;
    destruct (Nat.eqb o' o); reflexivity.
Qed.

Lemma teardown_is_idempotent_witness :
  exists w2,
    cleanup modern_env zero_size_session (snd zero_size_bind) = (Return tt, w2)
    /\ torn_down zero_size_session w2
    /\ exists w3,
        cleanup modern_env zero_size_session w2 = (Return tt, w3)
        /\ same_world w2 w3.
Proof.
  apply (teardown_is_idempotent modern_env 0%nat (plain_options 20)
           (one_element 0 0) (snd zero_size_bind) zero_size_session
           eq_refl None (snd zero_size_bind)).
Defined.

Lemma bind_clips_or_falls_back_witness :
  exists s w1,
    applySquircle modern_env 0%nat (plain_options 20) (one_element 100 100)
      = (Return s, w1)
    /\ (supportsClipPath modern_env = Return true ->
          clipPath (style (nodes w1 0%nat))
            = Some (css_path (SquirclePath.getSquirclePath
                                (SquirclePath.Positional 100 100 20)))
          /\ WebkitClipPath (style (nodes w1 0%nat))
            = Some (css_path (SquirclePath.getSquirclePath
                                (SquirclePath.Positional 100 100 20)))
          /\ createSquircleStyles modern_env 100 100 (plain_options 20)
             = Return {| ss_position := "relative";
                         ss_clipPath :=
                           Some (css_path (SquirclePath.getSquirclePath
                                             (SquirclePath.Positional 100 100 20)));
                         ss_WebkitClipPath :=
                           Some (css_path (SquirclePath.getSquirclePath
                                             (SquirclePath.Positional 100 100 20)));
                         ss_borderRadius := None;
                         ss_overflow := None |})
    /\ (supportsClipPath modern_env = Return false ->
          borderRadius (style (nodes w1 0%nat)) = Some (toString 20 ++ "px")%string
          /\ overflow (style (nodes w1 0%nat)) = Some "hidden"%string
          /\ clipPath (style (nodes w1 0%nat)) = None
          /\ WebkitClipPath (style (nodes w1 0%nat)) = None
          /\ svgOverlay s = None
          /\ createSquircleStyles modern_env 100 100 (plain_options 20)
             = Return {| ss_position := "relative";
                         ss_clipPath := None;
                         ss_WebkitClipPath := None;
                         ss_borderRadius := Some (toString 20 ++ "px")%string;
                         ss_overflow := Some "hidden"%string |}).
Proof.
  apply (bind_clips_or_falls_back modern_env 0%nat (plain_options 20)
           (one_element 100 100));
    [reflexivity | apply Nat.lt_0_1 | reflexivity | reflexivity].
Defined.

End Binder.

(** ** The clamp of the radius, and inputs outside the expected range *)

Module FloatOrder.
Import JS OrderDefs FloatFacts.
Local Open Scope float_scope.

Lemma not_nan_spec (x : number) :
  not_nan x = true <-> Prim2SF x <> S754_nan.
Proof.
  unfold not_nan, PrimFloat.is_nan. rewrite eqb_spec, negb_involutive.
  destruct (Prim2SF x) as [s | s | | s m e]; cbn.
  - split; [discriminate | reflexivity].
  - destruct s; (split; [discriminate | reflexivity]).
  - split; [discriminate | congruence].
  - unfold SFeqb, SFcompare.
    destruct s; rewrite Z.compare_refl, Pos.compare_cont_refl;
      (split; [discriminate | reflexivity]).
Qed.

Lemma SFcompare_key (x y : spec_float) :
  x <> S754_nan -> y <> S754_nan ->
  match SFcompare x y with
  | Some Lt => key_lt (key x) (key y)
  | Some Eq => key x = key y
  | Some Gt => key_lt (key y) (key x)
  | None => False
  end.
Proof.
  intros Hx Hy.
  destruct x as [sx | sx | | sx mx ex], y as [sy | sy | | sy my ey];
    try congruence; cbn [SFcompare key];
    try (destruct sx); try (destruct sy); cbn [key key_lt]; try lia; try reflexivity.
  all: destruct (Z.compare_spec ex ey) as [He | He | He];
    try (cbn [key_lt]; lia).
  all: subst; change (Pos.compare_cont Eq mx my) with (Pos.compare mx my);
    destruct (Pos.compare_spec mx my) as [Hm | Hm | Hm]; cbn [CompOpp key_lt];
    try (subst; reflexivity); lia.
Qed.


Lemma ltb_rank (x y : number) :
  not_nan x = true -> not_nan y = true ->
  (PrimFloat.ltb x y = true <-> key_lt (rank x) (rank y)).
Proof.
  intros Hx Hy. apply not_nan_spec in Hx, Hy.
  rewrite ltb_spec. unfold SFltb, rank.
  pose proof (SFcompare_key _ _ Hx Hy) as Hc.
  pose proof (SFcompare_key _ _ Hy Hx) as Hc'.
  destruct (key (Prim2SF x)) as [[a1 b1] c1], (key (Prim2SF y)) as [[a2 b2] c2].
  destruct (SFcompare (Prim2SF x) (Prim2SF y)) as [[| |] |]; cbn [key_lt] in *;
    try contradiction.
  - injection Hc as -> -> ->. split; [discriminate | lia].
  - tauto.
  - split; [discriminate | lia].
Qed.

Lemma leb_rank (x y : number) :
  not_nan x = true -> not_nan y = true ->
  (PrimFloat.leb x y = true <-> key_le (rank x) (rank y)).
Proof.
  intros Hx Hy. apply not_nan_spec in Hx, Hy.
  rewrite leb_spec. unfold SFleb, rank, key_le.
  pose proof (SFcompare_key _ _ Hx Hy) as Hc.
  destruct (key (Prim2SF x)) as [[a1 b1] c1], (key (Prim2SF y)) as [[a2 b2] c2].
  destruct (SFcompare (Prim2SF x) (Prim2SF y)) as [[| |] |]; cbn [key_lt] in *;
    try contradiction.
  - injection Hc as -> -> ->. split; [now right | reflexivity].
  - split; [now left | reflexivity].
  - split; [discriminate |]. intros [H | [= -> -> ->]]; lia.
Qed.

Lemma key_le_refl (k : Z * Z * Z) : key_le k k.
Proof. now right. Qed.

Lemma key_le_trans (k1 k2 k3 : Z * Z * Z) :
  key_le k1 k2 -> key_le k2 k3 -> key_le k1 k3.
Proof.
  unfold key_le. destruct k1 as [[a1 b1] c1], k2 as [[a2 b2] c2], k3 as [[a3 b3] c3].
  cbn [key_lt]. intros [H1 | [= -> -> ->]] [H2 | [= -> -> ->]]; auto.
  left. lia.
Qed.

Lemma key_not_lt_le (k1 k2 : Z * Z * Z) : ~ key_lt k1 k2 -> key_le k2 k1.
Proof.
  unfold key_le. destruct k1 as [[a1 b1] c1], k2 as [[a2 b2] c2]. cbn [key_lt].
  intros H.
  destruct (Z.eq_dec a1 a2) as [-> |]; [| left; lia].
  destruct (Z.eq_dec b1 b2) as [-> |]; [| left; lia].
  destruct (Z.eq_dec c1 c2) as [-> |]; [now right | left; lia].
Qed.

(** The running minimum is below its start and below every argument, and
    it is the start or one of the arguments. *)
Lemma Math_min_from_lower_bound (args : list number) :
  forall lowest,
    not_nan lowest = true ->
    forallb not_nan args = true ->
    let r := Math_min_from lowest args in
    not_nan r = true
    /\ key_le (rank r) (rank lowest)
    /\ (forall x, In x args -> key_le (rank r) (rank x))
    /\ (r = lowest \/ In r args).
Proof.
  induction args as [| x rest IH]; intros lowest Hlow Hargs.
  - cbn. repeat split; auto using key_le_refl. intros x [].
  - cbn zeta. rewrite Math_min_from_cons.
    cbn [forallb] in Hargs. apply andb_prop in Hargs. destruct Hargs as [Hx Hrest].
    assert (Hnan : PrimFloat.is_nan x = false).
    { unfold not_nan in Hx. now destruct (PrimFloat.is_nan x). }
    rewrite Hnan.
    set (l1 := if is_neg_zero x && is_pos_zero lowest then x else lowest).
    set (l2 := if PrimFloat.ltb x l1 then x else l1).
    assert (Hl1 : not_nan l1 = true /\ key_le (rank l1) (rank lowest)
                  /\ (l1 = lowest \/ l1 = x)).
    { subst l1. destruct (is_neg_zero x && is_pos_zero lowest) eqn:Hz.
      - apply andb_prop in Hz. destruct Hz as [Hzx Hzl].
        repeat split; auto. right. unfold rank.
        unfold is_neg_zero in Hzx. unfold is_pos_zero in Hzl.
        destruct (Prim2SF x) as [[|] | | |]; try discriminate.
        destruct (Prim2SF lowest) as [[|] | | |]; try discriminate. reflexivity.
      - repeat split; auto using key_le_refl. }
    destruct Hl1 as (Hl1n & Hl1le & Hl1in).
    assert (Hl2 : not_nan l2 = true /\ key_le (rank l2) (rank l1)
                  /\ key_le (rank l2) (rank x) /\ (l2 = l1 \/ l2 = x)).
    { subst l2. destruct (PrimFloat.ltb x l1) eqn:Hlt.
      - apply ltb_rank in Hlt; auto.
        repeat split; auto using key_le_refl. now left.
      - repeat split; auto using key_le_refl.
        apply key_not_lt_le. intros H. apply ltb_rank in H; auto. congruence. }
    destruct Hl2 as (Hl2n & Hl2le & Hl2x & Hl2in).
    destruct (IH l2 Hl2n Hrest) as (Hrn & Hrle & Hrall & Hrin).
    repeat split.
    + exact Hrn.
    + eauto using key_le_trans.
    + intros y [<- | Hy]; [eauto using key_le_trans | auto].
    + destruct Hrin as [-> | Hin]; [| right; now right].
      destruct Hl2in as [-> | ->]; [| right; now left].
      destruct Hl1in as [-> | ->]; [now left | right; now left].
Qed.

Lemma Math_min_nan (args : list number) :
  forall lowest,
    existsb PrimFloat.is_nan args = true ->
    Prim2SF (Math_min_from lowest args) = S754_nan.
Proof.
  induction args as [| x rest IH]; intros lowest Hex; [discriminate |].
  rewrite Math_min_from_cons. cbn [existsb] in Hex.
  destruct (PrimFloat.is_nan x); [reflexivity |].
  apply IH. exact Hex.
Qed.

End FloatOrder.

Module Clamp.
Import JS OrderDefs FloatFacts FloatOrder SquirclePath.
Local Open Scope list_scope.
Local Open Scope float_scope.

Lemma binary_round_aux_not_nan (s : bool) (m e : Z) (l : location) :
  (0 <= m)%Z -> binary_round_aux prec emax s m e l <> S754_nan.
Proof.
  intros Hm. destruct s.
  - change true with (negb false). rewrite binary_round_aux_opp.
    pose proof (binary_round_aux_nonneg m e l Hm) as H.
    destruct (binary_round_aux prec emax false m e l); cbn in *; congruence.
  - pose proof (binary_round_aux_nonneg m e l Hm) as H.
    destruct (binary_round_aux prec emax false m e l); cbn in *; congruence.
Qed.

(** Half of a number is [NaN] only if the number is. *)
Lemma half_not_nan (x : number) : not_nan x = true -> not_nan (x / 2) = true.
Proof.
  rewrite !not_nan_spec, div_spec, Prim2SF_two.
  destruct (Prim2SF x) as [s | s | | s m e]; cbn [SF64div SFdiv]; try congruence;
    unfold SF64div, SFdiv; try discriminate.
  intros _.
  pose proof (SFdiv_core_binary_nonneg m 4503599627370496 e (-51)) as Hq.
  destruct (SFdiv_core_binary _ _ _ _ _ _) as [[mz ez] lz]. cbn [fst] in Hq.
  apply binary_round_aux_not_nan. exact Hq.
Qed.

Lemma rank_top (x : number) :
  not_nan x = true -> key_le (rank infinity) (rank x) -> x = infinity.
Proof.
  intros Hx Hle. apply not_nan_spec in Hx. apply Prim2SF_inj.
  rewrite Prim2SF_infinity. unfold rank in Hle. rewrite Prim2SF_infinity in Hle.
  unfold key_le in Hle.
  destruct (Prim2SF x) as [s | [|] | | [|] m e]; cbn [key key_lt] in Hle;
    try congruence; try reflexivity;
    destruct Hle as [H | H]; try lia; try discriminate H.
Qed.

(** X1. The effective radius of the generator, for inputs that are not [NaN]:
    it is at most the radius, at most half the width and at most half the
    height, and it is one of the three. *)
Theorem effective_radius_is_the_least (w h radius : number) :
  not_nan radius = true -> not_nan w = true -> not_nan h = true ->
  let r := Math_min [radius; w / 2; h / 2] in
  PrimFloat.leb r radius = true
  /\ PrimFloat.leb r (w / 2) = true
  /\ PrimFloat.leb r (h / 2) = true
  /\ (r = radius \/ r = w / 2 \/ r = h / 2).
Proof.
  intros Hr Hw Hh r.
  pose proof (half_not_nan w Hw) as Hw2.
  pose proof (half_not_nan h Hh) as Hh2.
  assert (Hargs : forallb not_nan [radius; w / 2; h / 2] = true).
  { cbn [forallb]. now rewrite Hr, Hw2, Hh2. }
  destruct (Math_min_from_lower_bound [radius; w / 2; h / 2] infinity eq_refl Hargs)
    as (Hn & _ & Hall & Hin).
  fold (Math_min [radius; w / 2; h / 2]) in Hn, Hall, Hin. fold r in Hn, Hall, Hin.
  assert (H1 := Hall radius (or_introl eq_refl)).
  assert (H2 := Hall (w / 2) (or_intror (or_introl eq_refl))).
  assert (H3 := Hall (h / 2) (or_intror (or_intror (or_introl eq_refl)))).
  repeat split; try (apply leb_rank; assumption).
  destruct Hin as [Hinf | [<- | [<- | [<- | []]]]]; auto.
  left. rewrite Hinf in H1 |- *. symmetry. apply rank_top; assumption.
Qed.

Lemma effective_radius_is_the_least_witness :
  let r := Math_min [50; 40 / 2; 100 / 2] in
  PrimFloat.leb r 50 = true
  /\ PrimFloat.leb r (40 / 2) = true
  /\ PrimFloat.leb r (100 / 2) = true
  /\ (r = 50 \/ r = 40 / 2 \/ r = 100 / 2).
Proof.
  apply (effective_radius_is_the_least 40 100 50); reflexivity.
Defined.


Lemma nonneg_rank (x : number) :
  is_nonneg x = true -> key_le (0, 0, 0)%Z (rank x).
Proof.
  unfold is_nonneg, rank, key_le.
  destruct (Prim2SF x) as [[|] | [|] | | [|] m e]; cbn [sf_nonneg key key_lt];
    try discriminate; intros _; try (now right); left; lia.
Qed.

Lemma ltb_not_nan_l (x y : number) : PrimFloat.ltb x y = true -> not_nan x = true.
Proof.
  rewrite ltb_spec. intros H. apply not_nan_spec. intros Hx. rewrite Hx in H.
  discriminate H.
Qed.

Lemma prefix_app (a b : string) : prefix a (a ++ b) = true.
Proof.
  induction a as [| c a IH]; cbn; [now destruct b |].
  destruct (ascii_dec c c); [exact IH | congruence].
Qed.

Lemma path_starts_at_clamp (w h radius : number) :
  strict_eq w 0 || strict_eq h 0 = false ->
  starts_at (getSquirclePath (Positional w h radius))
    (Math_min [radius; w / 2; h / 2]) 0.
Proof.
  intros Hnz. unfold starts_at.
  rewrite (Generator.getSquirclePath_renders_contour w h radius Hnz).
  unfold contour. cbn [render render_command].
  unfold render_point at 1. cbn [fst snd].
  rewrite toString_zero_plus, !Generator.append_assoc.
  eexists. reflexivity.
Qed.

(** X3. A negative radius is not floored: for a width and a height above zero
    it is the effective radius itself, and the contour starts at
    [(radius, 0)], left of the box. *)
Theorem negative_radius_passes_through (w h radius : number) :
  PrimFloat.ltb radius 0 = true -> gt w 0 = true -> gt h 0 = true ->
  Math_min [radius; w / 2; h / 2] = radius
  /\ starts_at (getSquirclePath (Positional w h radius)) radius 0.
Proof.
  intros Hneg Hw Hh.
  pose proof (ltb_not_nan_l _ _ Hneg) as Hr.
  pose proof (half_nonneg w Hw) as Hw2. pose proof (half_nonneg h Hh) as Hh2.
  assert (Hargs : forallb not_nan [radius; w / 2; h / 2] = true).
  { cbn [forallb]. unfold not_nan at 2 3.
    now rewrite Hr, (nonneg_not_nan _ Hw2), (nonneg_not_nan _ Hh2). }
  destruct (Math_min_from_lower_bound [radius; w / 2; h / 2] infinity eq_refl Hargs)
    as (Hn & _ & Hall & Hin).
  fold (Math_min [radius; w / 2; h / 2]) in Hn, Hall, Hin.
  assert (H1 := Hall radius (or_introl eq_refl)).
  assert (Hlt : key_lt (rank radius) (0, 0, 0)%Z).
  { apply (ltb_rank radius 0) in Hneg; auto. }
  assert (Heq : Math_min [radius; w / 2; h / 2] = radius).
  { destruct Hin as [Hinf | [<- | [Hx | [Hx | []]]]]; [| reflexivity | |]; exfalso.
    - rewrite Hinf in H1. unfold rank at 1 in H1. rewrite Prim2SF_infinity in H1.
      unfold key_le in *. destruct (rank radius) as [[a b] c].
      cbn [key key_lt] in *. destruct H1 as [H | [= <- <- <-]]; lia.
    - rewrite <- Hx in H1. pose proof (nonneg_rank _ Hw2) as H0.
      unfold key_le in *. destruct (rank radius) as [[a b] c], (rank (w / 2)) as [[a' b'] c'].
      cbn [key_lt] in *.
      destruct H0 as [H0 | [= <- <- <-]], H1 as [H1 | [= <- <- <-]]; lia.
    - rewrite <- Hx in H1. pose proof (nonneg_rank _ Hh2) as H0.
      unfold key_le in *. destruct (rank radius) as [[a b] c], (rank (h / 2)) as [[a' b'] c'].
      cbn [key_lt] in *.
      destruct H0 as [H0 | [= <- <- <-]], H1 as [H1 | [= <- <- <-]]; lia. }
  split; [exact Heq |].
  rewrite <- Heq at 2. apply path_starts_at_clamp.
  now rewrite (gt_zero_not_eq w Hw), (gt_zero_not_eq h Hh).
Qed.

#[warnings="-inexact-float"]
Lemma negative_radius_passes_through_witness :
  Math_min [-7.5; 100 / 2; 60 / 2] = -7.5
  /\ starts_at (getSquirclePath (Positional 100 60 (-7.5))) (-7.5) 0.
Proof.
  apply (negative_radius_passes_through 100 60 (-7.5)); reflexivity.
Defined.

(** X4. The generator returns the empty string exactly when the width or the
    height is [=== 0]: every other input, [NaN] included, gives a string
    that begins with [M]. *)
Theorem path_is_empty_only_for_zero_dimension (w h radius : number) :
  (getSquirclePath (Positional w h radius) = EmptyString
   <-> strict_eq w 0 || strict_eq h 0 = true)
  /\ (strict_eq w 0 || strict_eq h 0 = false ->
      prefix "M " (getSquirclePath (Positional w h radius)) = true).
Proof.
  split; [split |].
  - intros Hempty. destruct (strict_eq w 0 || strict_eq h 0) eqn:Hz; [reflexivity |].
    destruct (path_starts_at_clamp w h radius Hz) as [rest Hrest].
    rewrite Hrest in Hempty. discriminate Hempty.
  - apply Generator.getSquirclePath_zero.
  - intros Hz. destruct (path_starts_at_clamp w h radius Hz) as [rest ->].
    apply prefix_app.
Qed.

(** X5. A [NaN] among the inputs is not rejected: with dimensions that are not
    [=== 0] the effective radius is [NaN] and the string begins with
    [M NaN 0]. *)
Theorem nan_input_reaches_the_string (w h radius : number) :
  PrimFloat.is_nan radius || PrimFloat.is_nan w || PrimFloat.is_nan h = true ->
  strict_eq w 0 || strict_eq h 0 = false ->
  PrimFloat.is_nan (Math_min [radius; w / 2; h / 2]) = true
  /\ prefix "M NaN 0" (getSquirclePath (Positional w h radius)) = true.
Proof.
  intros Hnan Hnz.
  assert (Hhalf : forall x, PrimFloat.is_nan x = true -> PrimFloat.is_nan (x / 2) = true).
  { intros x Hx.
    assert (Hsf : Prim2SF x = S754_nan).
    { destruct (Prim2SF x) eqn:E; try reflexivity; exfalso;
        assert (Hn : not_nan x = true) by (apply not_nan_spec; congruence);
        unfold not_nan in Hn; rewrite Hx in Hn; discriminate. }
    assert (Hsf2 : Prim2SF (x / 2) = S754_nan) by (rewrite div_spec, Hsf; reflexivity).
    destruct (PrimFloat.is_nan (x / 2)) eqn:E; [reflexivity |].
    assert (Hn : not_nan (x / 2) = true) by (unfold not_nan; now rewrite E).
    apply not_nan_spec in Hn. contradiction. }
  assert (Hex : existsb PrimFloat.is_nan [radius; w / 2; h / 2] = true).
  { cbn [existsb]. destruct (PrimFloat.is_nan radius); [reflexivity |].
    destruct (PrimFloat.is_nan w) eqn:Ew; [now rewrite (Hhalf w Ew) |].
    cbn [orb] in Hnan. rewrite (Hhalf h Hnan). now rewrite orb_true_r. }
  pose proof (Math_min_nan _ infinity Hex) as Hsf.
  fold (Math_min [radius; w / 2; h / 2]) in Hsf.
  split.
  - destruct (PrimFloat.is_nan (Math_min [radius; w / 2; h / 2])) eqn:E; [reflexivity |].
    assert (Hn : not_nan (Math_min [radius; w / 2; h / 2]) = true)
      by (unfold not_nan; now rewrite E).
    apply not_nan_spec in Hn. contradiction.
  - destruct (path_starts_at_clamp w h radius Hnz) as [rest ->].
    unfold toString at 1. rewrite Hsf.
    apply (prefix_app "M NaN 0" rest).
Qed.

Lemma nan_input_reaches_the_string_witness :
  PrimFloat.is_nan (Math_min [nan; 100 / 2; 100 / 2]) = true
  /\ prefix "M NaN 0" (getSquirclePath (Positional 100 100 nan)) = true.
Proof.
  apply (nan_input_reaches_the_string 100 100 nan); reflexivity.
Defined.

End Clamp.

Module Saturation.
Import JS OrderDefs FloatFacts FloatOrder SquirclePath.
Local Open Scope list_scope.
Local Open Scope float_scope.

Lemma key_le_antisym (k1 k2 : Z * Z * Z) : key_le k1 k2 -> key_le k2 k1 -> k1 = k2.
Proof.
  unfold key_le. destruct k1 as [[a1 b1] c1], k2 as [[a2 b2] c2]. cbn [key_lt].
  intros [H1 | H1] [H2 | H2]; try congruence. lia.
Qed.

(** Numbers from [+0] upward are told apart by their rank. *)
Lemma rank_inj (x y : number) :
  is_nonneg x = true -> is_nonneg y = true -> rank x = rank y -> x = y.
Proof.
  unfold is_nonneg, rank. intros Hx Hy Hk. apply Prim2SF_inj.
  destruct (Prim2SF x) as [[|] | [|] | | [|] mx ex],
           (Prim2SF y) as [[|] | [|] | | [|] my ey];
    cbn [sf_nonneg key] in *; try discriminate; try reflexivity.
  injection Hk as -> ->. reflexivity.
Qed.

Lemma positive_nonneg (x : number) : gt x 0 = true -> is_nonneg x = true.
Proof.
  intros Hx. unfold is_nonneg.
  destruct (gt_zero_positive x Hx) as [-> | (m & e & ->)]; reflexivity.
Qed.

Lemma nonneg_is_not_nan (x : number) : is_nonneg x = true -> not_nan x = true.
Proof. intros Hx. unfold not_nan. now rewrite (nonneg_not_nan x Hx). Qed.

(** With a radius that reaches half of one side, the clamp is the smaller
    half. *)
Lemma clamp_is_the_smaller_half (a b r : number) :
  is_nonneg a = true -> is_nonneg b = true -> is_nonneg r = true ->
  PrimFloat.leb a r || PrimFloat.leb b r = true ->
  let m := Math_min [r; a; b] in
  (m = a \/ m = b) /\ key_le (rank m) (rank a) /\ key_le (rank m) (rank b).
Proof.
  intros Ha Hb Hr Hreach m.
  pose proof (nonneg_is_not_nan a Ha) as Hna.
  pose proof (nonneg_is_not_nan b Hb) as Hnb.
  pose proof (nonneg_is_not_nan r Hr) as Hnr.
  destruct (Math_min_from_lower_bound [r; a; b] infinity eq_refl) as (Hn & _ & Hall & Hin).
  { cbn [forallb]. now rewrite Hnr, Hna, Hnb. }
  fold (Math_min [r; a; b]) in Hn, Hall, Hin. fold m in Hn, Hall, Hin.
  assert (Hma : key_le (rank m) (rank a)) by (apply Hall; cbn; auto).
  assert (Hmb : key_le (rank m) (rank b)) by (apply Hall; cbn; auto).
  assert (Hmr : key_le (rank m) (rank r)) by (apply Hall; cbn; auto).
  split; [| split; assumption].
  destruct Hin as [Hinf | [Hmr' | [Hm | [Hm | []]]]];
    [| | left; symmetry; exact Hm | right; symmetry; exact Hm].
  - (* the running minimum stayed at +Infinity *)
    left. apply rank_inj; [rewrite Hinf; reflexivity | exact Ha |].
    apply key_le_antisym; [exact Hma |].
    rewrite Hinf. unfold rank. rewrite Prim2SF_infinity.
    unfold is_nonneg in Ha.
    destruct (Prim2SF a) as [[|] | [|] | | [|] ma ea]; cbn [sf_nonneg key] in *;
      try discriminate; unfold key_le; cbn [key_lt]; try (left; lia); now right.
  - (* it is the radius: the radius is one of the halves *)
    rewrite <- Hmr' in *. apply orb_prop in Hreach. destruct Hreach as [Hle | Hle];
      apply leb_rank in Hle; auto; [left | right];
      apply rank_inj; auto using key_le_antisym.
Qed.

(** X2. The radius saturates: for a width and a height above zero, every
    radius above zero that reaches half of the width or half of the height
    gives the same effective radius, the smaller half, and hence the same
    path data. *)
Theorem radius_saturates_at_half_the_short_side (w h r1 r2 : number) :
  gt w 0 = true -> gt h 0 = true ->
  gt r1 0 = true -> gt r2 0 = true ->
  PrimFloat.leb (w / 2) r1 || PrimFloat.leb (h / 2) r1 = true ->
  PrimFloat.leb (w / 2) r2 || PrimFloat.leb (h / 2) r2 = true ->
  let m := Math_min [r1; w / 2; h / 2] in
  m = Math_min [r2; w / 2; h / 2]
  /\ (m = w / 2 \/ m = h / 2)
  /\ PrimFloat.leb m (w / 2) = true /\ PrimFloat.leb m (h / 2) = true
  /\ getSquirclePath (Positional w h r1) = getSquirclePath (Positional w h r2).
Proof.
  intros Hw Hh Hr1 Hr2 Hreach1 Hreach2 m.
  pose proof (half_nonneg w Hw) as Ha.
  pose proof (half_nonneg h Hh) as Hb.
  destruct (clamp_is_the_smaller_half (w / 2) (h / 2) r1 Ha Hb
              (positive_nonneg r1 Hr1) Hreach1) as (Hin1 & Hma1 & Hmb1).
  destruct (clamp_is_the_smaller_half (w / 2) (h / 2) r2 Ha Hb
              (positive_nonneg r2 Hr2) Hreach2) as (Hin2 & Hma2 & Hmb2).
  fold m in Hin1, Hma1, Hmb1.
  set (m2 := Math_min [r2; w / 2; h / 2]) in *.
  assert (Hnn1 : is_nonneg m = true) by (destruct Hin1 as [-> | ->]; assumption).
  assert (Hnn2 : is_nonneg m2 = true) by (destruct Hin2 as [-> | ->]; assumption).
  assert (Heq : m = m2).
  { apply rank_inj; auto. apply key_le_antisym.
    - destruct Hin2 as [-> | ->]; assumption.
    - destruct Hin1 as [-> | ->]; assumption. }
  split; [exact Heq |]. split; [exact Hin1 |].
  split; [apply leb_rank; auto using nonneg_is_not_nan |].
  split; [apply leb_rank; auto using nonneg_is_not_nan |].
  assert (Hnz : strict_eq w 0 || strict_eq h 0 = false).
  { now rewrite (gt_zero_not_eq w Hw), (gt_zero_not_eq h Hh). }
  rewrite !(Generator.getSquirclePath_renders_contour w h _ Hnz).
  unfold contour. fold m. fold m2. rewrite Heq. reflexivity.
Qed.

Lemma radius_saturates_at_half_the_short_side_witness :
  Math_min [50; 40 / 2; 100 / 2] = Math_min [infinity; 40 / 2; 100 / 2]
  /\ getSquirclePath (Positional 40 100 50) = getSquirclePath (Positional 40 100 infinity).
Proof.
  destruct (radius_saturates_at_half_the_short_side 40 100 50 infinity)
    as (Hm & _ & _ & _ & Hpath); try reflexivity.
  split; assumption.
Defined.

End Saturation.

(** ** The characters of numbers and of path data *)

Module TextFacts.
Import JS Text SquirclePath.

Lemma all_chars_app (P : ascii -> bool) (a b : string) :
  all_chars P (a ++ b) = all_chars P a && all_chars P b.
Proof.
  induction a as [| c a IH]; cbn; [reflexivity |]. now rewrite IH, andb_assoc.
Qed.

Lemma all_chars_substring (P : ascii -> bool) (s : string) :
  all_chars P s = true -> forall n m, all_chars P (substring n m s) = true.
Proof.
  induction s as [| c s IH]; intros Hs n m.
  - destruct n, m; reflexivity.
  - cbn in Hs. apply andb_prop in Hs. destruct Hs as [Hc Hs].
    destruct n as [| n]; cbn [substring].
    + destruct m as [| m]; [reflexivity |]. cbn. now rewrite Hc, IH.
    + now apply IH.
Qed.

Lemma all_chars_weaken (P Q : ascii -> bool) (s : string) :
  (forall a, P a = true -> Q a = true) ->
  all_chars P s = true -> all_chars Q s = true.
Proof.
  intros HPQ. induction s as [| c s IH]; cbn; [reflexivity |].
  intros H. apply andb_prop in H. destruct H as [Hc Hs].
  now rewrite (HPQ c Hc), IH.
Qed.

Lemma digit_char_is_digit (n : Z) : number_char (digit_char (n mod 10)) = true.
Proof.
  unfold digit_char.
  assert (H : (Z.to_nat (n mod 10) < 10)%nat).
  { pose proof (Z.mod_pos_bound n 10 eq_refl). lia. }
  destruct (Z.to_nat (n mod 10)) as [|[|[|[|[|[|[|[|[|[|k]]]]]]]]]];
    try reflexivity; lia.
Qed.

Lemma digits_of_fuel_chars (fuel : nat) :
  forall n acc,
    all_chars number_char acc = true ->
    all_chars number_char (digits_of_fuel fuel n acc) = true.
Proof.
  induction fuel as [| fuel IH]; intros n acc Hacc; cbn [digits_of_fuel].
  - exact Hacc.
  - assert (Hacc' : all_chars number_char (String (digit_char (n mod 10)) acc) = true).
    { cbn [all_chars]. now rewrite digit_char_is_digit, Hacc. }
    destruct (n <? 10)%Z; [exact Hacc' | now apply IH].
Qed.

Lemma digits_of_chars (n : Z) : all_chars number_char (digits_of n) = true.
Proof. unfold digits_of. now apply digits_of_fuel_chars. Qed.

Lemma zeros_chars (n : nat) : all_chars number_char (zeros n) = true.
Proof. induction n as [| n IH]; cbn; [reflexivity | exact IH]. Qed.

Lemma layout_chars (s k n : Z) : all_chars number_char (layout s k n) = true.
Proof.
  unfold layout, substring_from.
  pose proof (digits_of_chars s) as Hds.
  repeat match goal with
         | |- context [if ?b then _ else _] => destruct b
         end;
    rewrite ?all_chars_app, ?Hds, ?zeros_chars, ?digits_of_chars,
      ?(all_chars_substring _ _ Hds); reflexivity.
Qed.

(** [String(x)] consists of digits and of the characters of [.], [-], [+],
    [e], [NaN] and [Infinity], for every number. *)
Lemma toString_chars (x : number) : all_chars number_char (toString x) = true.
Proof.
  unfold toString.
  destruct (Prim2SF x) as [s | s | | s m e]; try reflexivity.
  - now destruct s.
  - destruct (shortest m e) as [[d k] n].
    rewrite all_chars_app, layout_chars. now destruct s.
Qed.

End TextFacts.

Module PathText.
Import JS Text TextFacts SquirclePath.

Lemma number_char_is_path_char (a : ascii) :
  number_char a = true -> path_char a = true.
Proof.
  destruct a as [[|] [|] [|] [|] [|] [|] [|] [|]]; intros H;
    try reflexivity; discriminate H.
Qed.

Lemma toString_path_chars (x : number) : all_chars path_char (toString x) = true.
Proof.
  apply (all_chars_weaken number_char); [exact number_char_is_path_char |].
  apply toString_chars.
Qed.

Lemma render_point_chars (p : vec) : all_chars path_char (render_point p) = true.
Proof.
  unfold render_point. now rewrite !all_chars_app, !toString_path_chars.
Qed.

Lemma render_chars (cs : list command) : all_chars path_char (render cs) = true.
Proof.
  induction cs as [| c cs IH]; [reflexivity |].
  cbn [render]. rewrite all_chars_app, IH, andb_true_r.
  destruct c; cbn [render_command]; rewrite ?all_chars_app, ?render_point_chars;
    reflexivity.
Qed.

Lemma path_data_alphabet_all (args : Args) :
  all_chars path_char (getSquirclePath args) = true.
Proof.
  assert (H : forall w h r, all_chars path_char (getSquirclePath (Positional w h r)) = true).
  { intros w h r.
    destruct (strict_eq w 0 || strict_eq h 0) eqn:Hz.
    - now rewrite (Generator.getSquirclePath_zero w h r Hz).
    - rewrite (Generator.getSquirclePath_renders_contour w h r Hz). apply render_chars. }
  destruct args as [[w h r] | w h r]; [| apply H].
  exact (H w h r).
Qed.

Lemma count_char_app (c : ascii) (a b : string) :
  count_char c (a ++ b) = (count_char c a + count_char c b)%nat.
Proof.
  induction a as [| x a IH]; cbn; [reflexivity |]. rewrite IH. lia.
Qed.

Lemma count_char_absent (P : ascii -> bool) (c : ascii) (s : string) :
  P c = false -> all_chars P s = true -> count_char c s = 0%nat.
Proof.
  intros Hc. induction s as [| x s IH]; cbn; [reflexivity |].
  intros H. apply andb_prop in H. destruct H as [Hx Hs].
  rewrite (IH Hs). destruct (Ascii.eqb x c) eqn:E; [| reflexivity].
  apply Ascii.eqb_eq in E. subst x. congruence.
Qed.

(** X6. For every input, the path data consists of the command letters
    [M], [L], [C], [Z], spaces, commas and the characters of printed
    numbers: no quote, bracket, angle bracket or ampersand can occur, so
    the string can be placed in [path('...')] and in a [d] attribute as it
    is. *)
Theorem path_data_alphabet (args : Args) :
  all_chars path_char (getSquirclePath args) = true
  /\ forall c, In c (list_ascii_of_string "'()<>&;:=/%#") \/ c = ascii_of_nat 34 ->
               count_char c (getSquirclePath args) = 0%nat.
Proof.
  split; [apply path_data_alphabet_all |].
  intros c Hc. apply (count_char_absent path_char); [| apply path_data_alphabet_all].
  destruct Hc as [Hc | ->]; [| reflexivity].
  cbn [list_ascii_of_string In] in Hc.
  repeat (destruct Hc as [<- | Hc]; [reflexivity |]). destruct Hc.
Qed.

Lemma count_in_number (c : ascii) (x : number) :
  number_char c = false -> count_char c (toString x) = 0%nat.
Proof. intros Hc. apply (count_char_absent number_char); [exact Hc | apply toString_chars]. Qed.

Lemma count_in_point (c : ascii) (p : vec) :
  number_char c = false ->
  count_char c (render_point p) = count_char c " ".
Proof.
  intros Hc. unfold render_point.
  rewrite !count_char_app, !count_in_number by exact Hc. lia.
Qed.

(** X7. When neither dimension is [=== 0] the path data has a fixed shape,
    whatever the numbers are: one [M], four [L], twelve [C] (three per
    corner), one [Z] at the very end and twenty-four commas. *)
Theorem path_data_has_fixed_shape (w h radius : number) :
  strict_eq w 0 || strict_eq h 0 = false ->
  let path := getSquirclePath (Positional w h radius) in
  count_char "M" path = 1%nat
  /\ count_char "L" path = 4%nat
  /\ count_char "C" path = 12%nat
  /\ count_char "Z" path = 1%nat
  /\ count_char "," path = 24%nat
  /\ exists body, path = body ++ " Z".
Proof.
  intros Hz path. subst path.
  rewrite (Generator.getSquirclePath_renders_contour w h radius Hz).
  unfold contour, corner_group, squircleBezierApproximation.
  cbn [map app render render_command].
  repeat split;
    try (rewrite ?count_char_app, ?count_in_point by reflexivity; reflexivity).
  change (" Z" ++ "") with " Z".
  rewrite <- !Generator.append_assoc. eexists. reflexivity.
Qed.

Lemma path_data_has_fixed_shape_witness :
  count_char "C" (getSquirclePath (Positional 100 50 20)) = 12%nat.
Proof.
  apply (path_data_has_fixed_shape 100 50 20). reflexivity.
Defined.

End PathText.

(** ** The vector document's markup *)

Module Markup.
Import JS Text TextFacts PathText SquirclePath.

Lemma count_in_path (c : ascii) (args : Args) :
  path_char c = false -> count_char c (getSquirclePath args) = 0%nat.
Proof.
  intros Hc. apply (count_char_absent path_char); [exact Hc | apply path_data_alphabet_all].
Qed.

(** X8. The vector document is delimited the same way for every input: the
    numbers and the path data bring no quote and no angle bracket, so the
    markup always has its ten attribute quotes and the three pairs of
    angle brackets of its tags. *)
Theorem svg_markup_is_well_delimited (w h r : number) :
  let svg := getSquircleSVG w h r in
  count_char (ascii_of_nat 34) svg = 10%nat
  /\ count_char "<" svg = 3%nat
  /\ count_char ">" svg = 3%nat
  /\ prefix "<svg " svg = true.
Proof.
  cbv zeta. unfold getSquircleSVG, dq.
  repeat split;
    try (rewrite ?count_char_app, ?count_in_number, ?count_in_path by reflexivity;
         reflexivity).
Qed.

End Markup.

(** ** The data reference and its document *)

Module ReferenceFacts.
Import JS SquirclePath URI.

(** X9. The data reference identifies the vector document: two calls return
    the same reference exactly when they wrap the same markup, so no two
    different documents share a reference. *)
Theorem data_reference_identifies_document (w h r w' h' r' : number) :
  getSquircleDataUri w h r = getSquircleDataUri w' h' r'
  <-> getSquircleSVG w h r = getSquircleSVG w' h' r'.
Proof.
  unfold getSquircleDataUri. split.
  - cbv zeta. intros Heq.
    remember (encodeURIComponent (getSquircleSVG w h r)) as a eqn:Ha.
    remember (encodeURIComponent (getSquircleSVG w' h' r')) as b eqn:Hb.
    cbn [String.append] in Heq.
    repeat match type of Heq with
           | String _ _ = String _ _ => injection Heq as Heq
           end.
    subst a b. apply (f_equal decodeURIComponent) in Heq.
    rewrite !Reference.decode_encode in Heq.
    exact (f_equal (fun o => match o with Some s => s | None => EmptyString end) Heq).
  - intros ->. reflexivity.
Qed.

End ReferenceFacts.

(** ** The style object of [createSquircleStyles] *)

Module Styles.
Import JS Text TextFacts SquirclePath Host Dom.
Local Open Scope float_scope.

(** X11. [createSquircleStyles] never throws and always answers with
    [position: relative] and one of two disjoint shapes.  It gives a clip
    path only when the host supports it and both dimensions are above zero,
    and then the path data is never empty: it begins with [M].  Otherwise
    (no support, or a zero, negative or NaN dimension) it gives the border
    radius in pixels and hidden overflow, and no clip path. *)
Theorem styles_are_clip_or_fallback (env : Env) (width height : number)
    (opts : ApplySquircleOptions) :
  exists st,
    createSquircleStyles env width height opts = Return st
    /\ ss_position st = "relative"%string
    /\ ss_WebkitClipPath st = ss_clipPath st
    /\ ((exists d,
           ss_clipPath st = Some (css_path d)
           /\ d = getSquirclePath (Positional width height (radius opts))
           /\ prefix "M " d = true
           /\ ss_borderRadius st = None /\ ss_overflow st = None
           /\ supportsClipPath env = Return true
           /\ gt width 0 = true /\ gt height 0 = true)
        \/ (ss_clipPath st = None
            /\ ss_borderRadius st = Some (toString (radius opts) ++ "px")%string
            /\ ss_overflow st = Some "hidden"%string
            /\ (supportsClipPath env = Return false
                \/ gt width 0 = false \/ gt height 0 = false))).
Proof.
  unfold createSquircleStyles.
  destruct (Capability.supportsClipPath_returns env) as [b ->].
  destruct b, (gt width 0) eqn:Hx, (gt height 0) eqn:Hy; cbn [andb];
    (eexists; split; [reflexivity |]);
    cbn [ss_position ss_clipPath ss_WebkitClipPath ss_borderRadius ss_overflow];
    (split; [reflexivity |]); (split; [reflexivity |]);
    try (right; repeat split; auto; fail).
  left. eexists. split; [reflexivity |]. split; [reflexivity |].
  split; [| repeat split].
  assert (Hnz : strict_eq width 0 || strict_eq height 0 = false).
  { now rewrite (FloatFacts.gt_zero_not_eq _ Hx), (FloatFacts.gt_zero_not_eq _ Hy). }
  destruct (Clamp.path_starts_at_clamp width height (radius opts) Hnz) as [rest ->].
  apply Clamp.prefix_app.
Qed.

End Styles.

(** ** Quarter-turn indices *)

Module Turns.
Import JS SquirclePath FloatFacts.
Local Open Scope Z_scope.

(** X10. [rotBy90] reduces its index with the remainder that keeps the
    sign of the index: turns repeat with period four on the indices from
    zero upward, while every negative index that is not a multiple of four
    falls to the [default] branch and turns nothing. *)
Theorem rotBy90_index_wraps_upward_only (v : vec) (k : Z) :
  (0 <= k -> rotBy90 v (k + 4) = rotBy90 v k)
  /\ (k < 0 -> k mod 4 <> 0 -> rotBy90 v k = v).
Proof.
  destruct v as [x y]. unfold rotBy90. split.
  - intros Hk.
    assert (E : Z.rem (k + 4) 4 = Z.rem k 4).
    { rewrite !Z.rem_mod_nonneg by lia.
      replace (k + 4) with (k + 1 * 4) by lia. apply Z.mod_add. lia. }
    now rewrite E.
  - intros Hk Hm.
    pose proof (Z.rem_nonpos k 4 ltac:(lia) ltac:(lia)) as Hb.
    assert (Hr : Z.rem k 4 <> 0).
    { intros E. apply Hm. apply Z.rem_divide in E; [| lia].
      apply Z.mod_divide; [lia | exact E]. }
    destruct (Z.rem k 4) as [| p | p]; [congruence | lia | reflexivity].
Qed.

Lemma rotBy90_index_wraps_upward_only_witness :
  rotBy90 (1, 2)%float (-1) = (1, 2)%float
  /\ rotBy90 (1, 2)%float (3 + 4) = rotBy90 (1, 2)%float 3.
Proof.
  destruct (rotBy90_index_wraps_upward_only (1, 2)%float (-1)) as [_ Hneg].
  destruct (rotBy90_index_wraps_upward_only (1, 2)%float 3) as [Hpos _].
  split; [apply Hneg; [reflexivity | discriminate] | apply Hpos; discriminate].
Defined.

End Turns.

(** ** The binder: registrations, the overlay, fallback and teardown *)

Module BinderMore.
Import JS Host Dom BinderDefs Binder.
Local Open Scope list_scope.
Local Open Scope float_scope.

Lemma applySquircle_run (env : Env) (el : node) (opts : ApplySquircleOptions)
    (w w1 : World) (b : bool) (s' : Session) :
  has_window env = true ->
  supportsClipPath env = Return b ->
  updateStyles env (initial_session b el opts w) (alloc_listener w) = (Return s', w1) ->
  applySquircle env el opts w
  = (Return (with_observer (registered_observer env w1) s'),
     registered env el (next_listener w) w1).
Proof.
  intros Hw Hb Hrun.
  unfold applySquircle, registered, registered_observer, hasResizeObserver,
    addResizeListener, with_listener.
  rewrite Hw, Hb. cbn [andb].
  unfold bind at 1. cbn [lift].
  unfold bind at 1. cbn [newClosure].
  unfold bind at 1. fold (initial_session b el opts w). rewrite Hrun.
  destruct (has_ResizeObserver env);
    cbv [bind ret modify newResizeObserver observe];
    cbn [observed alloc_observer resize_listeners put_observed];
    rewrite ?update_same; reflexivity.
Qed.


(** *** What a pass leaves alone *)

Lemma resize_listeners_put w n d : resize_listeners (put_node w n d) = resize_listeners w.
Proof. reflexivity. Qed.
Lemma observed_put w n d o : observed (put_node w n d) o = observed w o.
Proof. reflexivity. Qed.
Lemma next_observer_put w n d : next_observer (put_node w n d) = next_observer w.
Proof. reflexivity. Qed.
Lemma next_listener_put w n d : next_listener (put_node w n d) = next_listener w.
Proof. reflexivity. Qed.
Lemma resize_listeners_alloc w : resize_listeners (alloc_node w) = resize_listeners w.
Proof. reflexivity. Qed.
Lemma observed_alloc w o : observed (alloc_node w) o = observed w o.
Proof. reflexivity. Qed.
Lemma next_observer_alloc w : next_observer (alloc_node w) = next_observer w.
Proof. reflexivity. Qed.
Lemma next_listener_alloc w : next_listener (alloc_node w) = next_listener w.
Proof. reflexivity. Qed.

#[local] Hint Rewrite nodes_put_same next_node_put next_node_alloc
  nodes_put_listeners nodes_put_observed nodes_alloc_observer nodes_alloc_listener
  next_node_alloc_listener resize_listeners_put_observed
  resize_listeners_put observed_put next_observer_put next_listener_put
  resize_listeners_alloc observed_alloc next_observer_alloc next_listener_alloc : dom.

(** A pass in precise mode with a border and no overlay yet. *)
Lemma pass_creates_overlay (env : Env) (s : Session) (w : World) :
  has_window env = true ->
  isSupported s = true ->
  svgOverlay s = None ->
  gt (s_borderWidth s) 0 = true ->
  strict_eq (offsetWidth (nodes w (element s))) 0
    || strict_eq (offsetHeight (nodes w (element s))) 0 = false ->
  (element s < next_node w)%nat ->
  returns (updateStyles env s) w (fun s' w1 =>
    s' = with_svgOverlay (Some (next_node w)) s
    /\ next_node w1 = S (next_node w)
    /\ nodes w1 (next_node w)
       = {| offsetWidth := 0; offsetHeight := 0;
            style := with_cssText (overlay_cssText (s_borderWidth s)) no_style;
            parentNode := Some (element s);
            attributes := [("aria-hidden", "true")%string];
            innerHTML := overlay_markup (path_at w (element s) (s_radius s))
                           (s_borderColor s) (s_borderWidth s) |}
    /\ clipPath (style (nodes w1 (element s)))
       = Some (css_path (path_at w (element s) (s_radius s)))
    /\ (forall n, n <> element s -> n <> next_node w -> nodes w1 n = nodes w n)
    /\ same_registrations w w1).
Proof.
  intros Hw Hs Hov Hb Hnz Hlt. unfold path_at, updateStyles, same_registrations.
  rewrite Hov, Hs, Hb.
  do 2 step. rewrite Hnz.
  repeat step. repeat split.
  intros n Hn1 Hn2. look. reflexivity.
Qed.


(** Every pass returns and leaves the registrations alone; it allocates a
    node only in precise mode, with a border, when no overlay exists. *)
Lemma pass_returns (env : Env) (s : Session) (w : World) :
  (isSupported s = true -> has_window env = true) ->
  returns (updateStyles env s) w (fun s' w1 =>
    same_registrations w w1
    /\ element s' = element s
    /\ s_updateStyles s' = s_updateStyles s
    /\ s_observer s' = s_observer s
    /\ next_node w1
       = (if negb (strict_eq (offsetWidth (nodes w (element s))) 0
                   || strict_eq (offsetHeight (nodes w (element s))) 0)
             && isSupported s && gt (s_borderWidth s) 0
          then match svgOverlay s with
               | None => S (next_node w)
               | Some _ => next_node w
               end
          else next_node w)
    /\ svgOverlay s'
       = (if negb (strict_eq (offsetWidth (nodes w (element s))) 0
                   || strict_eq (offsetHeight (nodes w (element s))) 0)
             && isSupported s && gt (s_borderWidth s) 0
          then match svgOverlay s with
               | None => Some (next_node w)
               | Some o => Some o
               end
          else svgOverlay s)
    /\ (forall n, n <> element s -> Some n <> svgOverlay s' -> (n < next_node w)%nat ->
        nodes w1 n = nodes w n)).
Proof.
  intros Hw. unfold updateStyles, same_registrations.
  do 2 step.
  destruct (strict_eq (offsetWidth (nodes w (element s))) 0
            || strict_eq (offsetHeight (nodes w (element s))) 0);
    cbn [negb andb]; [step; repeat split |].
  destruct (isSupported s); cbn [andb].
  - specialize (Hw eq_refl).
    destruct (gt (s_borderWidth s) 0); [destruct (svgOverlay s) as [o |] |];
      repeat step; repeat split; intros n Hn Ho Hlt; look; try reflexivity.
    rewrite nodes_put_other by congruence. look. reflexivity.
  - destruct (gt (s_borderWidth s) 0); repeat step; repeat split;
      intros n Hn Ho Hlt; look; reflexivity.
Qed.

Lemma in_with_listener (l : listener) (ls : list listener) :
  In l (with_listener l ls) /\ (forall l', In l' ls -> In l' (with_listener l ls)).
Proof.
  unfold with_listener.
  destruct (existsb (Nat.eqb l) ls) eqn:Hex.
  - split; [| auto].
    apply existsb_exists in Hex. destruct Hex as (l' & Hin & Heq).
    apply Nat.eqb_eq in Heq. subst l'. exact Hin.
  - split; [apply in_or_app; right; left; reflexivity |].
    intros l' Hin. apply in_or_app. left. exact Hin.
Qed.

(** X12. Whatever the element's size and the mode, a bind in a browser
    returns, registers its pass for the window's resize events without
    dropping a listener that was there, and watches the element with a new
    observer exactly when the host has [ResizeObserver]. *)
Theorem bind_registers_both_channels (env : Env) (el : node)
    (opts : ApplySquircleOptions) (w : World) :
  has_window env = true ->
  exists s w1,
    applySquircle env el opts w = (Return s, w1)
    /\ In (s_updateStyles s) (resize_listeners w1)
    /\ (forall l, In l (resize_listeners w) -> In l (resize_listeners w1))
    /\ (forall o, o <> next_observer w -> observed w1 o = observed w o)
    /\ (if has_ResizeObserver env
        then s_observer s = Some (next_observer w)
             /\ observed w1 (next_observer w) = [el]
        else s_observer s = None
             /\ observed w1 (next_observer w) = observed w (next_observer w)).
Proof.
  intros Hw.
  destruct (Capability.supportsClipPath_returns env) as [b Hb].
  destruct (pass_returns env (initial_session b el opts w) (alloc_listener w))
    as (s' & w1 & Hrun & (Hls & Hobs & Hno & Hnl) & Hel & Hl & Ho & _).
  { intros _. exact Hw. }
  rewrite (applySquircle_run env el opts w w1 b s' Hw Hb Hrun).
  do 2 eexists. split; [reflexivity |].
  unfold registered, registered_observer, hasResizeObserver. rewrite Hw. cbn [andb].
  cbn [initial_session s_updateStyles] in Hl.
  destruct (in_with_listener (next_listener w) (resize_listeners w1)) as [Hin Hkeep].
  assert (Hkeep' : forall l, In l (resize_listeners w) ->
                   In l (with_listener (next_listener w) (resize_listeners w1))).
  { intros l Hl'. apply Hkeep. rewrite Hls. exact Hl'. }
  destruct (has_ResizeObserver env);
    cbn [with_observer s_updateStyles s_observer put_listeners resize_listeners observed
         put_observed alloc_observer];
    rewrite Hl; (split; [exact Hin |]); (split; [exact Hkeep' |]).
  - rewrite Hno. cbn [alloc_listener next_observer]. split.
    + intros o Hne. rewrite update_other by exact Hne.
      rewrite update_other by exact Hne. apply Hobs.
    + split; [reflexivity | apply update_same].
  - split; [intros o _; apply Hobs |]. split; [reflexivity | apply Hobs].
Qed.


Lemma bind_registers_both_channels_witness :
  exists s w1,
    applySquircle modern_env 0%nat (plain_options 20) (one_element 100 100) = (Return s, w1)
    /\ In (s_updateStyles s) (resize_listeners w1)
    /\ s_observer s = Some 0%nat
    /\ observed w1 0%nat = [0%nat].
Proof.
  destruct (bind_registers_both_channels modern_env 0%nat (plain_options 20)
              (one_element 100 100) eq_refl)
    as (s & w1 & Hrun & Hin & _ & _ & Hobs & Htargets).
  exists s, w1. repeat split; assumption.
Defined.

(** X13. A bind on an element that has no size yet (hidden, or not laid
    out) writes no style and creates no node; the element is styled by the
    first resize notification, for which the bind has subscribed. *)
Theorem bind_on_empty_surface_styles_nothing (env : Env) (el : node)
    (opts : ApplySquircleOptions) (w : World) :
  has_window env = true ->
  strict_eq (offsetWidth (nodes w el)) 0 || strict_eq (offsetHeight (nodes w el)) 0 = true ->
  exists s w1,
    applySquircle env el opts w = (Return s, w1)
    /\ (forall n, nodes w1 n = nodes w n)
    /\ next_node w1 = next_node w
    /\ svgOverlay s = None
    /\ In (s_updateStyles s) (resize_listeners w1).
Proof.
  intros Hw Hz.
  destruct (Capability.supportsClipPath_returns env) as [b Hb].
  assert (Hrun : updateStyles env (initial_session b el opts w) (alloc_listener w)
                 = (Return (initial_session b el opts w), alloc_listener w)).
  { apply updateStyles_zero_size. exact Hz. }
  rewrite (applySquircle_run env el opts w _ b _ Hw Hb Hrun).
  do 2 eexists. split; [reflexivity |].
  unfold registered, registered_observer.
  destruct (in_with_listener (next_listener w) (resize_listeners (alloc_listener w)))
    as [Hin _].
  destruct (hasResizeObserver env); repeat split; exact Hin.
Qed.

Lemma bind_on_empty_surface_styles_nothing_witness :
  exists s w1,
    applySquircle modern_env 0%nat (plain_options 20) (one_element 0 50) = (Return s, w1)
    /\ (forall n, nodes w1 n = nodes (one_element 0 50) n)
    /\ next_node w1 = next_node (one_element 0 50)
    /\ svgOverlay s = None
    /\ In (s_updateStyles s) (resize_listeners w1).
Proof.
  apply (bind_on_empty_surface_styles_nothing modern_env 0%nat (plain_options 20)
           (one_element 0 50)); reflexivity.
Defined.


(** X14. In precise mode a bind with a positive border width creates one
    detached-then-appended [svg] node: it is the element's child, hidden
    from assistive technology, carries the overlay style text, and its
    markup strokes the very contour that clips the element.  No other node
    of the document is touched. *)
Theorem bind_with_border_builds_overlay (env : Env) (el : node)
    (opts : ApplySquircleOptions) (w : World) :
  let width := offsetWidth (nodes w el) in
  let height := offsetHeight (nodes w el) in
  let bw := default 0 (borderWidth opts) in
  let contour :=
    SquirclePath.getSquirclePath (SquirclePath.Positional width height (radius opts)) in
  supportsClipPath env = Return true ->
  gt bw 0 = true ->
  strict_eq width 0 || strict_eq height 0 = false ->
  (el < next_node w)%nat ->
  exists s w1,
    applySquircle env el opts w = (Return s, w1)
    /\ svgOverlay s = Some (next_node w)
    /\ next_node w1 = S (next_node w)
    /\ parentNode (nodes w1 (next_node w)) = Some el
    /\ attributes (nodes w1 (next_node w)) = [("aria-hidden", "true")%string]
    /\ style (nodes w1 (next_node w)) = with_cssText (overlay_cssText bw) no_style
    /\ innerHTML (nodes w1 (next_node w))
       = overlay_markup contour (default "currentColor"%string (borderColor opts)) bw
    /\ clipPath (style (nodes w1 el)) = Some (css_path contour)
    /\ (forall n, n <> el -> n <> next_node w -> nodes w1 n = nodes w n).
Proof.
  intros width height bw contour Hb Hbw Hnz Hlt.
  assert (Hw : has_window env = true).
  { unfold supportsClipPath in Hb.
    destruct (has_window env); [reflexivity | discriminate]. }
  destruct (pass_creates_overlay env (initial_session true el opts w) (alloc_listener w))
    as (s' & w1 & Hrun & -> & Hnext & Hnode & Hclip & Hframe & _);
    try assumption; try reflexivity.
  rewrite (applySquircle_run env el opts w w1 true _ Hw Hb Hrun).
  do 2 eexists. split; [reflexivity |].
  unfold registered, registered_observer.
  change (next_node (alloc_listener w)) with (next_node w) in Hnode.
  destruct (hasResizeObserver env); look; rewrite Hnode;
    repeat split; assumption.
Qed.

Lemma bind_with_border_builds_overlay_witness :
  exists s w1,
    applySquircle modern_env 0%nat (bordered_options 20 2 "red") (one_element 100 100)
      = (Return s, w1)
    /\ svgOverlay s = Some 1%nat
    /\ parentNode (nodes w1 1%nat) = Some 0%nat.
Proof.
  destruct (bind_with_border_builds_overlay modern_env 0%nat
              (bordered_options 20 2 "red") (one_element 100 100))
    as (s & w1 & Hrun & Hov & _ & Hparent & _);
    [reflexivity | reflexivity | reflexivity | apply Nat.lt_0_1 |].
  exists s, w1. split; [exact Hrun |]. split; [exact Hov | exact Hparent].
Defined.

(** X15. A bind creates an overlay node in one situation only: precise mode,
    a border width above zero and an element that has a size.  In every
    other case (fallback mode, no border, a zero, negative or NaN border
    width, an empty surface) the document gets no new node and the session
    holds no overlay. *)
Theorem overlay_only_for_a_clipped_border (env : Env) (el : node)
    (opts : ApplySquircleOptions) (w : World) (b : bool) :
  has_window env = true ->
  supportsClipPath env = Return b ->
  let sized := negb (strict_eq (offsetWidth (nodes w el)) 0
                     || strict_eq (offsetHeight (nodes w el)) 0) in
  let wanted := sized && b && gt (default 0 (borderWidth opts)) 0 in
  exists s w1,
    applySquircle env el opts w = (Return s, w1)
    /\ svgOverlay s = (if wanted then Some (next_node w) else None)
    /\ next_node w1 = (if wanted then S (next_node w) else next_node w)
    /\ (forall n, n <> el -> (n < next_node w)%nat -> nodes w1 n = nodes w n).
Proof.
  intros Hw Hb sized wanted.
  destruct (pass_returns env (initial_session b el opts w) (alloc_listener w))
    as (s' & w1 & Hrun & _ & _ & _ & _ & Hnext & Hov & Hframe).
  { intros _. exact Hw. }
  rewrite (applySquircle_run env el opts w w1 b s' Hw Hb Hrun).
  do 2 eexists. split; [reflexivity |].
  cbn [initial_session element isSupported s_borderWidth svgOverlay] in Hnext, Hov, Hframe.
  autorewrite with dom in Hnext, Hov, Hframe.
  fold sized in Hnext, Hov. fold wanted in Hnext, Hov.
  unfold registered, registered_observer.
  assert (Hfresh : forall n, (n < next_node w)%nat -> Some n <> svgOverlay s').
  { intros n Hlt. rewrite Hov. destruct wanted; [| discriminate].
    intros [= ->]. lia. }
  destruct (hasResizeObserver env); look; repeat split; try assumption;
    intros n Hn Hlt; apply Hframe; auto.
Qed.

Lemma overlay_only_for_a_clipped_border_witness :
  exists s w1,
    applySquircle modern_env 0%nat (bordered_options 20 (-1) "red") (one_element 100 100)
      = (Return s, w1)
    /\ svgOverlay s = None
    /\ next_node w1 = 1%nat.
Proof.
  destruct (overlay_only_for_a_clipped_border modern_env 0%nat
              (bordered_options 20 (-1) "red") (one_element 100 100) true
              eq_refl eq_refl)
    as (s & w1 & Hrun & Hov & Hnext & _).
  exists s, w1. repeat split; assumption.
Defined.


(** X16. A later pass (a resize) of a session that already has its overlay
    creates nothing: it rewrites the overlay's markup for the element's
    current size and leaves the overlay's parent, style text and attributes
    as they are, so an overlay that was taken out of the element is not put
    back. *)
Theorem later_pass_reuses_overlay (env : Env) (s : Session) (o : node) (w : World) :
  isSupported s = true ->
  svgOverlay s = Some o ->
  gt (s_borderWidth s) 0 = true ->
  strict_eq (offsetWidth (nodes w (element s))) 0
    || strict_eq (offsetHeight (nodes w (element s))) 0 = false ->
  o <> element s ->
  exists w1,
    updateStyles env s w = (Return s, w1)
    /\ next_node w1 = next_node w
    /\ innerHTML (nodes w1 o)
       = overlay_markup (path_at w (element s) (s_radius s)) (s_borderColor s)
           (s_borderWidth s)
    /\ clipPath (style (nodes w1 (element s)))
       = Some (css_path (path_at w (element s) (s_radius s)))
    /\ parentNode (nodes w1 o) = parentNode (nodes w o)
    /\ style (nodes w1 o) = style (nodes w o)
    /\ attributes (nodes w1 o) = attributes (nodes w o).
Proof.
  intros Hs Hov Hb Hnz Hne.
  assert (Hpass : returns (updateStyles env s) w (fun s' w1 =>
            s' = s
            /\ next_node w1 = next_node w
            /\ innerHTML (nodes w1 o)
               = overlay_markup (path_at w (element s) (s_radius s)) (s_borderColor s)
                   (s_borderWidth s)
            /\ clipPath (style (nodes w1 (element s)))
               = Some (css_path (path_at w (element s) (s_radius s)))
            /\ parentNode (nodes w1 o) = parentNode (nodes w o)
            /\ style (nodes w1 o) = style (nodes w o)
            /\ attributes (nodes w1 o) = attributes (nodes w o))).
  { unfold path_at, updateStyles. rewrite Hov, Hs, Hb.
    do 2 step. rewrite Hnz. repeat step.
    repeat (rewrite nodes_put_other by congruence; look).
    repeat split.
    destruct s; cbn in Hov |- *. rewrite Hov. reflexivity. }
  destruct Hpass as (s' & w1 & Hrun & -> & H). exists w1. split; assumption.
Qed.


Lemma later_pass_reuses_overlay_witness :
  exists w1,
    updateStyles modern_env (with_svgOverlay (Some 1%nat) bordered_session)
      (one_element 100 100)
    = (Return (with_svgOverlay (Some 1%nat) bordered_session), w1)
    /\ next_node w1 = 1%nat.
Proof.
  destruct (later_pass_reuses_overlay modern_env
              (with_svgOverlay (Some 1%nat) bordered_session) 1%nat (one_element 100 100))
    as (w1 & Hrun & Hnext & _);
    [reflexivity | reflexivity | reflexivity | reflexivity | discriminate |].
  exists w1. split; assumption.
Defined.

(** A pass in fallback mode. *)
Lemma pass_fallback (env : Env) (s : Session) (w : World) :
  isSupported s = false ->
  strict_eq (offsetWidth (nodes w (element s))) 0
    || strict_eq (offsetHeight (nodes w (element s))) 0 = false ->
  returns (updateStyles env s) w (fun s' w1 =>
    s' = s
    /\ style (nodes w1 (element s))
       = (let st :=
            with_overflow "hidden"
              (with_borderRadius (toString (s_radius s) ++ "px")
                 (with_position "relative" (style (nodes w (element s))))) in
          if gt (s_borderWidth s) 0
          then with_border
                 (toString (s_borderWidth s) ++ "px solid " ++ s_borderColor s) st
          else st)
    /\ next_node w1 = next_node w
    /\ (forall n, n <> element s -> nodes w1 n = nodes w n)
    /\ same_registrations w w1).
Proof.
  intros Hs Hnz. unfold updateStyles, same_registrations. rewrite Hs.
  do 2 step. rewrite Hnz.
  destruct (gt (s_borderWidth s) 0); repeat step; repeat split;
    intros n Hn; look; reflexivity.
Qed.

(** X18. In fallback mode a bind styles the element with ordinary CSS: the
    position, a border radius of the given radius in pixels, hidden
    overflow, and a solid CSS border exactly when the border width is above
    zero; the clip path, every other node and the node count are as
    before. *)
Theorem fallback_bind_uses_css_border (env : Env) (el : node)
    (opts : ApplySquircleOptions) (w : World) :
  let bw := default 0 (borderWidth opts) in
  let color := default "currentColor"%string (borderColor opts) in
  has_window env = true ->
  supportsClipPath env = Return false ->
  strict_eq (offsetWidth (nodes w el)) 0 || strict_eq (offsetHeight (nodes w el)) 0 = false ->
  exists s w1,
    applySquircle env el opts w = (Return s, w1)
    /\ position (style (nodes w1 el)) = Some "relative"%string
    /\ borderRadius (style (nodes w1 el)) = Some (toString (radius opts) ++ "px")%string
    /\ overflow (style (nodes w1 el)) = Some "hidden"%string
    /\ border (style (nodes w1 el))
       = (if gt bw 0 then Some (toString bw ++ "px solid " ++ color)%string
          else border (style (nodes w el)))
    /\ clipPath (style (nodes w1 el)) = clipPath (style (nodes w el))
    /\ next_node w1 = next_node w
    /\ svgOverlay s = None
    /\ (forall n, n <> el -> nodes w1 n = nodes w n).
Proof.
  intros bw color Hw Hb Hnz.
  destruct (pass_fallback env (initial_session false el opts w) (alloc_listener w))
    as (s' & w1 & Hrun & -> & Hstyle & Hnext & Hframe & _); try assumption; try reflexivity.
  rewrite (applySquircle_run env el opts w w1 false _ Hw Hb Hrun).
  do 2 eexists. split; [reflexivity |].
  cbn [initial_session element s_radius s_borderWidth s_borderColor] in Hstyle, Hframe.
  autorewrite with dom in Hstyle.
  fold bw color in Hstyle.
  unfold registered, registered_observer.
  destruct (hasResizeObserver env); look; rewrite Hstyle;
    destruct (gt bw 0); repeat split; assumption.
Qed.

Lemma fallback_bind_uses_css_border_witness :
  exists s w1,
    applySquircle legacy_env 0%nat (bordered_options 20 2 "red") (one_element 100 100)
      = (Return s, w1)
    /\ border (style (nodes w1 0%nat)) = Some "2px solid red"%string.
Proof.
  destruct (fallback_bind_uses_css_border legacy_env 0%nat
              (bordered_options 20 2 "red") (one_element 100 100)
              eq_refl eq_refl eq_refl)
    as (s & w1 & Hrun & _ & _ & _ & Hborder & _).
  exists s, w1. split; [exact Hrun | exact Hborder].
Defined.


Lemma in_filter_out (l l' : listener) (ls : list listener) :
  In l' ls -> l' <> l -> In l' (filter (fun x => negb (Nat.eqb l x)) ls).
Proof.
  intros Hin Hne. apply filter_In. split; [exact Hin |].
  apply negb_true_iff, Nat.eqb_neq. congruence.
Qed.

(** X19. The cleanup closure only unsubscribes and detaches: it never
    throws in a browser, restores no style (the element keeps its clip
    path or its fallback styles), keeps every node's attributes and markup,
    and leaves the listeners and observers of other sessions in place. *)
Theorem cleanup_restores_no_style (env : Env) (s : Session) (w : World) :
  has_window env = true ->
  exists w1,
    cleanup env s w = (Return tt, w1)
    /\ (forall n, style (nodes w1 n) = style (nodes w n)
                  /\ attributes (nodes w1 n) = attributes (nodes w n)
                  /\ innerHTML (nodes w1 n) = innerHTML (nodes w n))
    /\ (forall n, Some n <> svgOverlay s -> nodes w1 n = nodes w n)
    /\ next_node w1 = next_node w
    /\ (forall l, In l (resize_listeners w) -> l <> s_updateStyles s ->
                  In l (resize_listeners w1))
    /\ (forall o, Some o <> s_observer s -> observed w1 o = observed w o).
Proof.
  intros Hw. unfold cleanup, removeResizeListener. rewrite Hw.
  destruct s as [el r bw bc sup ov ob l]; cbn [s_observer svgOverlay s_updateStyles].
  destruct ob as [o |], ov as [n |]; unfold_teardown;
    try (destruct (parentNode (nodes w n)) as [p |] eqn:Hp;
         cbv beta iota; autorewrite with dom; rewrite ?Hp; cbv beta iota;
         rewrite ?Nat.eqb_refl);
    (eexists; split; [reflexivity |]); read_world;
    repeat match goal with |- _ /\ _ => split end;
    try reflexivity;
    try (intros l' Hin Hne; apply in_filter_out; assumption);
    try (intros o' Hne; apply update_other; congruence);
    try (intros n' Hne; apply update_other; congruence);
    try (intros n'; unfold update; destruct (Nat.eqb n' n) eqn:He;
         [apply Nat.eqb_eq in He; subst n' | ]; repeat split; reflexivity);
    try (intros; repeat split; reflexivity).
Qed.

Lemma cleanup_restores_no_style_witness :
  exists w1,
    cleanup modern_env zero_size_session (one_element 100 100) = (Return tt, w1)
    /\ next_node w1 = 1%nat.
Proof.
  destruct (cleanup_restores_no_style modern_env zero_size_session (one_element 100 100)
              eq_refl)
    as (w1 & Hrun & _ & _ & Hnext & _).
  exists w1. split; assumption.
Defined.

(** X20. Outside a browser (no [window]) a bind throws a [ReferenceError]
    at its unguarded [window.addEventListener]; by then the element, if it
    has a size, already carries the fallback styles, and nothing has been
    registered. *)
Theorem bind_without_window_throws (env : Env) (el : node)
    (opts : ApplySquircleOptions) (w : World) :
  has_window env = false ->
  exists w1,
    applySquircle env el opts w = (Throw ReferenceError, w1)
    /\ resize_listeners w1 = resize_listeners w
    /\ (forall o, observed w1 o = observed w o)
    /\ (strict_eq (offsetWidth (nodes w el)) 0
          || strict_eq (offsetHeight (nodes w el)) 0 = false ->
        borderRadius (style (nodes w1 el)) = Some (toString (radius opts) ++ "px")%string
        /\ overflow (style (nodes w1 el)) = Some "hidden"%string).
Proof.
  intros Hw.
  destruct (pass_returns env (initial_session false el opts w) (alloc_listener w))
    as (s' & w1 & Hrun & (Hls & Hobs & _) & _); [discriminate |].
  exists w1.
  assert (Hthrow : applySquircle env el opts w = (Throw ReferenceError, w1)).
  { unfold applySquircle, supportsClipPath, hasResizeObserver, addResizeListener.
    rewrite Hw. cbn [negb andb].
    unfold bind at 1. cbn [lift]. unfold bind at 1. cbn [newClosure].
    unfold bind at 1. fold (initial_session false el opts w). rewrite Hrun.
    reflexivity. }
  split; [exact Hthrow |]. split; [exact Hls |]. split; [exact Hobs |].
  intros Hnz.
  destruct (pass_fallback env (initial_session false el opts w) (alloc_listener w))
    as (s2 & w2 & Hrun2 & _ & Hstyle & _); [reflexivity | exact Hnz |].
  rewrite Hrun in Hrun2. injection Hrun2 as _ <-.
  cbn [initial_session element s_radius s_borderWidth s_borderColor] in Hstyle.
  rewrite Hstyle. cbv zeta.
  destruct (gt (default 0 (borderWidth opts)) 0); split; reflexivity.
Qed.

Lemma bind_without_window_throws_witness :
  exists w1,
    applySquircle headless_env 0%nat (plain_options 20) (one_element 100 100)
      = (Throw ReferenceError, w1)
    /\ borderRadius (style (nodes w1 0%nat)) = Some "20px"%string.
Proof.
  destruct (bind_without_window_throws headless_env 0%nat (plain_options 20)
              (one_element 100 100) eq_refl)
    as (w1 & Hrun & _ & _ & Hstyle).
  exists w1. split; [exact Hrun |]. apply Hstyle. reflexivity.
Defined.

End BinderMore.

Module PassFacts.
Import JS Host Dom BinderDefs Binder BinderMore.
Local Open Scope list_scope.
Local Open Scope float_scope.

#[local] Hint Rewrite nodes_put_same next_node_put next_node_alloc
  nodes_put_listeners nodes_put_observed nodes_alloc_observer nodes_alloc_listener
  next_node_alloc_listener resize_listeners_put_observed
  resize_listeners_put observed_put next_observer_put next_listener_put
  resize_listeners_alloc observed_alloc next_observer_alloc next_listener_alloc : dom.

(** X17. A pass is idempotent: run again on an element whose size has not
    changed, with the session the first run returned, it returns the same
    session and leaves the document, the listeners and the observers as
    they are; in particular it creates no second overlay. *)
Theorem pass_is_idempotent (env : Env) (s : Session) (w : World) :
  has_window env = true ->
  (element s < next_node w)%nat ->
  (forall o, svgOverlay s = Some o -> o <> element s) ->
  exists s1 w1,
    updateStyles env s w = (Return s1, w1)
    /\ exists w2, updateStyles env s1 w1 = (Return s1, w2) /\ same_world w1 w2.
Proof.
  intros Hw Hlt Hov.
  assert (Hboth : returns (updateStyles env s) w (fun s1 w1 =>
            returns (updateStyles env s1) w1 (fun s2 w2 =>
              s2 = s1 /\ same_world w1 w2))).
  { unfold same_world.
    destruct (strict_eq (offsetWidth (nodes w (element s))) 0
              || strict_eq (offsetHeight (nodes w (element s))) 0) eqn:Hz.
    - exists s, w. split; [apply updateStyles_zero_size, Hz |].
      exists s, w. split; [apply updateStyles_zero_size, Hz |]. repeat split.
    - unfold updateStyles at 1.
      do 2 step. rewrite Hz.
      destruct (isSupported s) eqn:Hs.
      + destruct (gt (s_borderWidth s) 0) eqn:Hb.
        * destruct (svgOverlay s) as [o |] eqn:Ho.
          -- specialize (Hov o eq_refl).
             repeat step.
             unfold updateStyles. look. rewrite Hs, Hb.
             do 2 step.
             repeat (rewrite nodes_put_other by congruence; look).
             rewrite Hz.
             repeat step.
             repeat (rewrite nodes_put_other by congruence; look).
             split; [reflexivity |]. repeat split.
             intros n.
             destruct (Nat.eq_dec n o) as [-> | Hno]; [look; reflexivity |].
             rewrite !(nodes_put_other _ o) by assumption.
             destruct (Nat.eq_dec n (element s)) as [-> | Hne]; [look; reflexivity |].
             rewrite !nodes_put_other by assumption. reflexivity.
          -- repeat step.
             unfold updateStyles. look. rewrite Hs, Hb.
             do 2 step.
             repeat (rewrite nodes_put_other by lia; look).
             rewrite ?nodes_alloc_other by lia. look. rewrite Hz.
             repeat step.
             repeat (rewrite nodes_put_other by lia; look).
             rewrite ?nodes_alloc_other by lia. look.
             split; [reflexivity |]. repeat split.
             intros n.
             destruct (Nat.eq_dec n (next_node w)) as [-> | Hno]; [look; reflexivity |].
             rewrite !(nodes_put_other _ (next_node w)) by assumption.
             destruct (Nat.eq_dec n (element s)) as [-> | Hne]; [look; reflexivity |].
             rewrite !nodes_put_other by assumption. reflexivity.
        * repeat step.
          unfold updateStyles. look. rewrite Hs, Hb.
          do 2 step. rewrite Hz. repeat step.
          split; [reflexivity |]. repeat split.
          intros n.
          destruct (Nat.eq_dec n (element s)) as [-> | Hne]; [look; reflexivity |].
          rewrite !nodes_put_other by assumption. reflexivity.
      + destruct (gt (s_borderWidth s) 0) eqn:Hb.
        * repeat step.
          unfold updateStyles. look. rewrite Hs, Hb.
          do 2 step. rewrite Hz. repeat step.
          split; [reflexivity |]. repeat split.
          intros n.
          destruct (Nat.eq_dec n (element s)) as [-> | Hne]; [look; reflexivity |].
          rewrite !nodes_put_other by assumption. reflexivity.
        * repeat step.
          unfold updateStyles. look. rewrite Hs, Hb.
          do 2 step. rewrite Hz. repeat step.
          split; [reflexivity |]. repeat split.
          intros n.
          destruct (Nat.eq_dec n (element s)) as [-> | Hne]; [look; reflexivity |].
          rewrite !nodes_put_other by assumption. reflexivity. }
  destruct Hboth as (s1 & w1 & Hrun1 & s2 & w2 & Hrun2 & -> & Hsame).
  exists s1, w1. split; [exact Hrun1 |]. exists w2. split; assumption.
Qed.

Lemma pass_is_idempotent_witness :
  exists s1 w1,
    updateStyles modern_env bordered_session (one_element 100 100) = (Return s1, w1)
    /\ exists w2, updateStyles modern_env s1 w1 = (Return s1, w2) /\ same_world w1 w2.
Proof.
  apply (pass_is_idempotent modern_env bordered_session (one_element 100 100));
    [reflexivity | apply Nat.lt_0_1 | discriminate].
Defined.

End PassFacts.

(** ** The React hook and component *)

Module ReactFacts.
Import JS SquirclePath ReactSquircle.
Local Open Scope float_scope.

Lemma measured_path_is_truthy (w h r : number) :
  strict_eq w 0 || strict_eq h 0 = false ->
  truthy_string (getSquirclePath (Positional w h r)) = true.
Proof.
  intros Hnz.
  destruct (Clamp.path_starts_at_clamp w h r Hnz) as [rest ->]. reflexivity.
Qed.

(** X21. Before the first measurement the hook styles with the fallback
    (border radius of the fixed radius, or of the desktop radius for a
    responsive one), whether or not clipping is supported.  A measuring pass
    over an element that has a size resolves the radius (the mobile value
    when the window is at most the breakpoint wide, the breakpoint
    included), and from then on a supporting host gets the clip path of
    exactly that size and radius, never an empty one; a host without
    support gets the border radius of the resolved radius. *)
Theorem hook_style_follows_the_measurement (options : UseSquircleOptions)
    (m : Measure) (st : HookState) (width height : number) :
  current m = Some (width, height) ->
  strict_eq width 0 || strict_eq height 0 = false ->
  let resolved :=
    match radius_of options with
    | Fixed radius => radius
    | Responsive radius =>
        if PrimFloat.leb (innerWidth m) (mobileBreakpoint_of options)
        then mobile radius else desktop radius
    end in
  let contour := getSquirclePath (Positional width height resolved) in
  let st' := updatePath options m st in
  (forall b, clipPath (style b (initial_state options)) = None
             /\ borderRadius (style b (initial_state options))
                = Some (toString (currentRadius (initial_state options)) ++ "px")%string)
  /\ pathData st' = contour
  /\ currentRadius st' = resolved
  /\ clipPath (style true st') = Some (Dom.css_path contour)
  /\ WebkitClipPath (style true st') = Some (Dom.css_path contour)
  /\ borderRadius (style true st') = None
  /\ prefix "M " contour = true
  /\ clipPath (style false st') = None
  /\ borderRadius (style false st') = Some (toString resolved ++ "px")%string.
Proof.
  intros Hcur Hnz resolved contour st'.
  assert (Hst : st' = {| pathData := contour; currentRadius := resolved |}).
  { subst st'. unfold updatePath. rewrite Hcur, Hnz. reflexivity. }
  pose proof (measured_path_is_truthy width height resolved Hnz) as Htruthy.
  fold contour in Htruthy.
  split.
  { intros b. unfold style, initial_state. cbn [pathData truthy_string String.eqb negb].
    rewrite andb_false_r. split; reflexivity. }
  rewrite Hst. unfold style. cbn [pathData currentRadius andb].
  rewrite Htruthy. cbn [clipPath WebkitClipPath borderRadius].
  repeat split.
  subst contour. destruct (Clamp.path_starts_at_clamp width height resolved Hnz) as [rest ->].
  apply Clamp.prefix_app.
Qed.

Lemma hook_style_follows_the_measurement_witness :
  clipPath
    (style true
       (updatePath {| o_radius := None; o_mobileBreakpoint := None |}
          {| current := Some (200, 100); innerWidth := 769 |}
          (initial_state {| o_radius := None; o_mobileBreakpoint := None |})))
  = Some (Dom.css_path (getSquirclePath (Positional 200 100 30))).
Proof.
  apply (hook_style_follows_the_measurement
           {| o_radius := None; o_mobileBreakpoint := None |}
           {| current := Some (200, 100); innerWidth := 769 |}
           (initial_state {| o_radius := None; o_mobileBreakpoint := None |})
           200 100 eq_refl eq_refl).
Defined.

(** X22. One render of the component draws a border in at most one way.
    With a border width above zero it is the [svg] overlay exactly when the
    hook clips (support and a measured, non-empty path), and then the
    overlay strokes the very path that clips, at twice the width, and the
    component writes no CSS border; otherwise it is the CSS border and no
    overlay.  Without a border width above zero there is neither.  A clip
    path in the caller's own [style] replaces the squircle's. *)
Theorem component_border_is_overlay_or_css (props : SquircleProps)
    (isSupported : bool) (st : HookState) :
  let bw := Dom.default 0 (p_borderWidth props) in
  let color := Dom.default "currentColor"%string (p_borderColor props) in
  let clips := isSupported && truthy_string (pathData st) in
  let out := Squircle props isSupported st in
  (gt bw 0 = true -> clips = true ->
     border (r_style out) = border (p_style props)
     /\ exists ov,
          r_overlay out = Some ov
          /\ clipPath (style isSupported st) = Some (Dom.css_path (ov_d ov))
          /\ ov_stroke ov = color
          /\ ov_strokeWidth ov = bw * 2)
  /\ (gt bw 0 = true -> clips = false ->
        r_overlay out = None
        /\ border (r_style out) = Some (toString bw ++ "px solid " ++ color)%string)
  /\ (gt bw 0 = false ->
        r_overlay out = None /\ border (r_style out) = border (p_style props))
  /\ (forall v, clipPath (p_style props) = Some v -> clipPath (r_style out) = Some v).
Proof.
  intros bw color clips out. subst out. unfold Squircle.
  fold bw color clips.
  assert (Hborder : border (spread (style isSupported st) (p_style props))
                    = border (p_style props)).
  { cbn [spread border]. unfold style.
    destruct (isSupported && truthy_string (pathData st));
      now destruct (border (p_style props)). }
  split; [| split; [| split]].
  - intros Hbw Hclips. rewrite Hbw, Hclips. cbn [negb andb r_style r_overlay].
    split; [exact Hborder |].
    eexists. split; [reflexivity |].
    cbn [ov_d ov_stroke ov_strokeWidth]. unfold style. fold clips. rewrite Hclips.
    repeat split.
  - intros Hbw Hclips. rewrite Hbw, Hclips. split; reflexivity.
  - intros Hbw. rewrite Hbw, !andb_false_r. cbn [r_style r_overlay].
    split; [reflexivity | exact Hborder].
  - intros v Hv.
    destruct (negb clips && gt bw 0); cbn [r_style with_border spread clipPath];
      rewrite Hv; reflexivity.
Qed.

End ReactFacts.

(** ** The custom element *)

Module CustomElementFacts.
Import JS Host Dom BinderDefs Binder BinderMore CustomElement.
Local Open Scope list_scope.
Local Open Scope float_scope.

(** *** Stepping through a page program *)

Lemma preturns_ret {A : Type} (a : A) (p : Page) (Q : A -> Page -> Prop) :
  Q a p -> preturns (pret a) p Q.
Proof. intros H. exists a, p. split; [reflexivity | exact H]. Qed.

Lemma preturns_bind {A B : Type} (m : P A) (k : A -> P B) (p : Page)
    (Q : B -> Page -> Prop) :
  preturns m p (fun a p1 => preturns (k a) p1 Q) -> preturns (pbind m k) p Q.
Proof.
  intros (a & p1 & Hm & b & p2 & Hk & HQ). exists b, p2.
  split; [| exact HQ]. unfold pbind. rewrite Hm. exact Hk.
Qed.

Lemma preturns_read {A : Type} (f : Page -> A) (p : Page) (Q : A -> Page -> Prop) :
  Q (f p) p -> preturns (read f) p Q.
Proof. intros H. exists (f p), p. split; [reflexivity | exact H]. Qed.

Lemma preturns_set_extra (n : node) (f : Extra -> Extra) (p : Page)
    (Q : unit -> Page -> Prop) :
  Q tt (put_extra p n (f (extras p n))) -> preturns (set_extra n f) p Q.
Proof. intros H. eexists tt, _. split; [reflexivity | exact H]. Qed.

Lemma preturns_dom {A : Type} (m : M A) (p : Page) (Q : A -> Page -> Prop) :
  returns m (document p) (fun a w => Q a {| document := w; extras := extras p |}) ->
  preturns (dom m) p Q.
Proof.
  intros (a & w & Hm & HQ). eexists a, _. split; [| exact HQ].
  unfold dom. rewrite Hm. reflexivity.
Qed.

Lemma preturns_weaken {A : Type} (m : P A) (p : Page) (Q1 Q2 : A -> Page -> Prop) :
  preturns m p Q1 -> (forall a p1, Q1 a p1 -> Q2 a p1) -> preturns m p Q2.
Proof. intros (a & p1 & Hm & HQ) H. exists a, p1. split; auto. Qed.

Lemma pthrows_bind {A B : Type} (m : P A) (k : A -> P B) (p : Page) (e : error)
    (Q : Page -> Prop) :
  preturns m p (fun a p1 => pthrows (k a) p1 e Q) -> pthrows (pbind m k) p e Q.
Proof.
  intros (a & p1 & Hm & p2 & Hk & HQ). exists p2.
  split; [| exact HQ]. unfold pbind. rewrite Hm. exact Hk.
Qed.

Lemma pthrows_bind_here {A B : Type} (m : P A) (k : A -> P B) (p : Page) (e : error)
    (Q : Page -> Prop) :
  pthrows m p e Q -> pthrows (pbind m k) p e Q.
Proof.
  intros (p1 & Hm & HQ). exists p1. split; [| exact HQ].
  unfold pbind. rewrite Hm. reflexivity.
Qed.

Lemma pthrows_dom {A : Type} (m : M A) (p : Page) (e : error) (w : World)
    (Q : Page -> Prop) :
  m (document p) = (Throw e, w) ->
  Q {| document := w; extras := extras p |} -> pthrows (dom m) p e Q.
Proof.
  intros Hm HQ. eexists. split; [| exact HQ]. unfold dom. rewrite Hm. reflexivity.
Qed.

Lemma returns_replace_innerHTML (n : node) (markup : string) (w : World)
    (Q : unit -> World -> Prop) :
  Q tt (put_node (without_children w n) n
          {| offsetWidth := offsetWidth (orphan n (nodes w n));
             offsetHeight := offsetHeight (orphan n (nodes w n));
             style := style (orphan n (nodes w n));
             parentNode := parentNode (orphan n (nodes w n));
             attributes := attributes (orphan n (nodes w n));
             innerHTML := markup |}) ->
  returns (replace_innerHTML n markup) w Q.
Proof. intros H. eexists tt, _. split; [reflexivity | exact H]. Qed.

Lemma returns_attachShadow (w : World) (Q : node -> World -> Prop) :
  Q (next_node w) (alloc_node w) -> returns attachShadow w Q.
Proof. intros H. eexists _, _. split; [reflexivity | exact H]. Qed.

(** *** Reading a page *)

Lemma nodes_without_children w n m : nodes (without_children w n) m = orphan n (nodes w m).
Proof. reflexivity. Qed.
Lemma next_node_without_children w n : next_node (without_children w n) = next_node w.
Proof. reflexivity. Qed.
Lemma resize_listeners_without_children w n :
  resize_listeners (without_children w n) = resize_listeners w.
Proof. reflexivity. Qed.
Lemma observed_without_children w n o : observed (without_children w n) o = observed w o.
Proof. reflexivity. Qed.
Lemma next_observer_without_children w n :
  next_observer (without_children w n) = next_observer w.
Proof. reflexivity. Qed.
Lemma next_listener_without_children w n :
  next_listener (without_children w n) = next_listener w.
Proof. reflexivity. Qed.

Ltac by_orphan :=
  unfold orphan;
  match goal with
  | |- context [parentNode ?d] =>
      destruct (parentNode d) as [p |]; [destruct (Nat.eqb p _) |]; reflexivity
  end.

Lemma offsetWidth_orphan n d : offsetWidth (orphan n d) = offsetWidth d.
Proof. by_orphan. Qed.
Lemma offsetHeight_orphan n d : offsetHeight (orphan n d) = offsetHeight d.
Proof. by_orphan. Qed.
Lemma style_orphan n d : style (orphan n d) = style d.
Proof. by_orphan. Qed.
Lemma attributes_orphan n d : attributes (orphan n d) = attributes d.
Proof. by_orphan. Qed.
Lemma innerHTML_orphan n d : innerHTML (orphan n d) = innerHTML d.
Proof. by_orphan. Qed.

Lemma parentNode_orphan n d :
  parentNode (orphan n d)
  = match parentNode d with
    | Some p => if Nat.eqb p n then None else Some p
    | None => None
    end.
Proof.
  unfold orphan. destruct (parentNode d) as [p |] eqn:E; [destruct (Nat.eqb p n) |];
    cbn [parentNode]; rewrite ?E; reflexivity.
Qed.

Lemma parentNode_orphan_other n d r :
  parentNode d = Some r -> r <> n -> parentNode (orphan n d) = Some r.
Proof.
  intros Hd Hr. rewrite parentNode_orphan, Hd.
  destruct (Nat.eqb r n) eqn:E; [apply Nat.eqb_eq in E; contradiction | reflexivity].
Qed.

Lemma parentNode_orphan_child n d :
  parentNode d = None \/ parentNode d = Some n -> parentNode (orphan n d) = None.
Proof.
  intros [Hd | Hd]; rewrite parentNode_orphan, Hd; [reflexivity |].
  now rewrite Nat.eqb_refl.
Qed.

#[local] Hint Rewrite nodes_put_same next_node_put next_node_alloc
  nodes_put_listeners nodes_put_observed nodes_alloc_observer nodes_alloc_listener
  next_node_alloc_listener resize_listeners_put_observed
  resize_listeners_put observed_put next_observer_put next_listener_put
  resize_listeners_alloc observed_alloc next_observer_alloc next_listener_alloc
  nodes_without_children next_node_without_children resize_listeners_without_children
  observed_without_children next_observer_without_children
  next_listener_without_children
  offsetWidth_orphan offsetHeight_orphan style_orphan attributes_orphan
  innerHTML_orphan : dom.

Ltac plook :=
  cbn [document extras put_extra self shadowRoot ce_observer ce_svgOverlay
       ce_isSupported handleResize with_overlay with_ce_observer channels
       wc_observer wc_handleResize];
  look.

Ltac pstep :=
  lazymatch goal with
  | |- preturns (pbind _ _) _ _ => apply preturns_bind
  | |- preturns (pret _) _ _ => apply preturns_ret
  | |- preturns (read _) _ _ => apply preturns_read
  | |- preturns (get_radius _ _) _ _ => unfold get_radius at 1; apply preturns_read
  | |- preturns (get_borderWidth _ _) _ _ => unfold get_borderWidth at 1; apply preturns_read
  | |- preturns (get_borderColor _) _ _ => unfold get_borderColor at 1; apply preturns_read
  | |- preturns (set_extra _ _) _ _ => apply preturns_set_extra
  | |- preturns (createElementNS _) _ _ => unfold createElementNS at 1
  | |- preturns (dom _) _ _ => apply preturns_dom
  | |- returns (replace_innerHTML _ _) _ _ => apply returns_replace_innerHTML
  | |- returns attachShadow _ _ => apply returns_attachShadow
  | |- returns (lift _) _ _ => eapply returns_lift; [eassumption |]
  | |- returns _ _ _ => step
  end;
  plook.

Lemma disconnectedCallback_keeps_nodes (env : Env) (st : ElementState) (w : World) :
  has_window env = true ->
  returns (Dom.disconnectedCallback env st) w (fun _ w1 =>
    (forall n, nodes w1 n = nodes w n) /\ next_node w1 = next_node w).
Proof.
  intros Hw. unfold Dom.disconnectedCallback, removeResizeListener. rewrite Hw.
  destruct st as [[o |] l]; cbn [wc_observer wc_handleResize]; repeat step;
    split; intros; look; reflexivity.
Qed.

Section Facts.
Variable StringToNumber : string -> number.

Abbreviation radius_of := (radius_of StringToNumber).
Abbreviation borderWidth_of := (borderWidth_of StringToNumber).
Abbreviation updateSquircle := (updateSquircle StringToNumber).
Abbreviation connectedCallback := (connectedCallback StringToNumber).
Abbreviation attributeChangedCallback := (attributeChangedCallback StringToNumber).
Abbreviation contour_of := (contour_of StringToNumber).

Lemma truthy_number_or (x d : number) :
  truthy d = true -> truthy (number_or x d) = true.
Proof. intros Hd. unfold number_or. destruct (truthy x) eqn:E; assumption. Qed.

(** X23. The attribute getters never yield a falsy radius: an absent, empty,
    zero or non-numeric [radius] attribute all give 20, so the element
    cannot be given square corners; the border width is never [NaN] (a
    non-numeric value is 0, no border), and the color is never empty. *)
Theorem getters_fall_back_on_falsy_values (attrs : list (string * string)) :
  let r := radius_of attrs in
  let bw := borderWidth_of attrs in
  strict_eq r 0 = false
  /\ PrimFloat.is_nan r = false
  /\ (truthy (Number StringToNumber (getAttribute attrs "radius")) = false -> r = 20)
  /\ (getAttribute attrs "radius" = None -> r = 20)
  /\ PrimFloat.is_nan bw = false
  /\ (truthy (Number StringToNumber (getAttribute attrs "border-width")) = false ->
      gt bw 0 = false)
  /\ borderColor_of attrs <> EmptyString
  /\ (getAttribute attrs "border-color" = None -> borderColor_of attrs = "currentColor"%string).
Proof.
  cbv zeta.
  assert (Hr : truthy (radius_of attrs) = true).
  { apply truthy_number_or. reflexivity. }
  unfold truthy in Hr. apply negb_true_iff, orb_false_iff in Hr. destruct Hr as [Hr0 Hrn].
  repeat split.
  - exact Hr0.
  - exact Hrn.
  - intros Hf. unfold CustomElement.radius_of, number_or. now rewrite Hf.
  - intros Hnone. unfold CustomElement.radius_of. rewrite Hnone. reflexivity.
  - unfold CustomElement.borderWidth_of, number_or.
    destruct (truthy _) eqn:E; [| reflexivity].
    unfold truthy in E. apply negb_true_iff, orb_false_iff in E. apply E.
  - intros Hf. unfold CustomElement.borderWidth_of, number_or. now rewrite Hf.
  - unfold borderColor_of, string_or.
    destruct (getAttribute attrs "border-color") as [s |]; [| discriminate].
    destruct (String.eqb s "") eqn:E; [discriminate |].
    intros ->. discriminate.
  - intros Hnone. unfold borderColor_of. now rewrite Hnone.
Qed.


(** X24. In precise mode the overlay follows the [border-width] attribute
    from pass to pass.  With a width above zero and no overlay yet, a pass
    creates one node, of class [border-overlay], as a child of the shadow
    root (not of the element).  With a width that is not above zero, a pass
    takes the overlay out of the shadow root and forgets it.  If the
    overlay is no longer a child of the shadow root by then, the pass
    throws [NotFoundError], after it has set the clip path. *)
Theorem overlay_follows_border_width (env : Env) (this : SmoothSquircleElement)
    (root : node) (p : Page) :
  let w := document p in
  let bw := borderWidth_of (attributes (nodes w (self this))) in
  has_window env = true ->
  ce_isSupported this = true ->
  shadowRoot this = Some root ->
  sized w (self this) ->
  root <> self this ->
  (self this < next_node w)%nat ->
  (root < next_node w)%nat ->
  (gt bw 0 = true -> ce_svgOverlay this = None ->
     preturns (updateSquircle env this) p (fun this' p1 =>
       ce_svgOverlay this' = Some (next_node w)
       /\ parentNode (nodes (document p1) (next_node w)) = Some root
       /\ classList (extras p1 (next_node w)) = ["border-overlay"%string]
       /\ clipPath (style (nodes (document p1) (self this)))
          = Some (css_path (contour_of w (self this)))))
  /\ (forall o, gt bw 0 = false -> ce_svgOverlay this = Some o ->
        parentNode (nodes w o) = Some root -> o <> self this ->
        preturns (updateSquircle env this) p (fun this' p1 =>
          ce_svgOverlay this' = None
          /\ parentNode (nodes (document p1) o) = None
          /\ next_node (document p1) = next_node w))
  /\ (forall o, gt bw 0 = false -> ce_svgOverlay this = Some o ->
        parentNode (nodes w o) <> Some root -> o <> self this ->
        pthrows (updateSquircle env this) p NotFoundError (fun p1 =>
          clipPath (style (nodes (document p1) (self this)))
          = Some (css_path (contour_of w (self this))))).
Proof.
  intros w bw Hw Hs Hroot Hsized Hne Hlt Hrlt. subst w bw.
  unfold sized in Hsized. unfold CustomElement.contour_of.
  split; [| split].
  - intros Hbw Hov.
    unfold CustomElement.updateSquircle. rewrite Hs.
    repeat pstep. rewrite Hsized.
    repeat pstep. rewrite Hbw, Hroot. cbn [is_some andb].
    unfold updateBorderOverlay. rewrite Hroot, Hov.
    repeat pstep.
    rewrite !update_same.
    repeat split.
    apply parentNode_orphan_other; [reflexivity | lia].
  - intros o Hbw Hov Hparent Hoe.
    unfold CustomElement.updateSquircle. rewrite Hs.
    repeat pstep. rewrite Hsized.
    repeat pstep. rewrite Hbw. cbn [andb].
    unfold removeBorderOverlay. rewrite Hov, Hroot.
    pstep. pstep. unfold removeChild. pstep. pstep.
    rewrite ?nodes_put_other by congruence. rewrite Hparent, Nat.eqb_refl.
    repeat pstep. repeat split.
  - intros o Hbw Hov Hparent Hoe.
    unfold CustomElement.updateSquircle. rewrite Hs.
    apply pthrows_bind. pstep. rewrite Hsized.
    apply pthrows_bind. pstep.
    apply pthrows_bind. pstep. pstep.
    apply pthrows_bind. pstep. pstep.
    apply pthrows_bind. pstep.
    rewrite Hbw. cbn [andb].
    unfold removeBorderOverlay. rewrite Hov, Hroot.
    apply pthrows_bind_here.
    eapply pthrows_dom.
    + unfold removeChild, bind, get. cbn [document]. look.
      rewrite ?nodes_put_other by congruence.
      destruct (parentNode (nodes (document p) o)) as [q |] eqn:Hq; [| reflexivity].
      destruct (Nat.eqb q root) eqn:E; [| reflexivity].
      apply Nat.eqb_eq in E. subst q. contradiction.
    + plook. reflexivity.
Qed.


(** X25. [connectedCallback] rewrites the shadow root's markup before it
    updates.  On the first connection (no overlay yet) an element with a
    border gets its overlay as a child of the shadow root.  When the
    element is disconnected and connected again, the rewrite drops the
    overlay from the shadow root while the element still holds it, so the
    pass only refreshes its markup: the overlay stays detached and no new
    one is made. *)
Theorem connecting_again_detaches_overlay (env : Env) (this : SmoothSquircleElement)
    (root : node) (p : Page) :
  let w := document p in
  let bw := borderWidth_of (attributes (nodes w (self this))) in
  has_window env = true ->
  ce_isSupported this = true ->
  shadowRoot this = Some root ->
  sized w (self this) ->
  gt bw 0 = true ->
  root <> self this ->
  (self this < next_node w)%nat ->
  (root < next_node w)%nat ->
  (ce_svgOverlay this = None ->
     preturns (connectedCallback env this) p (fun this' p1 =>
       ce_svgOverlay this' = Some (next_node w)
       /\ parentNode (nodes (document p1) (next_node w)) = Some root))
  /\ (forall o, ce_svgOverlay this = Some o ->
        parentNode (nodes w o) = Some root -> o <> self this -> o <> root ->
        preturns (disconnectedCallback env this ;;~ connectedCallback env this) p
          (fun this' p1 =>
             ce_svgOverlay this' = Some o
             /\ parentNode (nodes (document p1) o) = None
             /\ innerHTML (nodes (document p1) o)
                = border_markup (contour_of w (self this))
                    (borderColor_of (attributes (nodes w (self this)))) bw bw
             /\ next_node (document p1) = next_node w)).
Proof.
  intros w bw Hw Hs Hroot Hsized Hbw Hne Hlt Hrlt. subst w bw.
  unfold sized in Hsized. unfold CustomElement.contour_of.
  assert (Hro : hasResizeObserver env = has_ResizeObserver env).
  { unfold hasResizeObserver. now rewrite Hw. }
  split.
  - intros Hov.
    unfold CustomElement.connectedCallback, render. rewrite Hroot.
    repeat pstep.
    unfold CustomElement.updateSquircle. rewrite Hs.
    repeat pstep. rewrite Hsized.
    repeat pstep. rewrite Hbw, Hroot. cbn [is_some andb].
    unfold updateBorderOverlay. rewrite Hroot, Hov.
    repeat pstep.
    unfold addResizeListener. rewrite Hw, Hro.
    destruct (has_ResizeObserver env); repeat pstep; (split; [reflexivity |]);
      (apply parentNode_orphan_other; [reflexivity | lia]).
  - intros o Hov Hparent Hoe Hor.
    unfold CustomElement.disconnectedCallback.
    pstep. pstep.
    eapply returns_weaken; [apply (disconnectedCallback_keeps_nodes env _ _ Hw) |].
    cbn beta. intros _ w1 [Hnodes Hnext].
    unfold CustomElement.connectedCallback, render. rewrite Hroot.
    repeat pstep.
    unfold CustomElement.updateSquircle. rewrite Hs.
    repeat pstep. rewrite !Hnodes. rewrite Hsized.
    repeat pstep. rewrite !Hnodes. rewrite Hbw, Hroot. cbn [is_some andb].
    unfold updateBorderOverlay. rewrite Hroot, Hov.
    repeat pstep. rewrite ?Hnodes.
    unfold addResizeListener. rewrite Hw, Hro.
    destruct (has_ResizeObserver env); repeat pstep; rewrite ?Hnodes;
      repeat split; try exact Hnext;
      apply parentNode_orphan_child; left;
      apply parentNode_orphan_child; right; exact Hparent.
Qed.


(** X27. In fallback mode the custom element never makes an overlay: a pass
    over an element that has a size sets the border radius from the
    [radius] attribute and hidden overflow, sets a solid CSS border exactly
    when the border width is above zero, and writes nothing else (neither
    the position nor a clip path, no other node, no class). *)
Theorem fallback_element_uses_css (env : Env) (this : SmoothSquircleElement)
    (p : Page) :
  let w := document p in
  let el := self this in
  let attrs := attributes (nodes w el) in
  let bw := borderWidth_of attrs in
  ce_isSupported this = false ->
  sized w el ->
  preturns (updateSquircle env this) p (fun this' p1 =>
    this' = this
    /\ borderRadius (style (nodes (document p1) el))
       = Some (toString (radius_of attrs) ++ "px")%string
    /\ overflow (style (nodes (document p1) el)) = Some "hidden"%string
    /\ border (style (nodes (document p1) el))
       = (if gt bw 0
          then Some (toString bw ++ "px solid " ++ borderColor_of attrs)%string
          else border (style (nodes w el)))
    /\ position (style (nodes (document p1) el)) = position (style (nodes w el))
    /\ clipPath (style (nodes (document p1) el)) = clipPath (style (nodes w el))
    /\ next_node (document p1) = next_node w
    /\ (forall n, n <> el -> nodes (document p1) n = nodes w n)
    /\ (forall n, extras p1 n = extras p n)).
Proof.
  intros w el attrs bw Hs Hsized. subst w el attrs bw.
  unfold sized in Hsized.
  unfold CustomElement.updateSquircle. rewrite Hs.
  repeat pstep. rewrite Hsized.
  repeat pstep.
  destruct (gt _ 0) eqn:Hb; repeat pstep; repeat split;
    intros n Hn; look; reflexivity.
Qed.

(** X26. Setting the [radius] attribute to a new value and then running
    [attributeChangedCallback] clips the element to the contour of the new
    radius at once (20 when the new value converts to a falsy number);
    when the callback reports the old value again it does nothing. *)
Theorem radius_attribute_is_applied_at_once (env : Env) (this : SmoothSquircleElement)
    (oldValue : option string) (value : string) (p : Page) :
  let w := document p in
  let el := self this in
  let contour :=
    SquirclePath.getSquirclePath
      (SquirclePath.Positional (offsetWidth (nodes w el)) (offsetHeight (nodes w el))
         (number_or (StringToNumber value) 20)) in
  has_window env = true ->
  ce_isSupported this = true ->
  ce_svgOverlay this = None ->
  sized w el ->
  (el < next_node w)%nat ->
  (differ oldValue (Some value) = true ->
     preturns (dom (setAttribute el "radius" value) ;;~
               attributeChangedCallback env this oldValue (Some value)) p
       (fun _ p1 =>
          clipPath (style (nodes (document p1) el)) = Some (css_path contour)
          /\ WebkitClipPath (style (nodes (document p1) el)) = Some (css_path contour)))
  /\ (differ oldValue (Some value) = false ->
        attributeChangedCallback env this oldValue (Some value) p = (Return this, p)).
Proof.
  intros w el contour Hw Hs Hov Hsized Hlt. subst w el contour.
  unfold sized in Hsized. unfold CustomElement.attributeChangedCallback.
  split; intros Hd; rewrite Hd; [| reflexivity].
  repeat pstep.
  unfold CustomElement.updateSquircle. rewrite Hs.
  repeat pstep. rewrite Hsized.
  repeat pstep.
  assert (Hr : CustomElement.radius_of StringToNumber
                 (("radius"%string, value) :: attributes (nodes (document p) (self this)))
               = number_or (StringToNumber value) 20).
  { reflexivity. }
  rewrite Hr.
  destruct (gt _ 0 && is_some (shadowRoot this)) eqn:Hb.
  - unfold updateBorderOverlay.
    destruct (shadowRoot this) as [root |] eqn:Hroot; [| repeat pstep; split; reflexivity].
    rewrite Hov. repeat pstep.
    repeat (rewrite nodes_put_other by lia; look).
    split; reflexivity.
  - unfold removeBorderOverlay. rewrite Hov. repeat pstep. split; reflexivity.
Qed.

(** X28. [disconnectedCallback] closes the two resize channels and nothing
    else: every node, the overlay in the shadow root and the clip path
    included, every class and every style stays as it is. *)
Theorem disconnecting_keeps_the_overlay (env : Env) (this : SmoothSquircleElement)
    (p : Page) :
  has_window env = true ->
  preturns (CustomElement.disconnectedCallback env this) p (fun _ p1 =>
    ~ In (handleResize this) (resize_listeners (document p1))
    /\ (forall o, ce_observer this = Some o -> observed (document p1) o = [])
    /\ (forall n, nodes (document p1) n = nodes (document p) n)
    /\ (forall n, extras p1 n = extras p n)
    /\ next_node (document p1) = next_node (document p)).
Proof.
  intros Hw. unfold CustomElement.disconnectedCallback. pstep.
  destruct (disconnectedCallback_idempotent env (channels this) (document p) Hw)
    as (w1 & Hrun & Hl & Ho & _).
  destruct (disconnectedCallback_keeps_nodes env (channels this) (document p) Hw)
    as ([] & w1' & Hrun' & Hnodes & Hnext).
  rewrite Hrun in Hrun'. injection Hrun' as <-.
  exists tt, w1. split; [exact Hrun |]. plook. repeat split; assumption.
Qed.

End Facts.

Lemma overlay_follows_border_width_witness :
  preturns (CustomElement.updateSquircle decimal_to_number modern_env example_element)
    constructed_page
    (fun this' p1 =>
       ce_svgOverlay this' = Some 2%nat
       /\ parentNode (nodes (document p1) 2%nat) = Some 1%nat
       /\ classList (extras p1 2%nat) = ["border-overlay"%string]
       /\ clipPath (style (nodes (document p1) 0%nat))
          = Some (css_path (contour_of decimal_to_number (document constructed_page) 0%nat))).
Proof.
  destruct (overlay_follows_border_width decimal_to_number modern_env example_element
              1%nat constructed_page)
    as [Hadd _];
    [reflexivity | reflexivity | reflexivity | reflexivity | discriminate
    | apply Nat.lt_0_2 | apply Nat.lt_1_2 |].
  exact (Hadd eq_refl eq_refl).
Defined.

Lemma connecting_again_detaches_overlay_witness :
  preturns
    (CustomElement.disconnectedCallback modern_env
       (with_overlay (Some 2%nat) (with_ce_observer (Some 0%nat) example_element)) ;;~
     CustomElement.connectedCallback decimal_to_number modern_env
       (with_overlay (Some 2%nat) (with_ce_observer (Some 0%nat) example_element)))
    connected_page
    (fun this' p1 =>
       ce_svgOverlay this' = Some 2%nat
       /\ parentNode (nodes (document p1) 2%nat) = None).
Proof.
  destruct (connecting_again_detaches_overlay decimal_to_number modern_env
              (with_overlay (Some 2%nat) (with_ce_observer (Some 0%nat) example_element))
              1%nat connected_page)
    as [_ Hagain];
    [reflexivity | reflexivity | reflexivity | reflexivity | reflexivity | discriminate
    | apply Nat.lt_0_succ | apply Nat.lt_1_2 + (vm_compute; lia) |].
  eapply preturns_weaken.
  - apply (Hagain 2%nat); [reflexivity | reflexivity | discriminate | discriminate].
  - cbn beta. intros this' p1 (H1 & H2 & _). split; assumption.
Defined.

Lemma fallback_element_uses_css_witness :
  preturns
    (CustomElement.updateSquircle decimal_to_number legacy_env
       {| self := 0%nat; shadowRoot := Some 1%nat; ce_observer := None;
          ce_svgOverlay := None; ce_isSupported := false; handleResize := 0%nat |})
    constructed_page
    (fun _ p1 => border (style (nodes (document p1) 0%nat)) = Some "2px solid currentColor"%string).
Proof.
  eapply preturns_weaken;
    [apply (fallback_element_uses_css decimal_to_number legacy_env
              {| self := 0%nat; shadowRoot := Some 1%nat; ce_observer := None;
                 ce_svgOverlay := None; ce_isSupported := false; handleResize := 0%nat |}
              constructed_page eq_refl eq_refl) |].
  cbn beta. intros _ p1 (_ & _ & _ & Hborder & _). exact Hborder.
Defined.

Lemma radius_attribute_is_applied_at_once_witness :
  preturns (dom (setAttribute 0%nat "radius" "0") ;;~
            CustomElement.attributeChangedCallback decimal_to_number modern_env
              example_element (Some "20"%string) (Some "0"%string)) constructed_page
    (fun _ p1 =>
       clipPath (style (nodes (document p1) 0%nat))
       = Some (css_path (SquirclePath.getSquirclePath
                           (SquirclePath.Positional 100 100 20)))).
Proof.
  destruct (radius_attribute_is_applied_at_once decimal_to_number modern_env
              example_element (Some "20"%string) "0" constructed_page)
    as [Hnew _];
    [reflexivity | reflexivity | reflexivity | reflexivity | apply Nat.lt_0_2 |].
  eapply preturns_weaken; [apply (Hnew eq_refl) |].
  cbn beta. intros _ p1 [H _]. exact H.
Defined.

Lemma disconnecting_keeps_the_overlay_witness :
  preturns (CustomElement.disconnectedCallback modern_env
              (with_overlay (Some 2%nat) (with_ce_observer (Some 0%nat) example_element)))
    connected_page
    (fun _ p1 => parentNode (nodes (document p1) 2%nat) = Some 1%nat).
Proof.
  eapply preturns_weaken;
    [apply (disconnecting_keeps_the_overlay modern_env
              (with_overlay (Some 2%nat) (with_ce_observer (Some 0%nat) example_element))
              connected_page eq_refl) |].
  cbn beta. intros _ p1 (_ & _ & Hnodes & _). rewrite Hnodes. reflexivity.
Defined.

End CustomElementFacts.

(** ** Registration of the custom element *)

Module RegistrationFacts.
Import Host Registration.
Local Open Scope list_scope.

Lemma get_app (registry : CustomElementRegistry) (name n : string) (c : constructor_id) :
  get (registry ++ [(n, c)]) name
  = match get registry name with
    | Some c' => Some c'
    | None => if String.eqb n name then Some c else None
    end.
Proof.
  induction registry as [| [n' c'] rest IH]; cbn [get app]; [reflexivity |].
  destruct (String.eqb n' name); [reflexivity | exact IH].
Qed.

Lemma has_constructor_app (registry : CustomElementRegistry) (n : string)
    (c : constructor_id) :
  has_constructor (registry ++ [(n, c)]) c = true.
Proof.
  unfold has_constructor. rewrite existsb_app. cbn. rewrite Nat.eqb_refl.
  now rewrite orb_true_r.
Qed.

Section Facts.
Variable valid_name : string -> bool.

(** X29. Registration is safe to repeat but holds one tag only.  Without a
    [customElements] registry it does nothing.  On a registry that knows
    neither the tag nor the class, it defines the tag, and a second call
    with the same tag changes nothing and does not throw.  A tag that is
    already defined is left alone, also by the automatic registration, so
    defining [smooth-squircle] first prevents it.  But a call with a second
    tag, after a first one has succeeded, throws [NotSupportedError],
    because [define] refuses a constructor it already has. *)
Theorem registration_is_idempotent_per_tag (registry : CustomElementRegistry)
    (tag : option string) :
  let name := Dom.default "smooth-squircle"%string tag in
  valid_name name = true ->
  registerSmoothSquircle valid_name tag None = (Return tt, None)
  /\ (forall c, get registry name = Some c ->
        registerSmoothSquircle valid_name tag (Some registry) = (Return tt, Some registry))
  /\ (get registry name = None ->
      has_constructor registry SmoothSquircleElement = false ->
      let registry' := registry ++ [(name, SmoothSquircleElement)] in
      registerSmoothSquircle valid_name tag (Some registry) = (Return tt, Some registry')
      /\ get registry' name = Some SmoothSquircleElement
      /\ registerSmoothSquircle valid_name tag (Some registry') = (Return tt, Some registry')
      /\ (forall other,
            valid_name other = true -> get registry' other = None ->
            registerSmoothSquircle valid_name (Some other) (Some registry')
            = (Throw (HostError "NotSupportedError"), Some registry')))
  /\ (forall env c, get registry "smooth-squircle" = Some c ->
        auto_register valid_name env (Some registry) = (Return tt, Some registry))
  /\ (forall env, auto_register valid_name env None = (Return tt, None)).
Proof.
  intros name Hvalid. unfold registerSmoothSquircle. fold name.
  split; [reflexivity |]. split; [| split; [| split]].
  - intros c Hc. rewrite Hc. reflexivity.
  - intros Hnone Hctor. set (registry' := registry ++ [(name, SmoothSquircleElement)]).
    assert (Hget : get registry' name = Some SmoothSquircleElement).
    { subst registry'. rewrite get_app, Hnone, String.eqb_refl. reflexivity. }
    rewrite Hnone. cbn [is_some negb]. unfold define.
    rewrite Hvalid, Hnone, Hctor. cbn [negb is_some].
    split; [reflexivity |]. split; [exact Hget |].
    rewrite Hget. cbn [is_some negb]. split; [reflexivity |].
    intros other Hother Hfree. cbn [Dom.default].
    rewrite Hfree, Hother. cbn [is_some negb].
    subst registry'. rewrite has_constructor_app. reflexivity.
  - intros env c Hc. unfold auto_register. rewrite Hc. now destruct (has_window env).
  - reflexivity.
Qed.

End Facts.

Lemma registration_is_idempotent_per_tag_witness :
  registerSmoothSquircle has_hyphen None (Some [])
  = (Return tt, Some [("smooth-squircle"%string, SmoothSquircleElement)])
  /\ registerSmoothSquircle has_hyphen (Some "my-squircle"%string)
       (Some [("smooth-squircle"%string, SmoothSquircleElement)])
     = (Throw (HostError "NotSupportedError"),
        Some [("smooth-squircle"%string, SmoothSquircleElement)]).
Proof.
  destruct (registration_is_idempotent_per_tag has_hyphen [] None eq_refl)
    as (_ & _ & Hfresh & _).
  destruct (Hfresh eq_refl eq_refl) as (Hfirst & _ & _ & Hother).
  split; [exact Hfirst |].
  apply (Hother "my-squircle"%string); reflexivity.
Defined.

End RegistrationFacts.
